(** * backup-monitor: scanner, analyzer and failover selection

    A shallow embedding of [backup_monitor/core/scanner.py],
    [backup_monitor/core/file_analyzer.py] and the scanning half of
    [backup_monitor/core/monitor.py], with the properties the
    specification states about them.

    Conventions.
    - Python [int] is [Z]; a [datetime] is a [Z] counting microseconds on
      the local wall clock; a [timedelta] is a [Z] number of microseconds.
    - Python [float] results ([health_percentage], [empty_percentage]) are
      exact rationals [Q].
    - A [dict] with string keys is an association list in insertion
      order whose keys are kept distinct by [Dict.set].
    - The file system is a finite tree of nodes; a raised exception is a
      value of [exn] carried by [result]. *)

From Stdlib Require Import String Ascii List ZArith QArith Bool Lia.
From Stdlib Require Import Sorted Permutation DecimalString.
Import ListNotations.

Local Open Scope string_scope.
Local Open Scope Z_scope.
Local Open Scope list_scope.

(* ------------------------------------------------------------------ *)
(** ** Strings and paths *)

Module Str.

(** [s.startswith(p)]. *)
Definition startswith (s p : string) : bool := String.prefix p s.

(** [s.endswith("/")]. *)
Fixpoint endswith_sep (s : string) : bool :=
  match s with
  | EmptyString => false
  | String c EmptyString => Ascii.eqb c "/"%char
  | String _ rest => endswith_sep rest
  end.

(** [s[n:]]. *)
Fixpoint slice_from (n : nat) (s : string) : string :=
  match n, s with
  | O, _ => s
  | S _, EmptyString => EmptyString
  | S k, String _ rest => slice_from k rest
  end.

(** [s.count(os.sep)]. *)
Fixpoint count_sep (s : string) : Z :=
  match s with
  | EmptyString => 0
  | String c rest => (if Ascii.eqb c "/"%char then 1 else 0) + count_sep rest
  end.

(** Whether [os.sep] occurs in [s]. *)
Fixpoint has_sep (s : string) : bool :=
  match s with
  | EmptyString => false
  | String c rest => Ascii.eqb c "/"%char || has_sep rest
  end.

(** Python truthiness of a string. *)
Definition truthy (s : string) : bool :=
  match s with EmptyString => false | _ => true end.

End Str.

(** [os.path.join(a, b)] of posixpath. *)
Definition os_path_join (a b : string) : string :=
  if Str.startswith b "/" then b
  else if negb (Str.truthy a) || Str.endswith_sep a then (a ++ b)%string
  else (a ++ "/" ++ b)%string.

(** [[x for x in l][:n]] for any integer [n]: a negative bound counts
    from the end of the list. *)
Definition py_slice_to {A : Type} (n : Z) (l : list A) : list A :=
  if 0 <=? n then firstn (Z.to_nat n) l
  else firstn (Z.to_nat (Z.of_nat (length l) + n)) l.

(** [len(l)]. *)
Definition len {A : Type} (l : list A) : Z := Z.of_nat (length l).

(* ------------------------------------------------------------------ *)
(** ** Exceptions *)

Inductive exn : Type :=
| FileNotFoundError (msg : string)
| ValueError (msg : string)
| OSError (msg : string)
| OverflowError (msg : string).

(** [str(e)]. *)
Definition str (e : exn) : string :=
  match e with
  | FileNotFoundError m | ValueError m | OSError m | OverflowError m => m
  end.

Inductive result (A : Type) : Type :=
| Ok (a : A)
| Raise (e : exn).
Arguments Ok {A} a.
Arguments Raise {A} e.

Definition bind {A B : Type} (r : result A) (k : A -> result B) : result B :=
  match r with
  | Ok a => k a
  | Raise e => Raise e
  end.

Notation "x <- r ;; k" := (bind r (fun x => k))
  (at level 61, r at next level, right associativity).

(* ------------------------------------------------------------------ *)
(** ** models.py *)

Record FileInfo : Type := mkFileInfo {
  fi_path : string;
  fi_name : string;
  size : Z;
  modified_time : Z;
  is_directory : bool
}.

Record DirectoryStats : Type := mkDirectoryStats {
  path : string;
  file_count : Z;
  subdirectory_count : Z;
  total_size : Z;
  most_recent_file : option FileInfo;
  is_empty : bool;
  error_message : option string
}.

(** The error entry built at three places of the scanner and three of the
    monitor: all counters zero, no recent file, [is_empty=True]. *)
Definition error_stats (p msg : string) : DirectoryStats :=
  mkDirectoryStats p 0 0 0 None true (Some msg).

(** [if stats.error_message:] — [None] and the empty string are falsy. *)
Definition has_error (s : DirectoryStats) : bool :=
  match error_message s with
  | Some m => Str.truthy m
  | None => false
  end.

(* ------------------------------------------------------------------ *)
(** ** The file system seen by [os] *)

(** What [datetime.fromtimestamp(st_mtime)] does with a modification
    time: it yields a datetime, or raises [ValueError] (year out of
    range), [OSError] (localtime failure) or [OverflowError] (timestamp
    outside the platform's time_t). *)
Inductive timestamp : Type :=
| Datetime (t : Z)
| BadValue (msg : string)
| BadOS (msg : string)
| BadOverflow (msg : string).

Definition fromtimestamp (ts : timestamp) : result Z :=
  match ts with
  | Datetime t => Ok t
  | BadValue m => Raise (ValueError m)
  | BadOS m => Raise (OSError m)
  | BadOverflow m => Raise (OverflowError m)
  end.

Record stat_result : Type := mkStat {
  st_size : Z;
  st_mtime : timestamp
}.

(** A node of the tree.  [st] is what [os.stat] returns for the node
    itself ([None]: it raises [OSError]).  For a directory, [access_r] is
    [os.access(path, os.R_OK)] and [scandir_error] is the message of the
    [OSError] raised by listing it, if any. *)
#[local] Set Warnings "-register-all".
Inductive node : Type :=
| File (name : string) (st : option stat_result)
| Dir (name : string) (st : option stat_result) (access_r : bool)
      (scandir_error : option string) (children : list node)
| Symlink (name : string) (target : option node).
#[local] Set Warnings "register-all".

Definition node_name (n : node) : string :=
  match n with
  | File nm _ | Dir nm _ _ _ _ | Symlink nm _ => nm
  end.

(** Follow symbolic links to the node they denote. *)
Fixpoint resolve (n : node) : option node :=
  match n with
  | Symlink _ None => None
  | Symlink _ (Some t) => resolve t
  | _ => Some n
  end.

(** [os.stat(path)], following links. *)
Definition os_stat (n : node) : option stat_result :=
  match resolve n with
  | Some (File _ st) => st
  | Some (Dir _ st _ _ _) => st
  | _ => None
  end.

(** Induction over a tree, with the hypothesis for every child of a
    directory and for the target of a link. *)
Section NodeInduction.
Variable P : node -> Prop.
Hypothesis HFile : forall nm st, P (File nm st).
Hypothesis HDir :
  forall nm st a e children,
    Forall P children -> P (Dir nm st a e children).
Hypothesis HLink :
  forall nm t,
    match t with Some m => P m | None => True end -> P (Symlink nm t).

Fixpoint node_tree_ind (n : node) : P n :=
  match n with
  | File nm st => HFile nm st
  | Dir nm st a e children =>
      HDir nm st a e children
        ((fix all (l : list node) : Forall P l :=
            match l with
            | [] => Forall_nil P
            | c :: l' => Forall_cons c (node_tree_ind c) (all l')
            end) children)
  | Symlink nm t =>
      HLink nm t
        (match t return match t with Some m => P m | None => True end with
         | Some m => node_tree_ind m
         | None => I
         end)
  end.
End NodeInduction.

(** A file system maps the configured root paths to the node found
    there. *)
Record FileSystem : Type := mkFS {
  fs_lookup : string -> option node
}.

(** The node a path denotes once links are followed. *)
Definition root_node (fs : FileSystem) (p : string) : option node :=
  match fs_lookup fs p with
  | Some n => resolve n
  | None => None
  end.

Definition os_path_exists (fs : FileSystem) (p : string) : bool :=
  match fs_lookup fs p with
  | Some n => match os_stat n with Some _ => true | None => false end
  | None => false
  end.

Definition os_path_isdir (fs : FileSystem) (p : string) : bool :=
  match fs_lookup fs p with
  | Some n =>
      match os_stat n, resolve n with
      | Some _, Some (Dir _ _ _ _ _) => true
      | _, _ => false
      end
  | None => false
  end.

(* ------------------------------------------------------------------ *)
(** ** scanner.py *)

Record DirectoryScanner : Type := mkScanner {
  max_depth : Z;
  max_dirs : Z;
  file_size_limit : Z;
  timeout_seconds : Z
}.

(** [DirectoryScanner._is_excluded]. *)
Fixpoint _is_excluded (p : string) (exclude_patterns : list string) : bool :=
  match exclude_patterns with
  | [] => false
  | pattern :: rest =>
      if Str.startswith p pattern then true else _is_excluded p rest
  end.

(** [root[len(base_path):].count(os.sep)]. *)
Definition depth_of (base_path root : string) : Z :=
  Str.count_sep (Str.slice_from (String.length base_path) root).

(** The roots [os.walk(base_path)] yields for which the loop body of
    [_get_directories_to_scan] reaches its end, in order, each with the
    directory it names.  A root at depth [>= max_depth] or an excluded
    root empties [dirs] and is skipped, so nothing below it is yielded.
    [os.walk] yields nothing for a directory it cannot list and does not
    descend into symbolic links. *)
Fixpoint walk (self : DirectoryScanner) (base_path : string)
    (exclude_patterns : list string) (root : string) (n : node)
    : list (string * node) :=
  match n with
  | Dir _ _ _ None children =>
      if max_depth self <=? depth_of base_path root then []
      else if _is_excluded root exclude_patterns then []
      else (root, n) ::
           flat_map (fun c =>
                       walk self base_path exclude_patterns
                            (os_path_join root (node_name c)) c)
                    children
  | _ => []
  end.

(** The body of the [for root, dirs, files in os.walk(...)] loop after
    the two pruning tests: append unless the root is the base path, then
    stop once [max_dirs * 2] directories are collected. *)
Fixpoint collect (self : DirectoryScanner) (base_path : string)
    (visited : list (string * node)) (directories : list (string * node))
    : list (string * node) :=
  match visited with
  | [] => directories
  | (root, n) :: rest =>
      let directories :=
        if String.eqb root base_path then directories
        else directories ++ [(root, n)] in
      if max_dirs self * 2 <=? len directories then directories
      else collect self base_path rest directories
  end.

(** [DirectoryScanner._get_directories_to_scan].  A returned path is
    paired with the directory node it names, which is what the later
    [os.scandir] of that path reads. *)
Definition _get_directories_to_scan (fs : FileSystem)
    (self : DirectoryScanner) (base_path : string)
    (exclude_patterns : list string) : result (list (string * node)) :=
  if negb (os_path_exists fs base_path) then
    Raise (FileNotFoundError ("Path does not exist: " ++ base_path)%string)
  else if negb (os_path_isdir fs base_path) then
    Raise (ValueError ("Path is not a directory: " ++ base_path)%string)
  else
    let visited :=
      match root_node fs base_path with
      | Some d => walk self base_path exclude_patterns base_path d
      | None => []
      end in
    Ok (py_slice_to (max_dirs self) (collect self base_path visited [])).

(** The running state of the loop in [_analyze_directory]. *)
Record analysis_state : Type := mkState {
  s_file_count : Z;
  s_subdirectory_count : Z;
  s_total_size : Z;
  s_most_recent_file : option FileInfo;
  s_most_recent_time : option Z
}.

Definition initial_state : analysis_state := mkState 0 0 0 None None.

(** [most_recent_time is None or t > most_recent_time]. *)
Definition newer (t : Z) (most_recent_time : option Z) : bool :=
  match most_recent_time with
  | None => true
  | Some m => m <? t
  end.

(** [except (OSError, ValueError)]; [FileNotFoundError] is an [OSError]. *)
Definition caught_by_entry_handler (e : exn) : bool :=
  match e with
  | OSError _ | FileNotFoundError _ | ValueError _ => true
  | OverflowError _ => false
  end.

(** One iteration of [for entry in os.scandir(directory_path)].  The
    inner handler catches [OSError] and [ValueError] and moves to the
    next entry with the counters as they are at that point; any other
    exception leaves [_analyze_directory]. *)
Definition analyze_entry (directory_path : string)
    (exclude_patterns : list string) (s : analysis_state) (entry : node)
    : result analysis_state :=
  let entry_path := os_path_join directory_path (node_name entry) in
  match os_stat entry with
  | None => Ok s
  | Some entry_stat =>
      match entry with
      | File nm _ =>
          if _is_excluded entry_path exclude_patterns then Ok s
          else
            let file_size := st_size entry_stat in
            let s1 := mkState (s_file_count s + 1) (s_subdirectory_count s)
                              (s_total_size s + file_size)
                              (s_most_recent_file s) (s_most_recent_time s) in
            match fromtimestamp (st_mtime entry_stat) with
            | Ok t =>
                if newer t (s_most_recent_time s1) then
                  Ok (mkState (s_file_count s1) (s_subdirectory_count s1)
                              (s_total_size s1)
                              (Some (mkFileInfo entry_path nm file_size t false))
                              (Some t))
                else Ok s1
            | Raise e => if caught_by_entry_handler e then Ok s1 else Raise e
            end
      | Dir nm _ _ _ _ =>
          let s1 := mkState (s_file_count s) (s_subdirectory_count s + 1)
                            (s_total_size s)
                            (s_most_recent_file s) (s_most_recent_time s) in
          match fromtimestamp (st_mtime entry_stat) with
          | Ok t =>
              if newer t (s_most_recent_time s1) then
                Ok (mkState (s_file_count s1) (s_subdirectory_count s1)
                            (s_total_size s1)
                            (Some (mkFileInfo entry_path nm 0 t true))
                            (Some t))
              else Ok s1
          | Raise e => if caught_by_entry_handler e then Ok s1 else Raise e
          end
      | Symlink _ _ => Ok s
      end
  end.

Fixpoint analyze_entries (directory_path : string)
    (exclude_patterns : list string) (s : analysis_state)
    (entries : list node) : result analysis_state :=
  match entries with
  | [] => Ok s
  | entry :: rest =>
      s' <- analyze_entry directory_path exclude_patterns s entry ;;
      analyze_entries directory_path exclude_patterns s' rest
  end.

(** [DirectoryScanner._analyze_directory] on the directory [n] found at
    [directory_path]. *)
Definition _analyze_directory (directory_path : string) (n : node)
    (exclude_patterns : list string) : result DirectoryStats :=
  match n with
  | Dir _ _ access_r scandir_error children =>
      if negb access_r then
        Ok (error_stats directory_path "Directory not readable")
      else
        match scandir_error with
        | Some msg => Ok (error_stats directory_path msg)
        | None =>
            s <- analyze_entries directory_path exclude_patterns
                                 initial_state children ;;
            Ok (mkDirectoryStats directory_path (s_file_count s)
                  (s_subdirectory_count s) (s_total_size s)
                  (s_most_recent_file s) (s_file_count s =? 0) None)
        end
  | _ =>
      (* os.scandir of something that is not a directory *)
      Ok (error_stats directory_path
            ("[Errno 20] Not a directory: " ++ directory_path)%string)
  end.

(** The [for directory in directories] loop of [_scan_local_directory],
    with its [results] and [processed_count]. *)
Fixpoint scan_loop (self : DirectoryScanner) (exclude_patterns : list string)
    (directories : list (string * node)) (results : list DirectoryStats)
    (processed_count : Z) : list DirectoryStats :=
  match directories with
  | [] => results
  | (directory, n) :: rest =>
      if max_dirs self <=? processed_count then results
      else
        match _analyze_directory directory n exclude_patterns with
        | Ok stats =>
            scan_loop self exclude_patterns rest (results ++ [stats])
                      (processed_count + 1)
        | Raise e =>
            scan_loop self exclude_patterns rest
                      (results ++ [error_stats directory (str e)])
                      processed_count
        end
  end.

(** [DirectoryScanner._scan_local_directory]. *)
Definition _scan_local_directory (fs : FileSystem) (self : DirectoryScanner)
    (base_path : string) (exclude_patterns : list string)
    : result (list DirectoryStats) :=
  directories <- _get_directories_to_scan fs self base_path exclude_patterns ;;
  Ok (scan_loop self exclude_patterns directories [] 0).

(** [DirectoryScanner.scan_directory]. *)
Definition scan_directory (fs : FileSystem) (self : DirectoryScanner)
    (base_path : string) (exclude_patterns : list string)
    : list DirectoryStats :=
  match _scan_local_directory fs self base_path exclude_patterns with
  | Ok results => results
  | Raise e => [error_stats base_path (str e)]
  end.

(* ------------------------------------------------------------------ *)
(** ** Dictionaries *)

Module Dict.

Definition t (V : Type) : Type := list (string * V).

Fixpoint get {V : Type} (k : string) (d : t V) : option V :=
  match d with
  | [] => None
  | (k', v) :: rest => if String.eqb k k' then Some v else get k rest
  end.

(** [d[k] = v]: an existing key keeps its position. *)
Fixpoint set {V : Type} (k : string) (v : V) (d : t V) : t V :=
  match d with
  | [] => [(k, v)]
  | (k', v') :: rest =>
      if String.eqb k k' then (k, v) :: rest else (k', v') :: set k v rest
  end.

(** [d.update(other)]. *)
Definition update {V : Type} (d other : t V) : t V :=
  fold_left (fun acc kv => set (fst kv) (snd kv) acc) other d.

Definition keys {V : Type} (d : t V) : list string := map fst d.

End Dict.

(* ------------------------------------------------------------------ *)
(** ** file_analyzer.py *)

Definition day : Z := 86400000000.

(** [timedelta(days=n)]. *)
Definition timedelta_days (n : Z) : Z := n * day.

Record FileAnalyzer : Type := mkAnalyzer {
  days_back : Z
}.

Record RecentActivity : Type := mkRecent {
  ra_location : string;
  ra_directory : string;
  ra_file : string;
  ra_size : Z;
  ra_modified : Z
}.

Record Analysis : Type := mkAnalysis {
  total_locations : Z;
  total_directories : Z;
  total_files : Z;
  a_total_size : Z;
  empty_directories : Z;
  error_directories : Z;
  healthy_directories : Z;
  health_percentage : Q;
  recent_files : Z;
  recent_activity : list RecentActivity;
  analysis_time : Z;
  days_analyzed : Z
}.

(** The counters of [analyze_results]. *)
Record counters : Type := mkCounters {
  c_total_directories : Z;
  c_total_files : Z;
  c_total_size : Z;
  c_empty_directories : Z;
  c_error_directories : Z;
  c_recent_files : Z;
  c_recent_activity : list RecentActivity
}.

(** The body of [for stats in location_stats] in [analyze_results]. *)
Definition analyze_stats (cutoff_time : Z) (location_name : string)
    (c : counters) (stats : DirectoryStats) : counters :=
  let total_directories := c_total_directories c + 1 in
  if has_error stats then
    mkCounters total_directories (c_total_files c) (c_total_size c)
               (c_empty_directories c) (c_error_directories c + 1)
               (c_recent_files c) (c_recent_activity c)
  else
    let total_files := c_total_files c + file_count stats in
    let total_size := c_total_size c + total_size stats in
    let empty_directories :=
      if is_empty stats then c_empty_directories c + 1
      else c_empty_directories c in
    match most_recent_file stats with
    | Some f =>
        if cutoff_time <=? modified_time f then
          mkCounters total_directories total_files total_size
                     empty_directories (c_error_directories c)
                     (c_recent_files c + 1)
                     (c_recent_activity c ++
                        [mkRecent location_name (path stats) (fi_name f)
                                  (size f) (modified_time f)])
        else
          mkCounters total_directories total_files total_size
                     empty_directories (c_error_directories c)
                     (c_recent_files c) (c_recent_activity c)
    | None =>
        mkCounters total_directories total_files total_size
                   empty_directories (c_error_directories c)
                   (c_recent_files c) (c_recent_activity c)
    end.

(** [recent_activity.sort(key=lambda x: x['modified'], reverse=True)]:
    a stable sort, newest first. *)
Fixpoint insert_recent (x : RecentActivity) (l : list RecentActivity)
    : list RecentActivity :=
  match l with
  | [] => [x]
  | y :: rest =>
      if ra_modified x <? ra_modified y then y :: insert_recent x rest
      else x :: l
  end.

Definition sort_recent (l : list RecentActivity) : list RecentActivity :=
  fold_right insert_recent [] l.

(** [FileAnalyzer.analyze_results]; [now] is [datetime.now()].  The
    display string ['modified_str'] of a recent-activity record is left
    out. *)
Definition analyze_results (self : FileAnalyzer) (now : Z)
    (scan_results : Dict.t (list DirectoryStats)) : Analysis :=
  let cutoff_time := now - timedelta_days (days_back self) in
  let c :=
    fold_left
      (fun c kv => fold_left (analyze_stats cutoff_time (fst kv)) (snd kv) c)
      scan_results (mkCounters 0 0 0 0 0 0 []) in
  let healthy :=
    c_total_directories c - c_empty_directories c - c_error_directories c in
  let health :=
    if 0 <? c_total_directories c then
      (inject_Z healthy / inject_Z (c_total_directories c) * 100)%Q
    else 0%Q in
  mkAnalysis (len scan_results) (c_total_directories c) (c_total_files c)
             (c_total_size c) (c_empty_directories c) (c_error_directories c)
             healthy health (c_recent_files c)
             (sort_recent (c_recent_activity c)) now (days_back self).

Inductive issue_type : Type :=
| no_data | access_errors | stale_backup | many_empty_dirs.

Inductive severity_level : Type := high | medium | low.

(** The ['message'] of an issue, with the values formatted into it. *)
Inductive issue_message : Type :=
| NoDirectoriesFound                    (* 'No directories found or scan failed' *)
| DirectoriesNotAccessed (count : Z)    (* f'{error_count} directories could not be accessed' *)
| NoActivityInLast (days : Z)           (* f'No activity in the last {days_back * 2} days' *)
| PercentEmpty (percentage : Q).        (* f'{empty_percentage*100:.1f}% of directories are empty' *)

Record Issue : Type := mkIssue {
  type : issue_type;
  severity : severity_level;
  location : string;
  count : option Z;
  percentage : option Q;
  message : issue_message
}.

(** [sum(1 for stats in location_stats if stats.error_message)]. *)
Definition error_count (location_stats : list DirectoryStats) : Z :=
  len (filter has_error location_stats).

(** The [for stats in location_stats] loop that sets
    [has_recent_activity]. *)
Definition has_recent_activity (cutoff_time : Z)
    (location_stats : list DirectoryStats) : bool :=
  existsb
    (fun stats =>
       negb (has_error stats) &&
       match most_recent_file stats with
       | Some f => cutoff_time <=? modified_time f
       | None => false
       end)
    location_stats.

(** [[s for s in location_stats if not s.error_message]]. *)
Definition non_error_dirs (location_stats : list DirectoryStats)
    : list DirectoryStats :=
  filter (fun s => negb (has_error s)) location_stats.

(** [sum(1 for s in non_error_dirs if s.is_empty) / len(non_error_dirs)]. *)
Definition empty_percentage (dirs : list DirectoryStats) : Q :=
  (inject_Z (len (filter is_empty dirs)) / inject_Z (len dirs))%Q.

(** The body of [for location_name, location_stats in ...] in
    [identify_issues], appending to [issues]. *)
Definition location_issues (self : FileAnalyzer) (cutoff_time : Z)
    (issues : list Issue) (location_name : string)
    (location_stats : list DirectoryStats) : list Issue :=
  match location_stats with
  | [] =>
      issues ++ [mkIssue no_data high location_name None None
                         NoDirectoriesFound]
  | _ =>
      let issues :=
        if 0 <? error_count location_stats then
          issues ++ [mkIssue access_errors medium location_name
                             (Some (error_count location_stats)) None
                             (DirectoriesNotAccessed
                                (error_count location_stats))]
        else issues in
      let issues :=
        if negb (has_recent_activity cutoff_time location_stats) then
          issues ++ [mkIssue stale_backup medium location_name None None
                             (NoActivityInLast (days_back self * 2))]
        else issues in
      match non_error_dirs location_stats with
      | [] => issues
      | dirs =>
          if negb (Qle_bool (empty_percentage dirs) (1 # 2)) then
            issues ++ [mkIssue many_empty_dirs low location_name None
                               (Some (empty_percentage dirs * 100)%Q)
                               (PercentEmpty (empty_percentage dirs * 100)%Q)]
          else issues
      end
  end.

(** [FileAnalyzer.identify_issues]. *)
Definition identify_issues (self : FileAnalyzer) (now : Z)
    (scan_results : Dict.t (list DirectoryStats)) : list Issue :=
  let cutoff_time := now - timedelta_days (days_back self * 2) in
  fold_left
    (fun issues kv => location_issues self cutoff_time issues (fst kv) (snd kv))
    scan_results [].

(* ------------------------------------------------------------------ *)
(** ** monitor.py *)

(** A configured location.  Every location reaching the monitor has
    passed [ConfigValidator._validate_backup_locations], which rejects
    any ['type'] other than ['local'], so the model follows the 'local'
    branch of each dispatch on the type.  [loc_max_depth] and
    [failover_group] are [None] when the key is absent. *)
Record Location : Type := mkLocation {
  loc_name : string;
  loc_path : string;
  exclude_patterns : list string;
  loc_max_depth : option Z;
  failover_group : option string
}.

(** [ConfigManager.get_monitoring_config()] after [_set_defaults]. *)
Record MonitoringConfig : Type := mkConfig {
  cfg_max_depth : Z;
  cfg_max_dirs : Z;
  cfg_file_size_limit_mb : Z;
  cfg_timeout_seconds : Z;
  cfg_days_back : Z
}.

Record BackupMonitor : Type := mkMonitor {
  config : MonitoringConfig;
  locations_config : list Location;   (* get_backup_locations() *)
  scanner : DirectoryScanner
}.

(** [BackupMonitor._initialize_components], the scanner part. *)
Definition _initialize_components (cfg : MonitoringConfig)
    (locations : list Location) : BackupMonitor :=
  mkMonitor cfg locations
    (mkScanner (cfg_max_depth cfg) (cfg_max_dirs cfg)
               (cfg_file_size_limit_mb cfg * 1024 * 1024)
               (cfg_timeout_seconds cfg)).

(** [if failover_group:] — a missing or empty tag is falsy. *)
Definition tagged (l : Location) : bool :=
  match failover_group l with
  | Some g => Str.truthy g
  | None => false
  end.

(** [BackupMonitor._scan_location]: the scanner runs with the
    location's depth, and its own depth is restored afterwards, so the
    scanner of [self] is unchanged. *)
Definition _scan_location (fs : FileSystem) (self : BackupMonitor)
    (l : Location) : result (list DirectoryStats) :=
  let max_depth :=
    match loc_max_depth l with
    | Some d => d
    | None => cfg_max_depth (config self)
    end in
  let sc := scanner self in
  let sc' := mkScanner max_depth (max_dirs sc) (file_size_limit sc)
                       (timeout_seconds sc) in
  Ok (scan_directory fs sc' (loc_path l) (exclude_patterns l)).

(** The [try]/[except] around [_scan_location] used for standalone and
    for active failover locations. *)
Definition scan_or_error (fs : FileSystem) (self : BackupMonitor)
    (l : Location) : list DirectoryStats :=
  match _scan_location fs self l with
  | Ok location_results => location_results
  | Raise e => [error_stats (loc_path l) (str e)]
  end.

(** [BackupMonitor._group_failover_locations]. *)
Definition add_to_group (failover_groups : Dict.t (list Location))
    (l : Location) : Dict.t (list Location) :=
  match failover_group l with
  | Some g =>
      if Str.truthy g then
        match Dict.get g failover_groups with
        | Some members => Dict.set g (members ++ [l]) failover_groups
        | None => Dict.set g [l] failover_groups
        end
      else failover_groups
  | None => failover_groups
  end.

Definition _group_failover_locations (locations : list Location)
    : Dict.t (list Location) :=
  filter (fun kv => 1 <? len (snd kv))
         (fold_left add_to_group locations []).

(** One pass over the children of a location's root in
    [_check_location_activity]: the running [most_recent]. *)
Definition probe_item (most_recent : option Z) (item : node)
    : result (option Z) :=
  match os_stat item with
  | None => Ok most_recent            (* neither isfile nor isdir *)
  | Some st =>
      mtime <- fromtimestamp (st_mtime st) ;;
      Ok (if newer mtime most_recent then Some mtime else most_recent)
  end.

Fixpoint probe_items (most_recent : option Z) (items : list node)
    : result (option Z) :=
  match items with
  | [] => Ok most_recent
  | item :: rest =>
      m <- probe_item most_recent item ;;
      probe_items m rest
  end.

(** [datetime.fromtimestamp(os.path.getmtime(path))] of the root. *)
Definition own_mtime (n : node) : result Z :=
  match os_stat n with
  | Some st => fromtimestamp (st_mtime st)
  | None => Raise (OSError "stat failed")
  end.

(** [BackupMonitor._check_location_activity].  The inner handler
    catches [OSError] from the listing and falls back to the root's own
    modification time; every other exception reaches the outer handler,
    which returns [None]. *)
Definition _check_location_activity (fs : FileSystem) (l : Location)
    : option Z :=
  if negb (os_path_exists fs (loc_path l)) then None
  else
    match fs_lookup fs (loc_path l) with
    | None => None
    | Some n =>
        let fallback :=
          match own_mtime n with
          | Ok t => Some t
          | Raise _ => None
          end in
        match resolve n with
        | Some (Dir _ _ _ None children) =>
            match probe_items None children with
            | Ok most_recent => most_recent
            | Raise (OSError _) | Raise (FileNotFoundError _) => fallback
            | Raise _ => None
            end
        | _ => fallback               (* os.listdir raises OSError *)
        end
    end.

(** [BackupMonitor._is_location_accessible]. *)
Definition _is_location_accessible (fs : FileSystem) (l : Location) : bool :=
  os_path_exists fs (loc_path l) && os_path_isdir fs (loc_path l).

(** The first loop of [_find_active_location]: [best_location] and
    [most_recent_activity]. *)
Definition consider (fs : FileSystem) (best : option Location * option Z)
    (l : Location) : option Location * option Z :=
  match _check_location_activity fs l with
  | None => best
  | Some activity_time =>
      if newer activity_time (snd best) then (Some l, Some activity_time)
      else best
  end.

Definition best_candidate (fs : FileSystem) (locations : list Location)
    : option Location * option Z :=
  fold_left (consider fs) locations (None, None).

(** [(datetime.now() - most_recent_activity).days]: whole days, rounded
    towards minus infinity. *)
Definition days_old (now activity : Z) : Z := (now - activity) / day.

(** [BackupMonitor._find_active_location]. *)
Definition _find_active_location (fs : FileSystem) (now : Z)
    (locations : list Location) : option Location :=
  let fallback := find (_is_location_accessible fs) locations in
  match best_candidate fs locations with
  | (Some best_location, Some most_recent_activity) =>
      if days_old now most_recent_activity <=? 7 then Some best_location
      else fallback
  | _ => fallback
  end.

(** [BackupMonitor._scan_with_failover]. *)
Definition scan_group (fs : FileSystem) (self : BackupMonitor) (now : Z)
    (results : Dict.t (list DirectoryStats))
    (group : string * list Location) : Dict.t (list DirectoryStats) :=
  let (group_name, group_locations) := group in
  match _find_active_location fs now group_locations with
  | Some active_location =>
      Dict.set (loc_name active_location)
               (scan_or_error fs self active_location) results
  | None =>
      Dict.set ("No Active Location (" ++ group_name ++ ")")%string
               [error_stats "/unavailable"
                  ("No active location found in failover group '"
                     ++ group_name ++ "'")%string]
               results
  end.

Definition _scan_with_failover (fs : FileSystem) (self : BackupMonitor)
    (now : Z) (failover_groups : Dict.t (list Location))
    : Dict.t (list DirectoryStats) :=
  fold_left (scan_group fs self now) failover_groups [].

(** [BackupMonitor.scan_all_locations]. *)
Definition scan_all_locations (fs : FileSystem) (self : BackupMonitor)
    (now : Z) : Dict.t (list DirectoryStats) :=
  let locations := locations_config self in
  let failover_locations := _group_failover_locations locations in
  let non_failover_locations :=
    filter (fun l => negb (tagged l)) locations in
  let results :=
    fold_left
      (fun results l => Dict.set (loc_name l) (scan_or_error fs self l) results)
      non_failover_locations [] in
  match failover_locations with
  | [] => results
  | _ =>
      Dict.update results
        (_scan_with_failover fs self now failover_locations)
  end.

(* ------------------------------------------------------------------ *)
(** ** Notions used in the statements *)

(** Every directory of the tree below the directory [n] found at path
    [p], [n] included, each with its path. *)
Fixpoint subtree_dirs (p : string) (n : node) : list (string * node) :=
  match n with
  | Dir _ _ _ _ children =>
      (p, n) ::
      flat_map (fun c => subtree_dirs (os_path_join p (node_name c)) c)
               children
  | _ => []
  end.

(** No entry name of the tree contains the path separator. *)
Fixpoint valid_names (n : node) : bool :=
  match n with
  | Dir _ _ _ _ children =>
      forallb (fun c => negb (Str.has_sep (node_name c)) && valid_names c)
              children
  | _ => true
  end.

(** The sizes of the immediate regular files of a directory that can be
    stat'ed and match no exclusion pattern, in listing order. *)
Fixpoint counted_sizes (directory_path : string) (excl : list string)
    (entries : list node) : list Z :=
  match entries with
  | [] => []
  | File nm (Some st) :: rest =>
      if _is_excluded (os_path_join directory_path nm) excl
      then counted_sizes directory_path excl rest
      else st_size st :: counted_sizes directory_path excl rest
  | _ :: rest => counted_sizes directory_path excl rest
  end.

Definition sum_Z (l : list Z) : Z := fold_right Z.add 0 l.

(** The immediate entries that compete for most recent entry, in
    listing order: the counted regular files and the subdirectories
    whose modification time converts to a datetime. *)
Fixpoint recency_candidates (directory_path : string) (excl : list string)
    (entries : list node) : list FileInfo :=
  match entries with
  | [] => []
  | File nm (Some (mkStat sz (Datetime t))) :: rest =>
      let p := os_path_join directory_path nm in
      if _is_excluded p excl
      then recency_candidates directory_path excl rest
      else mkFileInfo p nm sz t false ::
           recency_candidates directory_path excl rest
  | Dir nm (Some (mkStat _ (Datetime t))) _ _ _ :: rest =>
      mkFileInfo (os_path_join directory_path nm) nm 0 t true ::
      recency_candidates directory_path excl rest
  | _ :: rest => recency_candidates directory_path excl rest
  end.

(** [f] is the first entry of [l] with the latest modification time. *)
Definition first_latest (f : FileInfo) (l : list FileInfo) : Prop :=
  exists before after,
    l = before ++ f :: after /\
    (forall x, In x before -> modified_time x < modified_time f) /\
    (forall x, In x after -> modified_time x <= modified_time f).

(** The running choice of the most recent entry over a list of
    candidates: a candidate replaces the current one only when it is
    strictly newer. *)
Fixpoint pick (current : option FileInfo) (l : list FileInfo)
    : option FileInfo :=
  match l with
  | [] => current
  | x :: rest =>
      if newer (modified_time x) (option_map modified_time current)
      then pick (Some x) rest
      else pick current rest
  end.

(** All the entries of a scan-results mapping. *)
Definition all_stats (scan_results : Dict.t (list DirectoryStats))
    : list DirectoryStats :=
  flat_map snd scan_results.

(** An entry that is not error-tagged and has [is_empty] set. *)
Definition empty_without_error (s : DirectoryStats) : bool :=
  negb (has_error s) && is_empty s.

(** The condition of each issue check of [identify_issues] on a
    location's result list, each stated on its own. *)
Definition check_holds (self : FileAnalyzer) (now : Z) (k : issue_type)
    (location_stats : list DirectoryStats) : bool :=
  match k with
  | no_data =>
      match location_stats with [] => true | _ => false end
  | access_errors => 0 <? error_count location_stats
  | stale_backup =>
      negb (has_recent_activity
              (now - timedelta_days (days_back self * 2)) location_stats)
  | many_empty_dirs =>
      match non_error_dirs location_stats with
      | [] => false
      | dirs => negb (Qle_bool (empty_percentage dirs) (1 # 2))
      end
  end.

(** [identify_issues] reports an issue of type [k] for location [name]. *)
Definition raised (self : FileAnalyzer) (now : Z)
    (scan_results : Dict.t (list DirectoryStats)) (name : string)
    (k : issue_type) : Prop :=
  exists i,
    In i (identify_issues self now scan_results) /\
    type i = k /\ location i = name.

(** The four checks are evaluated for every location whatever the
    outcome of the others: an issue of a type is reported for a location
    exactly when that type's condition holds on its result list. *)
Definition all_checks_unconditional : Prop :=
  forall self now scan_results name location_stats k,
    NoDup (Dict.keys scan_results) ->
    In (name, location_stats) scan_results ->
    (check_holds self now k location_stats = true <->
     raised self now scan_results name k).

(** The issues of [identify_issues] that concern location [name]. *)
Definition issues_of (name : string) (issues : list Issue) : list Issue :=
  filter (fun i => String.eqb (location i) name) issues.

(** The location [x] carries the failover-group tag [g]. *)
Definition in_group (g : string) (x : Location) : bool :=
  match failover_group x with
  | Some g' => Str.truthy g' && String.eqb g' g
  | None => false
  end.

(** Every group built so far holds locations seen so far that carry its
    tag, and no more of them than there are. *)
Definition groups_sound (seen : list Location)
    (groups : Dict.t (list Location)) : Prop :=
  forall g members,
    In (g, members) groups ->
    (forall m, In m members -> In m seen /\ in_group g m = true) /\
    len members <= len (filter (in_group g) seen).

(** The key under which a group without active location is reported. *)
Definition placeholder_name (g : string) : string :=
  ("No Active Location (" ++ g ++ ")")%string.

(** No candidate of the group has any probed activity. *)
Definition no_probed_activity (fs : FileSystem) (locations : list Location)
    : Prop :=
  forall l, In l locations -> _check_location_activity fs l = None.

(** [t] is the latest probed activity over the group. *)
Definition latest_probed_activity (fs : FileSystem)
    (locations : list Location) (t : Z) : Prop :=
  (exists b, In b locations /\ _check_location_activity fs b = Some t) /\
  (forall l t', In l locations ->
                _check_location_activity fs l = Some t' -> t' <= t).

(** What the first loop of [_find_active_location] holds after the
    locations [seen]. *)
Definition best_of (fs : FileSystem) (seen : list Location)
    (best : option Location * option Z) : Prop :=
  (best = (None, None) /\ no_probed_activity fs seen) \/
  (exists b t, best = (Some b, Some t) /\ latest_probed_activity fs seen t).

(** [r] is the first location, in declared order, that exists and is a
    directory; [None] when there is none. *)
Definition first_accessible (fs : FileSystem) (locations : list Location)
    (r : option Location) : Prop :=
  match r with
  | Some l =>
      exists before after,
        locations = before ++ l :: after /\
        os_path_exists fs (loc_path l) = true /\
        os_path_isdir fs (loc_path l) = true /\
        forall x, In x before ->
                  os_path_exists fs (loc_path x) = false \/
                  os_path_isdir fs (loc_path x) = false
  | None =>
      forall x, In x locations ->
                os_path_exists fs (loc_path x) = false \/
                os_path_isdir fs (loc_path x) = false
  end.

(** The fallback rule read with a 7-day duration: as soon as the latest
    probed activity lies more than 7 days before [now], recency is
    ignored. *)
Definition fallback_when_older_than_7_days : Prop :=
  forall fs now locations,
    no_probed_activity fs locations \/
    (exists t, latest_probed_activity fs locations t /\
               timedelta_days 7 < now - t) ->
    first_accessible fs locations (_find_active_location fs now locations).

(* ------------------------------------------------------------------ *)
(** ** Sample file systems and configurations *)

Module Sample.

Definition file (nm : string) (sz t : Z) : node :=
  File nm (Some (mkStat sz (Datetime t))).

Definition dir (nm : string) (t : Z) (children : list node) : node :=
  Dir nm (Some (mkStat 4096 (Datetime t))) true None children.

Definition fs_of (roots : list (string * node)) : FileSystem :=
  mkFS (fun p => Dict.get p roots).

Definition loc (nm p : string) (group : option string) : Location :=
  mkLocation nm p [] None group.

Definition now : Z := 30 * day.

(** Two replicas: /a last written 20 days ago, /b 7 days and 12 hours
    ago. *)
Definition replicas_7_5 : FileSystem :=
  fs_of [("/a", dir "a" 0 [file "dump" 10 (now - 20 * day)]);
         ("/b", dir "b" 0 [file "dump" 10 (now - 7 * day - day / 2)])].

(** Two replicas: /a last written 10 days ago, /b 12 days ago. *)
Definition replicas_10_12 : FileSystem :=
  fs_of [("/a", dir "a" 0 [file "dump" 10 (now - 10 * day)]);
         ("/b", dir "b" 0 [file "dump" 10 (now - 12 * day)])].

Definition A : Location := loc "A" "/a" (Some "g").
Definition B : Location := loc "B" "/b" (Some "g").

(** /backup with a/b below it and one file in a. *)
Definition backup_tree : node :=
  dir "backup" 0
    [dir "a" 5 [file "x" 7 3; dir "b" 4 []];
     dir "tmpfile2" 6 []].

Definition backup_fs : FileSystem := fs_of [("/backup", backup_tree)].

Definition scanner_depth_2 : DirectoryScanner := mkScanner 2 200 104857600 300.

Definition defaults : MonitoringConfig := mkConfig 3 200 100 300 7.

(** A single configured location, tagged with a failover group that
    no other location shares. *)
Definition archive : Location := loc "Archive" "/backup" (Some "g").

Definition lone_monitor : BackupMonitor :=
  _initialize_components defaults [archive].

Definition stats_a : DirectoryStats :=
  mkDirectoryStats "/backup/a" 1 1 7
    (Some (mkFileInfo "/backup/a/b" "b" 0 4 true)) false None.

Definition stats_b : DirectoryStats :=
  mkDirectoryStats "/backup/a/b" 0 0 0 None true None.

Definition stats_tmpfile2 : DirectoryStats :=
  mkDirectoryStats "/backup/tmpfile2" 0 0 0 None true None.

End Sample.

(* ------------------------------------------------------------------ *)
(** ** Further notions *)

(** The entries of the walk other than the base path itself: what the
    loop of [_get_directories_to_scan] appends. *)
Definition below_root (base_path : string)
    (visited : list (string * node)) : list (string * node) :=
  filter (fun x => negb (String.eqb (fst x) base_path)) visited.

(** The immediate subdirectories of a listing that can be stat'ed. *)
Definition statable_subdirs (entries : list node) : list node :=
  filter (fun c => match c with
                   | Dir _ (Some _) _ _ _ => true
                   | _ => false
                   end)
         entries.





(* ------------------------------------------------------------------ *)
(** ** file_analyzer.py, continued *)

(** The ['most_recent_activity'] dictionary of a location summary. *)
Record Activity : Type := mkActivity {
  act_directory : string;
  act_file : string;
  act_size : Z;
  act_modified : Z
}.

Record LocationSummary : Type := mkSummary {
  sm_directories : Z;
  sm_files : Z;
  sm_total_size : Z;
  sm_empty_directories : Z;
  sm_error_directories : Z;
  sm_recent_files : Z;
  sm_most_recent_activity : option Activity
}.

(** The state of the loop of [get_location_summary]: [recent_files],
    [most_recent_activity] and [most_recent_time]. *)
Definition summary_state : Type := (Z * option Activity * option Z)%type.

(** The body of [for stats in location_stats] in
    [get_location_summary]. *)
Definition summarize_stats (cutoff_time : Z) (st : summary_state)
    (stats : DirectoryStats) : summary_state :=
  let '(recent_files, most_recent_activity, most_recent_time) := st in
  if has_error stats then st
  else
    match most_recent_file stats with
    | None => st
    | Some f =>
        let recent_files :=
          if cutoff_time <=? modified_time f then recent_files + 1
          else recent_files in
        if newer (modified_time f) most_recent_time then
          (recent_files,
           Some (mkActivity (path stats) (fi_name f) (size f)
                            (modified_time f)),
           Some (modified_time f))
        else (recent_files, most_recent_activity, most_recent_time)
    end.

(** [FileAnalyzer.get_location_summary]; [now] is [datetime.now()]. *)
Definition get_location_summary (self : FileAnalyzer) (now : Z)
    (location_stats : list DirectoryStats) : LocationSummary :=
  match location_stats with
  | [] => mkSummary 0 0 0 0 0 0 None
  | _ =>
      let total_directories := len location_stats in
      let total_files :=
        sum_Z (map file_count (non_error_dirs location_stats)) in
      let total_size :=
        sum_Z (map total_size (non_error_dirs location_stats)) in
      let empty_directories :=
        len (filter (fun stats => is_empty stats && negb (has_error stats))
                    location_stats) in
      let error_directories := len (filter has_error location_stats) in
      let cutoff_time := now - timedelta_days (days_back self) in
      let '(recent_files, most_recent_activity, _) :=
        fold_left (summarize_stats cutoff_time) location_stats
                  (0, None, None) in
      mkSummary total_directories total_files total_size empty_directories
                error_directories recent_files most_recent_activity
  end.

(** An entry counts as recent activity: no error, a most recent file,
    modified at or after the cutoff. *)
Definition is_recent (cutoff_time : Z) (stats : DirectoryStats) : bool :=
  negb (has_error stats) &&
  match most_recent_file stats with
  | Some f => cutoff_time <=? modified_time f
  | None => false
  end.

(** The recent-activity record [analyze_results] builds for an entry. *)
Definition recent_record (location_name : string) (stats : DirectoryStats)
    : list RecentActivity :=
  match most_recent_file stats with
  | Some f =>
      [mkRecent location_name (path stats) (fi_name f) (size f)
                (modified_time f)]
  | None => []
  end.

(** The recent-activity records of a mapping, in mapping order, before
    they are sorted. *)
Definition recent_records (cutoff_time : Z)
    (scan_results : Dict.t (list DirectoryStats)) : list RecentActivity :=
  flat_map
    (fun kv =>
       flat_map (recent_record (fst kv))
                (filter (is_recent cutoff_time) (snd kv)))
    scan_results.

(** The entries that compete for a summary's most recent activity, as
    activity records in list order. *)
Definition activity_candidates (location_stats : list DirectoryStats)
    : list Activity :=
  flat_map
    (fun stats =>
       if has_error stats then []
       else match most_recent_file stats with
            | Some f => [mkActivity (path stats) (fi_name f) (size f)
                                    (modified_time f)]
            | None => []
            end)
    location_stats.

(** [a] is the first activity of [l] with the latest modification
    time. *)
Definition first_latest_activity (a : Activity) (l : list Activity)
    : Prop :=
  exists before after,
    l = before ++ a :: after /\
    (forall x, In x before -> act_modified x < act_modified a) /\
    (forall x, In x after -> act_modified x <= act_modified a).

(** The sum of a field of the per-location summaries of a mapping. *)
Definition sum_over_locations (self : FileAnalyzer) (now : Z)
    (field : LocationSummary -> Z)
    (scan_results : Dict.t (list DirectoryStats)) : Z :=
  sum_Z (map (fun kv => field (get_location_summary self now (snd kv)))
             scan_results).


(** The running choice of the latest element of a list under a key: an
    element replaces the current one only when its key is strictly
    greater. *)
Fixpoint pick_by {A : Type} (key : A -> Z) (current : option A)
    (l : list A) : option A :=
  match l with
  | [] => current
  | x :: rest =>
      if newer (key x) (option_map key current)
      then pick_by key (Some x) rest
      else pick_by key current rest
  end.

(** Newest first. *)
Definition newer_first (x y : RecentActivity) : Prop :=
  ra_modified y <= ra_modified x.

(** The records of a list modified at time [k], in list order. *)
Definition modified_at (k : Z) (l : list RecentActivity)
    : list RecentActivity :=
  filter (fun x => ra_modified x =? k) l.




(** [b] is the first location, in declared order, whose probed activity
    is [t]. *)
Definition first_with_activity (fs : FileSystem)
    (locations : list Location) (t : Z) (b : Location) : Prop :=
  exists before after,
    locations = before ++ b :: after /\
    _check_location_activity fs b = Some t /\
    forall x, In x before -> _check_location_activity fs x <> Some t.

(** What the first loop of [_find_active_location] holds after the
    locations [seen], with the position of the best location. *)
Definition best_first (fs : FileSystem) (seen : list Location)
    (best : option Location * option Z) : Prop :=
  (best = (None, None) /\ no_probed_activity fs seen) \/
  (exists b t,
     best = (Some b, Some t) /\
     first_with_activity fs seen t b /\
     forall l t', In l seen ->
                  _check_location_activity fs l = Some t' -> t' <= t).

(** The scanner as [_scan_location] sets it up for a location: the
    location's own [max_depth] when it has one, the configured one
    otherwise, and the limits of the monitor's scanner. *)
Definition scanner_for (self : BackupMonitor) (l : Location)
    : DirectoryScanner :=
  mkScanner
    (match loc_max_depth l with
     | Some d => d
     | None => cfg_max_depth (config self)
     end)
    (max_dirs (scanner self)) (file_size_limit (scanner self))
    (timeout_seconds (scanner self)).

(** The members a failover group has for tag [g]: the configured
    locations carrying [g], in declared order, when there are at least
    two of them. *)
Definition group_members (g : string) (locations : list Location)
    : option (list Location) :=
  if 1 <? len (filter (in_group g) locations)
  then Some (filter (in_group g) locations)
  else None.

(** What the loop of [_group_failover_locations] holds after the
    locations [seen]: under each tag, the locations seen that carry
    it. *)
Definition groups_exact (seen : list Location)
    (groups : Dict.t (list Location)) : Prop :=
  forall g,
    Dict.get g groups =
    match filter (in_group g) seen with
    | [] => None
    | members => Some members
    end.




(** The key and the value [_scan_with_failover] assigns for a group. *)
Definition group_key (fs : FileSystem) (now : Z)
    (group : string * list Location) : string :=
  match _find_active_location fs now (snd group) with
  | Some active_location => loc_name active_location
  | None => placeholder_name (fst group)
  end.

Definition group_value (fs : FileSystem) (self : BackupMonitor) (now : Z)
    (group : string * list Location) : list DirectoryStats :=
  match _find_active_location fs now (snd group) with
  | Some active_location => scan_or_error fs self active_location
  | None =>
      [error_stats "/unavailable"
         ("No active location found in failover group '"
            ++ fst group ++ "'")%string]
  end.


(* ------------------------------------------------------------------ *)
(** ** utils/formatters.py *)

(** [str(n)] of an integer, as in [f"{n}"]. *)
Definition str_int (n : Z) : string := NilZero.string_of_int (Z.to_int n).

(** [format_file_size]. *)
Definition format_file_size (size_bytes : Z) : string :=
  if size_bytes <? 1024 then (str_int size_bytes ++ "B")%string
  else if size_bytes <? 1024 * 1024 then
    (str_int (size_bytes / 1024) ++ "KB")%string
  else if size_bytes <? 1024 * 1024 * 1024 then
    (str_int (size_bytes / (1024 * 1024)) ++ "MB")%string
  else (str_int (size_bytes / (1024 * 1024 * 1024)) ++ "GB")%string.





(** [s.lstrip('/')]. *)
Fixpoint lstrip_sep (s : string) : string :=
  match s with
  | EmptyString => EmptyString
  | String c rest => if Ascii.eqb c "/"%char then lstrip_sep rest else s
  end.

(** [format_path_relative]. *)
Definition format_path_relative (full_path base_path : string) : string :=
  if Str.startswith full_path base_path then
    let rel_path :=
      lstrip_sep (Str.slice_from (String.length base_path) full_path) in
    if Str.truthy rel_path then rel_path else "."
  else full_path.

(** [get_activity_indicator]; [None] is a missing modification time and
    [now] is [datetime.now()]. *)
Definition get_activity_indicator (now : Z) (modified_time : option Z)
    (use_emoji : bool) : string :=
  match modified_time with
  | None => if use_emoji then "⚪ UNKNOWN" else "- UNK"
  | Some t =>
      let days := days_old now t in
      if use_emoji then
        if days =? 0 then "📍 TODAY"
        else if days =? 1 then "📅 YEST"
        else if days <=? 7 then ("📆 " ++ str_int days ++ "d")%string
        else if days <=? 30 then ("📋 " ++ str_int days ++ "d")%string
        else ("📁 " ++ str_int days ++ "d")%string
      else
        if days =? 0 then "* TODAY"
        else if days =? 1 then "* YEST"
        else if days <=? 7 then ("+ " ++ str_int days ++ "d")%string
        else if days <=? 30 then ("- " ++ str_int days ++ "d")%string
        else ("o " ++ str_int days ++ "d")%string
  end.

(* ------------------------------------------------------------------ *)
(** ** monitor.py, continued *)

(** [BackupMonitor._get_activity_css_class]. *)
Definition _get_activity_css_class (now modified_time : Z) : string :=
  let days_ago := days_old now modified_time in
  if days_ago =? 0 then "activity-today"
  else if days_ago <=? 7 then "activity-recent"
  else "activity-old".

(** [BackupMonitor._get_activity_css_class_for_html]. *)
Definition _get_activity_css_class_for_html (now modified_time : Z)
    : string :=
  let days_ago := days_old now modified_time in
  if days_ago =? 0 then "activity-today"
  else if days_ago =? 1 then "activity-yesterday"
  else if days_ago <=? 7 then "activity-recent"
  else "activity-old".




(** [s.rstrip('/')]. *)
Fixpoint rstrip_sep (s : string) : string :=
  match s with
  | EmptyString => EmptyString
  | String c rest =>
      match rstrip_sep rest with
      | EmptyString =>
          if Ascii.eqb c "/"%char then EmptyString else String c EmptyString
      | r => String c r
      end
  end.

(** [s.split('/')]. *)
Fixpoint split_sep (s : string) : list string :=
  match s with
  | EmptyString => [EmptyString]
  | String c rest =>
      if Ascii.eqb c "/"%char then EmptyString :: split_sep rest
      else match split_sep rest with
           | part :: parts => String c part :: parts
           | [] => [String c EmptyString]
           end
  end.

(** The group name [_group_by_top_level] computes for a path: the last
    non-empty part of the path, or "(root)" when there is none. *)
Definition top_level_of (p : string) : string :=
  let path_parts := filter Str.truthy (split_sep (rstrip_sep p)) in
  if 2 <=? len path_parts then last path_parts EmptyString
  else if len path_parts =? 1 then hd EmptyString path_parts
  else "(root)".

(** The body of the loop of [_group_by_top_level]. *)
Definition add_to_top_level (groups : Dict.t (list DirectoryStats))
    (stats : DirectoryStats) : Dict.t (list DirectoryStats) :=
  if has_error stats then groups
  else
    let top_level := top_level_of (path stats) in
    match Dict.get top_level groups with
    | Some members => Dict.set top_level (members ++ [stats]) groups
    | None => Dict.set top_level [stats] groups
    end.

(** [BackupMonitor._group_by_top_level]. *)
Definition _group_by_top_level (location_stats : list DirectoryStats)
    : Dict.t (list DirectoryStats) :=
  fold_left add_to_top_level location_stats [].

(** The entries without error whose path ends in the part [k]. *)
Definition named (k : string) (stats : DirectoryStats) : bool :=
  negb (has_error stats) && String.eqb (top_level_of (path stats)) k.

(** What the loop of [_group_by_top_level] holds after the entries
    [seen]. *)
Definition top_levels_exact (seen : list DirectoryStats)
    (groups : Dict.t (list DirectoryStats)) : Prop :=
  forall k,
    Dict.get k groups =
    match filter (named k) seen with
    | [] => None
    | members => Some members
    end.


(* ------------------------------------------------------------------ *)
(** ** config/config_validator.py *)

(** A value loaded by [yaml.safe_load]; mapping keys are strings. *)
#[local] Set Warnings "-register-all".
Inductive yaml : Type :=
| YNull
| YBool (b : bool)
| YInt (n : Z)
| YFloat (q : Q)
| YStr (s : string)
| YList (items : list yaml)
| YDict (entries : list (string * yaml)).
#[local] Set Warnings "register-all".

(** Python truthiness of a loaded value. *)
Definition yaml_truthy (v : yaml) : bool :=
  match v with
  | YNull => false
  | YBool b => b
  | YInt n => negb (n =? 0)
  | YFloat q => negb (Qeq_bool q 0)
  | YStr s => Str.truthy s
  | YList items => match items with [] => false | _ => true end
  | YDict entries => match entries with [] => false | _ => true end
  end.

(** The characters of a string, each as a string. *)
Fixpoint chars_of (s : string) : list yaml :=
  match s with
  | EmptyString => []
  | String c rest => YStr (String c EmptyString) :: chars_of rest
  end.

(** What [for x in v] iterates over; [None] when [v] is not iterable. *)
Definition yaml_iter (v : yaml) : option (list yaml) :=
  match v with
  | YList items => Some items
  | YDict entries => Some (map (fun kv => YStr (fst kv)) entries)
  | YStr s => Some (chars_of s)
  | _ => None
  end.

(** The errors of the validator: [ValueError] with the message
    indicated, and the [TypeError] of iterating a value that is not
    iterable. *)
Inductive config_error : Type :=
| NoLocations                      (* "At least one backup location must be configured" *)
| NotADictionary (i : Z)           (* f"Backup location {i} must be a dictionary" *)
| MissingFields (i : Z) (missing_fields : list string)
                                   (* f"Backup location {i} missing required fields: {missing_fields}" *)
| EmptyPath (i : Z)                (* f"Backup location {i} path cannot be empty" *)
| InvalidType (i : Z) (connection_type : yaml)
                                   (* f"Backup location {i} has invalid type: {connection_type}" *)
| NotIterable.                     (* TypeError *)

Inductive outcome : Type :=
| Passes
| Raises (e : config_error).

(** The body of the loop of [_validate_backup_locations]. *)
Definition validate_location (i : Z) (location : yaml) : outcome :=
  match location with
  | YDict entries =>
      let missing_fields :=
        filter (fun field =>
                  match Dict.get field entries with
                  | Some _ => false
                  | None => true
                  end)
               ["name"; "path"] in
      match missing_fields with
      | _ :: _ => Raises (MissingFields i missing_fields)
      | [] =>
          match Dict.get "path" entries with
          | None => Raises (MissingFields i ["path"])  (* not reached *)
          | Some p =>
              if negb (yaml_truthy p) then Raises (EmptyPath i)
              else
                let connection_type :=
                  match Dict.get "type" entries with
                  | Some t => t
                  | None => YStr "local"
                  end in
                match connection_type with
                | YStr "local" => Passes
                | _ => Raises (InvalidType i connection_type)
                end
          end
      end
  | _ => Raises (NotADictionary i)
  end.

Fixpoint validate_from (i : Z) (locations : list yaml) : outcome :=
  match locations with
  | [] => Passes
  | location :: rest =>
      match validate_location i location with
      | Passes => validate_from (i + 1) rest
      | Raises e => Raises e
      end
  end.

(** [ConfigValidator._validate_backup_locations]. *)
Definition _validate_backup_locations (locations : yaml) : outcome :=
  if negb (yaml_truthy locations) then Raises NoLocations
  else
    match yaml_iter locations with
    | Some items => validate_from 0 items
    | None => Raises NotIterable
    end.

(** A location the validator accepts: a mapping with a name, a truthy
    path and no type other than 'local'. *)
Definition valid_location (location : yaml) : Prop :=
  exists entries,
    location = YDict entries /\
    Dict.get "name" entries <> None /\
    (exists p, Dict.get "path" entries = Some p /\ yaml_truthy p = true) /\
    (Dict.get "type" entries = None \/
     Dict.get "type" entries = Some (YStr "local")).

(** The index an error of the validator names. *)
Definition error_index (e : config_error) : option Z :=
  match e with
  | NotADictionary i | MissingFields i _ | EmptyPath i | InvalidType i _ =>
      Some i
  | NoLocations | NotIterable => None
  end.


(* ------------------------------------------------------------------ *)
(** ** config/config_manager.py *)




(** The table [defaults] of [_set_defaults]. *)
Definition defaults : Dict.t (Dict.t yaml) :=
  [("monitoring", [("max_depth", YInt 3);
                   ("days_back", YInt 7);
                   ("max_dirs", YInt 200);
                   ("file_size_limit_mb", YInt 100);
                   ("timeout_seconds", YInt 300)]);
   ("logging", [("level", YStr "INFO");
                ("file", YStr "backup_monitor.log");
                ("max_size_mb", YInt 10);
                ("backup_count", YInt 5)]);
   ("reports", [("format", YStr "both");
                ("save_local", YBool true);
                ("retention_days", YInt 30)])].










(* ------------------------------------------------------------------ *)
(** ** Report retention (monitor.py) *)

(** An entry of the report directory: its name, the [st_mtime] that
    [stat()] returns ([None] when [stat()] raises) and whether
    [unlink()] raises [OSError] for it. *)
Record report_entry : Type := mkEntry {
  re_name : string;
  re_mtime : option Q;
  unlink_fails : bool
}.

(** [fnmatch(name, 'backup_report_*')]. *)
Definition is_report (e : report_entry) : bool :=
  Str.startswith (re_name e) "backup_report_".

(** The loop over [report_dir.glob('backup_report_*')]: the directory
    afterwards, and whether an exception left the loop. *)
Fixpoint cleanup (cutoff_time : Q) (entries : list report_entry)
    : list report_entry * bool :=
  match entries with
  | [] => ([], false)
  | report_file :: rest =>
      if is_report report_file then
        match re_mtime report_file with
        | None => (report_file :: rest, true)
        | Some st_mtime =>
            let (rest', raised) := cleanup cutoff_time rest in
            if negb (Qle_bool cutoff_time st_mtime) then
              if unlink_fails report_file
              then (report_file :: rest', raised)
              else (rest', raised)
            else (report_file :: rest', raised)
        end
      else
        let (rest', raised) := cleanup cutoff_time rest in
        (report_file :: rest', raised)
  end.

(** [BackupMonitor._cleanup_old_reports], with [time.time()] given. *)
Definition _cleanup_old_reports (report_dir : list report_entry)
    (time_now : Q) (retention_days : Z) : list report_entry * bool :=
  let cutoff_time :=
    (time_now - inject_Z (retention_days * 24 * 60 * 60))%Q in
  cleanup cutoff_time report_dir.

(** A report whose modification time is before the cutoff. *)
Definition expired (cutoff_time : Q) (e : report_entry) : bool :=
  is_report e &&
  match re_mtime e with
  | Some st_mtime => negb (Qle_bool cutoff_time st_mtime)
  | None => false
  end.

(** [stat()] succeeds on every report of the directory. *)
Definition reports_statable (report_dir : list report_entry) : Prop :=
  forall e, In e report_dir -> is_report e = true -> re_mtime e <> None.

(* ================================================================== *)
(** * Properties *)

(* ------------------------------------------------------------------ *)
(** ** Strings *)

Lemma prefix_app_iff (p s : string) :
  String.prefix p s = true <-> exists r, s = (p ++ r)%string.
Proof.
  revert s; induction p as [|c p IH]; intros s; simpl.
  - split; [intros _; now exists s | intros _; now destruct s].
  - destruct s as [|c' s]; simpl.
    + split; [discriminate | intros [r Hr]; discriminate].
    + destruct (ascii_dec c c') as [->|Hne].
      * rewrite IH. split; intros [r Hr]; exists r.
        -- now rewrite Hr.
        -- now injection Hr.
      * split; [discriminate | intros [r Hr]; injection Hr; congruence].
Qed.

Lemma startswith_app (s p r : string) :
  Str.startswith s p = true -> Str.startswith (s ++ r) p = true.
Proof.
  unfold Str.startswith. rewrite !prefix_app_iff. intros [x ->].
  exists (x ++ r)%string.
  clear. induction p as [|c p IH]; simpl; [reflexivity | now rewrite IH].
Qed.

Lemma string_app_assoc (a b c : string) :
  ((a ++ b) ++ c = a ++ (b ++ c))%string.
Proof. induction a as [|x a IH]; simpl; [reflexivity | now rewrite IH]. Qed.

Lemma string_app_nil_r (a : string) : (a ++ "")%string = a.
Proof. induction a as [|x a IH]; simpl; [reflexivity | now rewrite IH]. Qed.

Lemma count_sep_app (a b : string) :
  Str.count_sep (a ++ b) = Str.count_sep a + Str.count_sep b.
Proof. induction a as [|x a IH]; simpl; [reflexivity | rewrite IH; lia]. Qed.

Lemma count_sep_nonneg (a : string) : 0 <= Str.count_sep a.
Proof.
  induction a as [|x a IH]; simpl; [lia|].
  destruct (Ascii.eqb x "/"%char); lia.
Qed.

Lemma slice_from_app (a b : string) :
  Str.slice_from (String.length a) (a ++ b) = b.
Proof. induction a as [|x a IH]; simpl; [now destruct b | exact IH]. Qed.

(** A name without separator is appended to the directory it is joined
    to. *)
Lemma os_path_join_extends (a b : string) :
  Str.has_sep b = false -> exists x, os_path_join a b = (a ++ x)%string.
Proof.
  intros Hb. unfold os_path_join.
  assert (Hs : Str.startswith b "/" = false).
  { unfold Str.startswith. destruct b as [|c b]; [reflexivity|].
    cbn [Str.has_sep] in Hb. apply orb_false_iff in Hb as [Hc _].
    cbn [String.prefix].
    destruct (ascii_dec "/"%char c) as [<-|Hne]; [discriminate | reflexivity]. }
  rewrite Hs.
  destruct (negb (Str.truthy a) || Str.endswith_sep a); eauto.
Qed.

(* ------------------------------------------------------------------ *)
(** ** Exclusion *)

Lemma _is_excluded_iff (p : string) (pats : list string) :
  _is_excluded p pats = true <->
  exists pattern, In pattern pats /\ Str.startswith p pattern = true.
Proof.
  induction pats as [|q pats IH]; simpl.
  - split; [discriminate | intros (? & [] & _)].
  - destruct (Str.startswith p q) eqn:Hq.
    + split; [intros _; exists q; auto | reflexivity].
    + rewrite IH. split.
      * intros (x & Hx & Hp). exists x; auto.
      * intros (x & [<-|Hx] & Hp); [congruence | exists x; auto].
Qed.

Lemma _is_excluded_app (p r : string) (pats : list string) :
  _is_excluded p pats = true -> _is_excluded (p ++ r) pats = true.
Proof.
  rewrite !_is_excluded_iff. intros (x & Hx & Hp).
  exists x; split; [assumption | now apply startswith_app].
Qed.

(* ------------------------------------------------------------------ *)
(** ** The bound on the number of reported directories *)

Lemma py_slice_to_length {A : Type} (n : Z) (l : list A) :
  0 <= n -> len (py_slice_to n l) <= n.
Proof.
  intros Hn. unfold py_slice_to, len.
  destruct (0 <=? n) eqn:E; [|lia].
  rewrite length_firstn. lia.
Qed.

Lemma py_slice_to_incl {A : Type} (n : Z) (l : list A) (x : A) :
  In x (py_slice_to n l) -> In x l.
Proof.
  assert (Hf : forall k, In x (firstn k l) -> In x l).
  { intros k Hk. rewrite <- (firstn_skipn k l). apply in_or_app; now left. }
  unfold py_slice_to. destruct (0 <=? n); apply Hf.
Qed.

Lemma scan_loop_length (self : DirectoryScanner) (excl : list string)
    (directories : list (string * node)) :
  forall results processed_count,
    len (scan_loop self excl directories results processed_count)
    <= len results + len directories.
Proof.
  unfold len.
  induction directories as [|[d n] rest IH]; intros results pc; simpl.
  - lia.
  - destruct (max_dirs self <=? pc); [lia|].
    destruct (_analyze_directory d n excl) as [stats|e].
    + specialize (IH (results ++ [stats]) (pc + 1)).
      rewrite length_app in IH; simpl in IH. lia.
    + specialize (IH (results ++ [error_stats d (str e)]) pc).
      rewrite length_app in IH; simpl in IH. lia.
Qed.

(** C5.  A scan with [max_dirs > 0] returns at most [max_dirs] entries:
    the collected directories are cut to [max_dirs] before the analysis
    loop, which adds one entry per directory whether the analysis
    returns statistics, returns an error entry or raises; a root that
    fails altogether gives a single error entry. *)
Theorem scan_directory_at_most_max_dirs (fs : FileSystem)
    (self : DirectoryScanner) (base_path : string) (excl : list string) :
  0 < max_dirs self ->
  len (scan_directory fs self base_path excl) <= max_dirs self.
Proof.
  intros Hm. unfold scan_directory, _scan_local_directory.
  destruct (_get_directories_to_scan fs self base_path excl)
    as [directories|e] eqn:Hd; simpl.
  - pose proof (scan_loop_length self excl directories [] 0) as Hl.
    unfold _get_directories_to_scan in Hd.
    destruct (negb (os_path_exists fs base_path)); [discriminate|].
    destruct (negb (os_path_isdir fs base_path)); [discriminate|].
    injection Hd as <-.
    match type of Hl with
    | context [py_slice_to ?n ?l] =>
        pose proof (py_slice_to_length n l ltac:(lia)) as Hs
    end.
    change (len (@nil DirectoryStats)) with 0 in Hl. lia.
  - unfold len; simpl. lia.
Qed.

(* ------------------------------------------------------------------ *)
(** ** An unavailable root *)

(** C9.  When the root path does not exist or is not a directory, the
    scan returns exactly one entry: its path is the root path, its error
    message is set, its three counters are zero and it has no most
    recent file.  Nothing else is reported for that root. *)
Theorem scan_directory_root_unavailable (fs : FileSystem)
    (self : DirectoryScanner) (base_path : string) (excl : list string) :
  os_path_exists fs base_path = false \/ os_path_isdir fs base_path = false ->
  exists msg,
    Str.truthy msg = true /\
    scan_directory fs self base_path excl =
      [mkDirectoryStats base_path 0 0 0 None true (Some msg)].
Proof.
  intros H. unfold scan_directory, _scan_local_directory,
    _get_directories_to_scan.
  destruct (os_path_exists fs base_path) eqn:He; simpl.
  - destruct H as [H|H]; [discriminate|]. rewrite H; simpl.
    eexists; split; [|reflexivity]. reflexivity.
  - eexists; split; [|reflexivity]. reflexivity.
Qed.

(* ------------------------------------------------------------------ *)
(** ** The directories a scan reports *)

Section Walk.
Variables (self : DirectoryScanner) (base_path : string)
          (excl : list string).

(** Every root the walk lets through is above the depth limit and
    matches no exclusion pattern. *)
Lemma walk_sound (n : node) :
  forall root p m,
    In (p, m) (walk self base_path excl root n) ->
    depth_of base_path p < max_depth self /\ _is_excluded p excl = false.
Proof.
  induction n as [nm st|nm st a e children IH|nm t IH] using node_tree_ind;
    intros root p m Hin; simpl in Hin; try contradiction.
  destruct e; [contradiction|].
  destruct (max_depth self <=? depth_of base_path root) eqn:Hd;
    [contradiction|].
  destruct (_is_excluded root excl) eqn:He; [contradiction|].
  destruct Hin as [Heq|Hin].
  - injection Heq as <- _. split; [lia | assumption].
  - apply in_flat_map in Hin as (c & Hc & Hin).
    rewrite Forall_forall in IH. exact (IH c Hc _ _ _ Hin).
Qed.

Lemma collect_incl (visited : list (string * node)) :
  forall directories x,
    In x (collect self base_path visited directories) ->
    In x visited \/ In x directories.
Proof.
  induction visited as [|[root n] rest IH]; intros directories x Hin;
    simpl in Hin; [now right|].
  destruct (String.eqb root base_path).
  - destruct (max_dirs self * 2 <=? len directories); [now right|].
    destruct (IH _ _ Hin); [left; now right | now right].
  - destruct (max_dirs self * 2 <=? len (directories ++ [(root, n)])).
    + apply in_app_or in Hin as [H|[H|[]]];
        [now right | left; now left].
    + destruct (IH _ _ Hin) as [H|H]; [left; now right|].
      apply in_app_or in H as [H|[H|[]]]; [now right | left; now left].
Qed.
End Walk.

Lemma _analyze_directory_path (p : string) (n : node) (excl : list string)
    (stats : DirectoryStats) :
  _analyze_directory p n excl = Ok stats -> path stats = p.
Proof.
  unfold _analyze_directory. destruct n as [nm st|nm st a e children|nm t].
  - intros [= <-]; reflexivity.
  - destruct (negb a); [intros [= <-]; reflexivity|].
    destruct e; [intros [= <-]; reflexivity|].
    destruct (analyze_entries p excl initial_state children); simpl;
      [intros [= <-]; reflexivity | discriminate].
  - intros [= <-]; reflexivity.
Qed.

Lemma scan_loop_paths (self : DirectoryScanner) (excl : list string)
    (directories : list (string * node)) :
  forall results processed_count s,
    In s (scan_loop self excl directories results processed_count) ->
    In s results \/ In (path s) (map fst directories).
Proof.
  induction directories as [|[d n] rest IH]; intros results pc s Hin;
    simpl in Hin; [now left|].
  destruct (max_dirs self <=? pc); [now left|].
  destruct (_analyze_directory d n excl) as [stats|e] eqn:Ha.
  - destruct (IH _ _ _ Hin) as [H|H]; [|right; now right].
    apply in_app_or in H as [H|[<-|[]]]; [now left|].
    right; left. symmetry. exact (_analyze_directory_path _ _ _ _ Ha).
  - destruct (IH _ _ _ Hin) as [H|H]; [|right; now right].
    apply in_app_or in H as [H|[<-|[]]]; [now left|].
    right; left. reflexivity.
Qed.

(** When the root is a directory, every reported path was let through
    by the walk. *)
Lemma scan_directory_reports_walked (fs : FileSystem)
    (self : DirectoryScanner) (base_path : string) (excl : list string)
    (s : DirectoryStats) :
  os_path_isdir fs base_path = true ->
  In s (scan_directory fs self base_path excl) ->
  depth_of base_path (path s) < max_depth self /\
  _is_excluded (path s) excl = false.
Proof.
  intros Hdir Hin.
  assert (Hex : os_path_exists fs base_path = true).
  { unfold os_path_isdir in Hdir. unfold os_path_exists.
    destruct (fs_lookup fs base_path) as [n|]; [|discriminate].
    destruct (os_stat n); [reflexivity | discriminate]. }
  unfold scan_directory, _scan_local_directory, _get_directories_to_scan in Hin.
  rewrite Hex, Hdir in Hin. simpl in Hin.
  apply scan_loop_paths in Hin as [[]|Hin].
  apply in_map_iff in Hin as ([p m] & Hp & Hin). simpl in Hp. subst p.
  apply py_slice_to_incl in Hin.
  apply collect_incl in Hin as [Hin|[]].
  destruct (root_node fs base_path) as [d|]; [|contradiction].
  exact (walk_sound self base_path excl d _ _ _ Hin).
Qed.

(** Paths below a directory extend its path, when names are valid. *)
Lemma subtree_dirs_extend (n : node) :
  forall q p m,
    valid_names n = true ->
    In (p, m) (subtree_dirs q n) ->
    (exists x, p = (q ++ x)%string) /\ valid_names m = true.
Proof.
  induction n as [nm st|nm st a e children IH|nm t IH] using node_tree_ind;
    intros q p m Hv Hin; simpl in Hin; try contradiction.
  destruct Hin as [Heq|Hin].
  - injection Heq as <- <-. split; [|assumption].
    exists ""%string. now rewrite string_app_nil_r.
  - apply in_flat_map in Hin as (c & Hc & Hin).
    simpl in Hv. rewrite forallb_forall in Hv.
    specialize (Hv c Hc). apply andb_true_iff in Hv as [Hn Hv].
    apply negb_true_iff in Hn.
    rewrite Forall_forall in IH.
    destruct (IH c Hc _ _ _ Hv Hin) as [[x ->] Hm]. split; [|assumption].
    destruct (os_path_join_extends q (node_name c) Hn) as [y ->].
    exists (y ++ x)%string. apply string_app_assoc.
Qed.

Lemma depth_of_extend (base_path y x : string) :
  depth_of base_path (base_path ++ y) <=
  depth_of base_path ((base_path ++ y) ++ x).
Proof.
  unfold depth_of. rewrite string_app_assoc, !slice_from_app, count_sep_app.
  pose proof (count_sep_nonneg x). lia.
Qed.

(** C4.  Let the root be a directory whose tree has valid entry names.
    For every directory [q] of the tree whose depth, the number of
    separators in its path after the root path, is at least [max_depth],
    the scan reports no entry for [q] nor for any directory [p] below
    [q]. *)
Theorem no_stats_at_or_below_max_depth (fs : FileSystem)
    (self : DirectoryScanner) (base_path : string) (excl : list string)
    (d : node) :
  os_path_isdir fs base_path = true ->
  root_node fs base_path = Some d ->
  valid_names d = true ->
  forall q qn p pn,
    In (q, qn) (subtree_dirs base_path d) ->
    max_depth self <= depth_of base_path q ->
    In (p, pn) (subtree_dirs q qn) ->
    ~ In p (map path (scan_directory fs self base_path excl)).
Proof.
  intros Hdir _ Hv q qn p pn Hq Hdepth Hp Hin.
  apply in_map_iff in Hin as (s & <- & Hs).
  destruct (scan_directory_reports_walked _ _ _ _ _ Hdir Hs) as [Hlt _].
  destruct (subtree_dirs_extend d _ _ _ Hv Hq) as [[y ->] Hvq].
  destruct (subtree_dirs_extend qn _ _ _ Hvq Hp) as [[x Hx] _].
  rewrite Hx in Hlt.
  pose proof (depth_of_extend base_path y x). lia.
Qed.

(* ------------------------------------------------------------------ *)
(** ** Exclusion by raw prefix *)

Lemma analyze_entries_counts (p : string) (excl : list string)
    (entries : list node) :
  forall s s',
    analyze_entries p excl s entries = Ok s' ->
    s_file_count s' = s_file_count s + len (counted_sizes p excl entries) /\
    s_total_size s' = s_total_size s + sum_Z (counted_sizes p excl entries).
Proof.
  unfold len.
  induction entries as [|e rest IH]; intros s s' H; simpl in H.
  - injection H as <-. simpl. lia.
  - destruct (analyze_entry p excl s e) as [s1|x] eqn:He; simpl in H;
      [|discriminate].
    specialize (IH _ _ H). destruct IH as [IHc IHs].
    rewrite IHc, IHs. clear IHc IHs H.
    unfold analyze_entry in He.
    destruct e as [nm [st|]|nm [st|] a er ch|nm t]; simpl in He |- *.
    + destruct (_is_excluded (os_path_join p nm) excl).
      * injection He as <-. lia.
      * destruct (fromtimestamp (st_mtime st)) as [t|x].
        -- destruct (newer t (s_most_recent_time s)); injection He as <-;
             simpl; lia.
        -- destruct (caught_by_entry_handler x); [|discriminate].
           injection He as <-. simpl. lia.
    + injection He as <-. lia.
    + destruct (fromtimestamp (st_mtime st)) as [t|x].
      * destruct (newer t (s_most_recent_time s)); injection He as <-;
          simpl; lia.
      * destruct (caught_by_entry_handler x); [|discriminate].
        injection He as <-. simpl. lia.
    + injection He as <-. lia.
    + destruct (os_stat (Symlink nm t)); injection He as <-; lia.
Qed.

(** C7.  (1) A path is excluded exactly when some pattern is a raw
    string prefix of it.  (2) When a directory of the scanned tree is
    excluded, no entry is reported for it nor for any directory below
    it.  (3) An excluded immediate file leaves every counter of the
    directory analysis as it was, and for a directory that is listed
    [file_count] is the number and [total_size] the sum of the sizes of
    its immediate regular files that can be stat'ed and match no
    pattern.  (4) The pattern "/backup/tmp" excludes both "/backup/tmp"
    and "/backup/tmpfile2". *)
Theorem exclusion_is_raw_prefix :
  (forall p pats,
     _is_excluded p pats = true <->
     exists pattern r, In pattern pats /\ p = (pattern ++ r)%string) /\
  (forall fs self base_path excl d,
     os_path_isdir fs base_path = true ->
     root_node fs base_path = Some d ->
     valid_names d = true ->
     forall q qn p pn,
       In (q, qn) (subtree_dirs base_path d) ->
       _is_excluded q excl = true ->
       In (p, pn) (subtree_dirs q qn) ->
       ~ In p (map path (scan_directory fs self base_path excl))) /\
  (forall p excl s fname st,
     _is_excluded (os_path_join p fname) excl = true ->
     analyze_entry p excl s (File fname st) = Ok s) /\
  (forall p nm st children excl stats,
     _analyze_directory p (Dir nm st true None children) excl = Ok stats ->
     file_count stats = len (counted_sizes p excl children) /\
     total_size stats = sum_Z (counted_sizes p excl children)) /\
  (_is_excluded "/backup/tmp" ["/backup/tmp"] = true /\
   _is_excluded "/backup/tmpfile2" ["/backup/tmp"] = true).
Proof.
  split; [|split; [|split; [|split]]].
  - intros p pats. rewrite _is_excluded_iff. unfold Str.startswith.
    split.
    + intros (x & Hx & Hp). apply prefix_app_iff in Hp as [r ->]. eauto.
    + intros (x & r & Hx & ->). exists x. split; [assumption|].
      apply prefix_app_iff. eauto.
  - intros fs self base_path excl d Hdir _ Hv q qn p pn Hq Hex Hp Hin.
    apply in_map_iff in Hin as (s & <- & Hs).
    destruct (scan_directory_reports_walked _ _ _ _ _ Hdir Hs) as [_ Hne].
    destruct (subtree_dirs_extend d _ _ _ Hv Hq) as [_ Hvq].
    destruct (subtree_dirs_extend qn _ _ _ Hvq Hp) as [[x Hx] _].
    rewrite Hx, (_is_excluded_app q x excl Hex) in Hne. discriminate.
  - intros p excl s fname st Hex. unfold analyze_entry. simpl.
    destruct st as [st|]; [|reflexivity]. now rewrite Hex.
  - intros p nm st children excl stats H. unfold _analyze_directory in H.
    simpl in H.
    destruct (analyze_entries p excl initial_state children) as [s|x] eqn:He;
      simpl in H; [|discriminate].
    injection H as <-. simpl.
    apply analyze_entries_counts in He. simpl in He. exact He.
  - split; reflexivity.
Qed.

(* ------------------------------------------------------------------ *)
(** ** The most recent entry *)

Local Ltac step :=
  match goal with
  | IH : forall s s', _ -> analyze_entries _ _ s _ = Ok s' -> _,
    H : analyze_entries _ _ _ _ = Ok _ |- _ =>
      refine (IH _ _ _ H); first [assumption | reflexivity]
  end.

Lemma analyze_entries_pick (p : string) (excl : list string)
    (entries : list node) :
  forall s s',
    s_most_recent_time s = option_map modified_time (s_most_recent_file s) ->
    analyze_entries p excl s entries = Ok s' ->
    s_most_recent_file s' =
      pick (s_most_recent_file s) (recency_candidates p excl entries).
Proof.
  induction entries as [|e rest IH]; intros s s' Hinv H; simpl in H.

  - injection H as <-. reflexivity.
  - destruct (analyze_entry p excl s e) as [s1|x] eqn:He; simpl in H;
      [|discriminate].
    unfold analyze_entry in He.
    destruct e as [nm [[sz ts]|]|nm [[sz ts]|] a er ch|nm t];
      simpl in He |- *.
    + destruct ts as [t|m|m|m]; simpl in He |- *;
        destruct (_is_excluded (os_path_join p nm) excl);
        try (injection He as <-; step); try discriminate.
      simpl. rewrite <- Hinv.
      destruct (newer t (s_most_recent_time s)); injection He as <-;
        step.
    + injection He as <-. step.
    + destruct ts as [t|m|m|m]; simpl in He |- *;
        try (injection He as <-; step); try discriminate.
      simpl. rewrite <- Hinv.
      destruct (newer t (s_most_recent_time s)); injection He as <-;
        step.
    + injection He as <-. step.
    + destruct (os_stat (Symlink nm t)); injection He as <-; step.
Qed.

Lemma pick_some (l : list FileInfo) :
  forall c f,
    pick (Some c) l = Some f ->
    (f = c /\ forall x, In x l -> modified_time x <= modified_time c) \/
    (modified_time c < modified_time f /\ first_latest f l).
Proof.
  induction l as [|y rest IH]; intros c f H; simpl in H.
  - injection H as <-. left. split; [reflexivity | intros x []].
  - destruct (modified_time c <? modified_time y) eqn:E.
    + apply Z.ltb_lt in E.
      destruct (IH _ _ H) as [[-> Hall]|[Hlt (b & a & -> & Hb & Ha)]].
      * right. split; [assumption|]. exists [], rest. simpl.
        split; [reflexivity|]. split; [intros x []| exact Hall].
      * right. split; [lia|]. exists (y :: b), a.
        split; [reflexivity|]. split; [|exact Ha].
        intros x [<-|Hx]; [assumption | now apply Hb].
    + apply Z.ltb_ge in E.
      destruct (IH _ _ H) as [[-> Hall]|[Hlt (b & a & -> & Hb & Ha)]].
      * left. split; [reflexivity|]. intros x [<-|Hx]; [assumption|].
        now apply Hall.
      * right. split; [assumption|]. exists (y :: b), a.
        split; [reflexivity|]. split; [|exact Ha].
        intros x [<-|Hx]; [lia | now apply Hb].
Qed.

Lemma pick_none (l : list FileInfo) :
  match pick None l with
  | None => l = []
  | Some f => first_latest f l
  end.
Proof.
  destruct l as [|y rest]; simpl; [reflexivity|].
  destruct (pick (Some y) rest) as [f|] eqn:H.
  - destruct (pick_some _ _ _ H) as [[-> Hall]|[Hlt (b & a & -> & Hb & Ha)]].
    + exists [], rest. split; [reflexivity|]. split; [intros x []|exact Hall].
    + exists (y :: b), a. split; [reflexivity|]. split; [|exact Ha].
      intros x [<-|Hx]; [assumption | now apply Hb].
  - exfalso. clear -H. revert y H.
    induction rest as [|z rest IH]; intros y H; simpl in H; [discriminate|].
    destruct (modified_time y <? modified_time z); eauto.
Qed.

(** C6.  For a directory that is listed, the most recent entry is
    chosen among the immediate regular files it counts and the immediate
    subdirectories alike: it is the first entry, in listing order, whose
    modification time is the latest (a later entry replaces it only when
    strictly newer), and there is none only when there is no such entry.
    In particular, with one file modified at [T] and one subdirectory
    modified one second later, in either order, the most recent entry is
    the subdirectory, with [is_directory = true] and size 0. *)
Theorem most_recent_entry_over_files_and_subdirectories :
  (forall p nm st children excl stats,
     _analyze_directory p (Dir nm st true None children) excl = Ok stats ->
     match most_recent_file stats with
     | None => recency_candidates p excl children = []
     | Some f => first_latest f (recency_candidates p excl children)
     end) /\
  (forall p nm st excl fname fsize T dname dsize da de dch children,
     let file := File fname (Some (mkStat fsize (Datetime T))) in
     let sub :=
       Dir dname (Some (mkStat dsize (Datetime (T + 1000000)))) da de dch in
     children = [file; sub] \/ children = [sub; file] ->
     exists stats,
       _analyze_directory p (Dir nm st true None children) excl = Ok stats /\
       most_recent_file stats =
         Some (mkFileInfo (os_path_join p dname) dname 0 (T + 1000000) true)).
Proof.
  split.
  - intros p nm st children excl stats H. unfold _analyze_directory in H.
    simpl in H.
    destruct (analyze_entries p excl initial_state children) as [s|x] eqn:He;
      simpl in H; [|discriminate].
    injection H as <-. simpl.
    rewrite (analyze_entries_pick p excl children initial_state s eq_refl He).
    simpl.
    apply pick_none.
  - intros p nm st excl fname fsize T dname dsize da de dch children
      file sub [->| ->]; subst file sub;
      unfold _analyze_directory, analyze_entries, analyze_entry; simpl.
    + destruct (_is_excluded (os_path_join p fname) excl); simpl.
      * eexists; split; reflexivity.
      * assert (E : (T <? T + 1000000) = true) by (apply Z.ltb_lt; lia).
        rewrite E. simpl. eexists; split; reflexivity.
    + destruct (_is_excluded (os_path_join p fname) excl); simpl.
      * eexists; split; reflexivity.
      * assert (E : (T + 1000000 <? T) = false) by (apply Z.ltb_ge; lia).
        rewrite E. simpl. eexists; split; reflexivity.
Qed.

(* ------------------------------------------------------------------ *)
(** ** The analysis counters *)

Lemma analyze_stats_fold (cutoff : Z) (name : string)
    (l : list DirectoryStats) :
  forall c,
    let c' := fold_left (analyze_stats cutoff name) l c in
    c_total_directories c' = c_total_directories c + len l /\
    c_error_directories c' =
      c_error_directories c + len (filter has_error l) /\
    c_empty_directories c' =
      c_empty_directories c + len (filter empty_without_error l).
Proof.
  unfold len.
  induction l as [|s l IH]; intros c; simpl.
  - lia.
  - specialize (IH (analyze_stats cutoff name c s)).
    destruct IH as (IHt & IHe & IHm). simpl in IHt, IHe, IHm.
    rewrite IHt, IHe, IHm. clear IHt IHe IHm.
    unfold analyze_stats, empty_without_error.
    destruct (has_error s); simpl; [lia|].
    destruct (is_empty s);
      destruct (most_recent_file s) as [f|];
      try destruct (cutoff <=? modified_time f); simpl; lia.
Qed.

Lemma analyze_locations_fold (cutoff : Z)
    (scan_results : Dict.t (list DirectoryStats)) :
  forall c,
    let c' :=
      fold_left
        (fun c kv => fold_left (analyze_stats cutoff (fst kv)) (snd kv) c)
        scan_results c in
    c_total_directories c' =
      c_total_directories c + len (all_stats scan_results) /\
    c_error_directories c' =
      c_error_directories c + len (filter has_error (all_stats scan_results)) /\
    c_empty_directories c' =
      c_empty_directories c +
      len (filter empty_without_error (all_stats scan_results)).
Proof.
  unfold len, all_stats.
  induction scan_results as [|[name l] rest IH]; intros c; simpl.
  - lia.
  - specialize (IH (fold_left (analyze_stats cutoff name) l c)).
    destruct IH as (IHt & IHe & IHm). simpl in IHt, IHe, IHm.
    rewrite IHt, IHe, IHm.
    destruct (analyze_stats_fold cutoff name l c) as (Ht & He & Hm).
    simpl in Ht, He, Hm. unfold len in Ht, He, Hm. rewrite Ht, He, Hm.
    rewrite !filter_app, !length_app. lia.
Qed.

Lemma filter_disjoint_length (l : list DirectoryStats) :
  len (filter empty_without_error l) + len (filter has_error l) <= len l.
Proof.
  unfold len, empty_without_error.
  induction l as [|s l IH]; cbn [filter length]; [lia|].
  destruct (has_error s), (is_empty s); cbn [negb andb length]; lia.
Qed.

Lemma percentage_bounds (h t : Z) :
  0 <= h <= t -> 0 < t ->
  (0 <= inject_Z h / inject_Z t * 100 /\
   inject_Z h / inject_Z t * 100 <= 100)%Q.
Proof.
  intros Hh Ht. destruct t as [|pt|pt]; try lia.
  unfold Qle, Qdiv, Qmult, Qinv, inject_Z; cbn [Qnum Qden].
  rewrite ?Pos2Z.inj_mul. nia.
Qed.

(** C10.  Over any scan-results mapping, the empty counter of
    [analyze_results] counts only entries without error tag, and the
    error counter the error-tagged ones; hence
    empty + error <= total, healthy >= 0 and the health percentage lies
    between 0 and 100. *)
Theorem analysis_counters_bounded (self : FileAnalyzer) (now : Z)
    (scan_results : Dict.t (list DirectoryStats)) :
  let a := analyze_results self now scan_results in
  empty_directories a =
    len (filter empty_without_error (all_stats scan_results)) /\
  error_directories a = len (filter has_error (all_stats scan_results)) /\
  total_directories a = len (all_stats scan_results) /\
  empty_directories a + error_directories a <= total_directories a /\
  0 <= healthy_directories a /\
  (0 <= health_percentage a)%Q /\ (health_percentage a <= 100)%Q.
Proof.
  unfold analyze_results.
  set (cutoff := now - timedelta_days (days_back self)).
  destruct (analyze_locations_fold cutoff scan_results
              (mkCounters 0 0 0 0 0 0 [])) as (Ht & He & Hm).
  cbv zeta in Ht, He, Hm.
  set (c := fold_left _ scan_results _) in *.
  simpl in Ht, He, Hm. simpl.
  pose proof (filter_disjoint_length (all_stats scan_results)) as Hd.
  rewrite Ht, He, Hm.
  refine (conj eq_refl (conj eq_refl (conj eq_refl
            (conj _ (conj _ _))))); try lia.
  destruct (0 <? len (all_stats scan_results)) eqn:E.
  - apply Z.ltb_lt in E. apply percentage_bounds; unfold len in *; lia.
  - split; [apply Qle_refl | discriminate].
Qed.

(* ------------------------------------------------------------------ *)
(** ** Issues *)

Section Issues.
Variables (self : FileAnalyzer) (cutoff : Z).

Lemma location_issues_app (issues : list Issue) (name : string)
    (l : list DirectoryStats) :
  location_issues self cutoff issues name l =
  issues ++ location_issues self cutoff [] name l.
Proof.
  unfold location_issues. destruct l as [|s l]; [reflexivity|].
  destruct (0 <? error_count (s :: l));
    destruct (negb (has_recent_activity cutoff (s :: l)));
    destruct (non_error_dirs (s :: l)) as [|d ds];
    try destruct (negb (Qle_bool (empty_percentage (d :: ds)) (1 # 2)));
    cbn [app]; rewrite <- ?app_assoc, ?app_nil_r; reflexivity.
Qed.

Lemma location_issues_location (name : string) (l : list DirectoryStats)
    (i : Issue) :
  In i (location_issues self cutoff [] name l) -> location i = name.
Proof.
  unfold location_issues. destruct l as [|s l].
  - intros [<-|[]]; reflexivity.
  - destruct (0 <? error_count (s :: l));
      destruct (negb (has_recent_activity cutoff (s :: l)));
      destruct (non_error_dirs (s :: l)) as [|d ds];
      try destruct (negb (Qle_bool (empty_percentage (d :: ds)) (1 # 2)));
      cbn [app In]; intros H;
      repeat (destruct H as [<-|H]; [reflexivity|]); contradiction.
Qed.

Lemma issues_fold (scan_results : Dict.t (list DirectoryStats)) :
  forall issues,
    fold_left
      (fun issues kv =>
         location_issues self cutoff issues (fst kv) (snd kv))
      scan_results issues =
    issues ++
    flat_map (fun kv => location_issues self cutoff [] (fst kv) (snd kv))
             scan_results.
Proof.
  induction scan_results as [|[name l] rest IH]; intros issues; simpl.
  - now rewrite app_nil_r.
  - rewrite IH, location_issues_app, app_assoc. reflexivity.
Qed.

Lemma issues_of_other (name other : string) (l : list DirectoryStats) :
  other <> name ->
  issues_of name (location_issues self cutoff [] other l) = [].
Proof.
  intros Hne. unfold issues_of.
  assert (H : forall i, In i (location_issues self cutoff [] other l) ->
                        String.eqb (location i) name = false).
  { intros i Hi. rewrite (location_issues_location _ _ _ Hi).
    now apply String.eqb_neq. }
  induction (location_issues self cutoff [] other l) as [|i others IH];
    [reflexivity|].
  simpl. rewrite (H i (or_introl eq_refl)). apply IH.
  intros j Hj. apply H. now right.
Qed.

Lemma issues_of_same (name : string) (l : list DirectoryStats) :
  issues_of name (location_issues self cutoff [] name l) =
  location_issues self cutoff [] name l.
Proof.
  unfold issues_of.
  assert (H : forall i, In i (location_issues self cutoff [] name l) ->
                        String.eqb (location i) name = true).
  { intros i Hi. rewrite (location_issues_location _ _ _ Hi).
    apply String.eqb_refl. }
  induction (location_issues self cutoff [] name l) as [|i others IH];
    [reflexivity|].
  simpl. rewrite (H i (or_introl eq_refl)). f_equal. apply IH.
  intros j Hj. apply H. now right.
Qed.

(** With distinct keys, the issues of a location are those of its own
    result list. *)
Lemma issues_of_location (scan_results : Dict.t (list DirectoryStats))
    (name : string) (l : list DirectoryStats) :
  NoDup (Dict.keys scan_results) ->
  In (name, l) scan_results ->
  issues_of name
    (flat_map (fun kv => location_issues self cutoff [] (fst kv) (snd kv))
              scan_results) =
  location_issues self cutoff [] name l.
Proof.
  unfold issues_of.
  induction scan_results as [|[k v] rest IH]; intros Hnd Hin;
    [contradiction|].
  simpl in Hnd. inversion Hnd as [|? ? Hk Hrest]; subst.
  simpl. rewrite filter_app.
  destruct Hin as [Heq|Hin].
  - injection Heq as -> ->.
    fold (issues_of name (location_issues self cutoff [] name l)).
    rewrite issues_of_same.
    assert (Hnone :
      filter (fun i => String.eqb (location i) name)
        (flat_map
           (fun kv => location_issues self cutoff [] (fst kv) (snd kv))
           rest) = []).
    { clear IH Hnd Hrest. induction rest as [|[k' v'] rest IH'];
        [reflexivity|].
      simpl. rewrite filter_app.
      fold (issues_of name (location_issues self cutoff [] k' v')).
      rewrite issues_of_other.
      - apply IH'. intros H. apply Hk. now right.
      - intros ->. apply Hk. now left. }
    rewrite Hnone. apply app_nil_r.
  - fold (issues_of name (location_issues self cutoff [] k v)).
    rewrite issues_of_other.
    + now apply IH.
    + intros ->. apply Hk. apply (in_map fst) in Hin. exact Hin.
Qed.
End Issues.

Lemma issues_of_identify (self : FileAnalyzer) (now : Z)
    (scan_results : Dict.t (list DirectoryStats)) (name : string)
    (l : list DirectoryStats) :
  NoDup (Dict.keys scan_results) ->
  In (name, l) scan_results ->
  issues_of name (identify_issues self now scan_results) =
  location_issues self (now - timedelta_days (days_back self * 2)) [] name l.
Proof.
  intros Hnd Hin. unfold identify_issues. rewrite issues_fold. simpl.
  now apply issues_of_location.
Qed.

(** C8.  For a location whose result list is empty, the issues
    [identify_issues] reports for that location are exactly one issue,
    of type [no_data] and severity [high]. *)
Theorem empty_location_raises_only_no_data (self : FileAnalyzer) (now : Z)
    (scan_results : Dict.t (list DirectoryStats)) (name : string) :
  NoDup (Dict.keys scan_results) ->
  In (name, []) scan_results ->
  exists i,
    issues_of name (identify_issues self now scan_results) = [i] /\
    type i = no_data /\ severity i = high /\ location i = name.
Proof.
  intros Hnd Hin. rewrite (issues_of_identify _ _ _ _ _ Hnd Hin).
  eexists. split; [reflexivity|]. repeat split.
Qed.

Lemma raised_iff (self : FileAnalyzer) (now : Z)
    (scan_results : Dict.t (list DirectoryStats)) (name : string)
    (l : list DirectoryStats) (k : issue_type) :
  NoDup (Dict.keys scan_results) ->
  In (name, l) scan_results ->
  (raised self now scan_results name k <->
   exists i,
     In i (location_issues self (now - timedelta_days (days_back self * 2))
                           [] name l) /\
     type i = k).
Proof.
  intros Hnd Hin. rewrite <- (issues_of_identify _ _ _ _ _ Hnd Hin).
  unfold raised, issues_of. split.
  - intros (i & Hi & Ht & Hl). exists i. split; [|assumption].
    apply filter_In. split; [assumption|]. subst name. apply String.eqb_refl.
  - intros (i & Hi & Ht). apply filter_In in Hi as [Hi Hl].
    apply String.eqb_eq in Hl. eauto.
Qed.

Lemma typed_in_cons (x : Issue) (l : list Issue) (k : issue_type) :
  (exists i, In i (x :: l) /\ type i = k) <->
  type x = k \/ exists i, In i l /\ type i = k.
Proof.
  split.
  - intros (i & [<-|Hi] & Ht); [now left | right; eauto].
  - intros [Ht|(i & Hi & Ht)]; [exists x | exists i]; simpl; auto.
Qed.

Lemma typed_in_nil (k : issue_type) :
  (exists i : Issue, In i [] /\ type i = k) <-> False.
Proof. split; [intros (i & [] & _) | contradiction]. Qed.

(** C2, as stated: the stale check is not evaluated for a location with
    an empty result list, although its condition holds there. *)
Lemma all_checks_unconditional_fails : ~ all_checks_unconditional.
Proof.
  intros H.
  assert (Hnd : NoDup (Dict.keys [("A", @nil DirectoryStats)])).
  { repeat constructor. intros []. }
  destruct (H (mkAnalyzer 7) 0 [("A", [])] "A" [] stale_backup Hnd
              (or_introl eq_refl)) as [Hraise _].
  destruct (Hraise eq_refl) as (i & Hi & Ht & _).
  destruct Hi as [<-|[]]. discriminate Ht.
Qed.

(** C2, amended.  For a location with a non-empty result list, each of
    the checks is evaluated whatever the outcome of the others: an
    issue of type [access_errors], [stale_backup] or [many_empty_dirs]
    is reported exactly when that type's own condition holds, and
    [no_data] is not reported.  For a location with an empty result
    list, [no_data] is the only issue reported and the remaining checks
    are skipped. *)
Theorem checks_unconditional_unless_no_data (self : FileAnalyzer) (now : Z)
    (scan_results : Dict.t (list DirectoryStats)) (name : string)
    (location_stats : list DirectoryStats) :
  NoDup (Dict.keys scan_results) ->
  In (name, location_stats) scan_results ->
  (location_stats <> [] ->
   forall k, check_holds self now k location_stats = true <->
             raised self now scan_results name k) /\
  (location_stats = [] ->
   forall k, raised self now scan_results name k <-> k = no_data).
Proof.
  intros Hnd Hin. split.
  - intros Hne k. rewrite (raised_iff _ _ _ _ _ k Hnd Hin).
    destruct location_stats as [|s l]; [congruence|].
    unfold location_issues, check_holds.
    destruct (0 <? error_count (s :: l));
      destruct (negb (has_recent_activity
                        (now - timedelta_days (days_back self * 2)) (s :: l)));
      destruct (non_error_dirs (s :: l)) as [|d ds];
      try destruct (negb (Qle_bool (empty_percentage (d :: ds)) (1 # 2)));
      cbn [app]; rewrite ?typed_in_cons, typed_in_nil; cbn [type];
      destruct k; intuition congruence.
  - intros -> k. rewrite (raised_iff _ _ _ _ _ k Hnd Hin).
    unfold location_issues. cbn [app].
    rewrite typed_in_cons, typed_in_nil. cbn [type].
    intuition congruence.
Qed.

(* ------------------------------------------------------------------ *)
(** ** Failover selection *)

Section Selection.
Variable fs : FileSystem.

Lemma consider_best_of (seen : list Location)
    (best : option Location * option Z) (l : Location) :
  best_of fs seen best -> best_of fs (seen ++ [l]) (consider fs best l).
Proof.
  unfold consider.
  intros [[-> Hnone]|(b & t & -> & (b0 & Hb0 & Hpb) & Hmax)];
    destruct (_check_location_activity fs l) as [a|] eqn:Hl; simpl.
  - right. exists l, a. split; [reflexivity|]. split.
    + exists l. split; [apply in_or_app; right; now left | assumption].
    + intros x t' Hx Hpx. apply in_app_or in Hx as [Hx|[<-|[]]].
      * rewrite (Hnone x Hx) in Hpx. discriminate.
      * rewrite Hl in Hpx. injection Hpx as <-. lia.
  - left. split; [reflexivity|].
    intros x Hx. apply in_app_or in Hx as [Hx|[<-|[]]]; auto.
  - destruct (t <? a) eqn:E.
    + apply Z.ltb_lt in E. right. exists l, a. split; [reflexivity|]. split.
      * exists l. split; [apply in_or_app; right; now left | assumption].
      * intros x t' Hx Hpx. apply in_app_or in Hx as [Hx|[<-|[]]].
        -- specialize (Hmax x t' Hx Hpx). lia.
        -- rewrite Hl in Hpx. injection Hpx as <-. lia.
    + apply Z.ltb_ge in E. right. exists b, t. split; [reflexivity|]. split.
      * exists b0. split; [apply in_or_app; now left | assumption].
      * intros x t' Hx Hpx. apply in_app_or in Hx as [Hx|[<-|[]]].
        -- exact (Hmax x t' Hx Hpx).
        -- rewrite Hl in Hpx. injection Hpx as <-. lia.
  - right. exists b, t. split; [reflexivity|]. split.
    + exists b0. split; [apply in_or_app; now left | assumption].
    + intros x t' Hx Hpx. apply in_app_or in Hx as [Hx|[<-|[]]].
      * exact (Hmax x t' Hx Hpx).
      * rewrite Hl in Hpx. discriminate.
Qed.

Lemma fold_consider_best_of (locations : list Location) :
  forall seen best,
    best_of fs seen best ->
    best_of fs (seen ++ locations) (fold_left (consider fs) locations best).
Proof.
  induction locations as [|l rest IH]; intros seen best H; simpl.
  - now rewrite app_nil_r.
  - replace (seen ++ l :: rest) with ((seen ++ [l]) ++ rest)
      by (rewrite <- app_assoc; reflexivity).
    apply IH. now apply consider_best_of.
Qed.

(** The first loop ends with the latest probed activity of the group,
    or with nothing when no candidate has any. *)
Lemma best_candidate_latest (locations : list Location) :
  best_of fs locations (best_candidate fs locations).
Proof.
  apply (fold_consider_best_of locations [] (None, None)).
  left. split; [reflexivity | intros l []].
Qed.

Lemma find_first_accessible (locations : list Location) :
  first_accessible fs locations
    (find (_is_location_accessible fs) locations).
Proof.
  induction locations as [|l rest IH]; simpl.
  - intros x [].
  - unfold _is_location_accessible at 1.
    destruct (os_path_exists fs (loc_path l)) eqn:He;
      destruct (os_path_isdir fs (loc_path l)) eqn:Hd; simpl;
      try (destruct (find (_is_location_accessible fs) rest) as [r|];
           simpl in IH |- *;
           [ destruct IH as (b & a & -> & H1 & H2 & H3);
             exists (l :: b), a;
             split; [reflexivity|]; split; [assumption|];
             split; [assumption|];
             intros x [<-|Hx]; auto
           | intros x [<-|Hx]; auto ]).
    exists [], rest. split; [reflexivity|]. split; [assumption|].
    split; [assumption | intros x []].
Qed.
End Selection.

(** C3, as stated: an activity 7 days and 12 hours old is older than 7
    days, yet the replica that shows it is selected although another
    accessible replica is declared first. *)
Lemma fallback_when_older_than_7_days_fails :
  ~ fallback_when_older_than_7_days.
Proof.
  intros H.
  specialize (H Sample.replicas_7_5 Sample.now [Sample.A; Sample.B]).
  assert (Hsel : _find_active_location Sample.replicas_7_5 Sample.now
                   [Sample.A; Sample.B] = Some Sample.B)
    by (vm_compute; reflexivity).
  rewrite Hsel in H.
  assert (Hpre :
    no_probed_activity Sample.replicas_7_5 [Sample.A; Sample.B] \/
    (exists t, latest_probed_activity Sample.replicas_7_5
                 [Sample.A; Sample.B] t /\
               timedelta_days 7 < Sample.now - t)).
  { right. exists (Sample.now - 7 * day - day / 2). split.
    - split.
      + exists Sample.B. split; [right; now left | vm_compute; reflexivity].
      + intros l t' [<-|[<-|[]]] Hp; vm_compute in Hp; injection Hp as <-;
          vm_compute; discriminate.
    - vm_compute; reflexivity. }
  destruct (H Hpre) as (before & after & Hsplit & _ & _ & Hbefore).
  destruct before as [|x before]; [discriminate Hsplit|].
  injection Hsplit as <- Hrest.
  destruct (Hbefore Sample.A (or_introl eq_refl)) as [Hx|Hx];
    vm_compute in Hx; discriminate Hx.
Qed.

(** C3, amended.  When no candidate of a failover group has any probed
    activity, or the latest probed activity is more than 7 whole days
    old, that is [(now - activity).days > 7], the selector ignores
    recency and chooses the first candidate in declared order that
    exists and is a directory.  In particular, for candidates A and B
    declared in that order, probed 10 and 12 days ago, with A an
    existing directory, A is selected. *)
Theorem fallback_selects_first_accessible :
  (forall fs now locations,
     no_probed_activity fs locations \/
     (exists t, latest_probed_activity fs locations t /\
                7 < days_old now t) ->
     _find_active_location fs now locations =
       find (_is_location_accessible fs) locations /\
     first_accessible fs locations (_find_active_location fs now locations)) /\
  (forall fs now A B,
     _check_location_activity fs A = Some (now - timedelta_days 10) ->
     _check_location_activity fs B = Some (now - timedelta_days 12) ->
     _is_location_accessible fs A = true ->
     _find_active_location fs now [A; B] = Some A).
Proof.
  assert (Hgen : forall fs now locations,
     no_probed_activity fs locations \/
     (exists t, latest_probed_activity fs locations t /\
                7 < days_old now t) ->
     _find_active_location fs now locations =
       find (_is_location_accessible fs) locations).
  { intros fs now locations H. unfold _find_active_location.
    destruct (best_candidate_latest fs locations)
      as [[-> _]|(b & t & -> & (b0 & Hb0 & Hpb) & Hmax)]; [reflexivity|].
    destruct H as [Hnone|(t0 & ((b1 & Hb1 & Hpb1) & Hmax0) & Hold)].
    - rewrite (Hnone b0 Hb0) in Hpb. discriminate.
    - assert (t = t0).
      { pose proof (Hmax _ _ Hb1 Hpb1). pose proof (Hmax0 _ _ Hb0 Hpb). lia. }
      subst t0.
      destruct (days_old now t <=? 7) eqn:E; [|reflexivity].
      apply Z.leb_le in E. lia. }
  split.
  - intros fs now locations H. split; [now apply Hgen|].
    rewrite (Hgen _ _ _ H). apply find_first_accessible.
  - intros fs now A B HA HB Hacc.
    rewrite Hgen; [simpl; now rewrite Hacc|].
    right. exists (now - timedelta_days 10). split.
    + split.
      * exists A. split; [now left | assumption].
      * intros l t' [<-|[<-|[]]] Hp.
        -- rewrite Hp in HA. injection HA as ->.
           unfold timedelta_days, day. lia.
        -- rewrite Hp in HB. injection HB as ->.
           unfold timedelta_days, day. lia.
    + unfold days_old, timedelta_days.
      assert (E : now - (now - 10 * day) = 10 * day) by lia.
      rewrite E, Z.div_mul; [lia | discriminate].
Qed.

(* ------------------------------------------------------------------ *)
(** ** A location alone in its failover group *)

Section DictFacts.
Context {V : Type}.

Lemma dict_keys_set (k k' : string) (v : V) (d : Dict.t V) :
  In k (Dict.keys (Dict.set k' v d)) -> k = k' \/ In k (Dict.keys d).
Proof.
  induction d as [|[k0 v0] rest IH]; simpl.
  - intros [<-|[]]. now left.
  - destruct (String.eqb k' k0) eqn:E; simpl.
    + apply String.eqb_eq in E. subst k0. intros [<-|H]; auto.
    + intros [<-|H]; [auto|]. destruct (IH H); auto.
Qed.

Lemma dict_in_set (kv : string * V) (k : string) (v : V) (d : Dict.t V) :
  In kv (Dict.set k v d) -> kv = (k, v) \/ In kv d.
Proof.
  induction d as [|[k0 v0] rest IH]; simpl.
  - intros [<-|[]]. now left.
  - destruct (String.eqb k k0); simpl.
    + intros [<-|H]; auto.
    + intros [<-|H]; [auto|]. destruct (IH H); auto.
Qed.

Lemma dict_get_in (k : string) (v : V) (d : Dict.t V) :
  Dict.get k d = Some v -> In (k, v) d.
Proof.
  induction d as [|[k0 v0] rest IH]; simpl; [discriminate|].
  destruct (String.eqb k k0) eqn:E.
  - apply String.eqb_eq in E. subst k0. intros [= <-]. now left.
  - intros H. right. now apply IH.
Qed.

Lemma dict_get_none (k : string) (d : Dict.t V) :
  ~ In k (Dict.keys d) -> Dict.get k d = None.
Proof.
  induction d as [|[k0 v0] rest IH]; simpl; [reflexivity|].
  intros H. destruct (String.eqb k k0) eqn:E.
  - apply String.eqb_eq in E. subst k0. exfalso. apply H. now left.
  - apply IH. intros Hin. apply H. now right.
Qed.

(** The keys after a loop of assignments are the former keys and the
    keys assigned. *)
Lemma dict_keys_fold {X : Type} (kf : X -> string) (vf : X -> V)
    (xs : list X) :
  forall (d : Dict.t V) k,
    In k (Dict.keys
            (fold_left (fun acc x => Dict.set (kf x) (vf x) acc) xs d)) ->
    In k (Dict.keys d) \/ exists x, In x xs /\ k = kf x.
Proof.
  induction xs as [|x xs IH]; intros d k H; simpl in H; [now left|].
  destruct (IH _ _ H) as [Hk|(y & Hy & ->)].
  - apply dict_keys_set in Hk as [->|Hk]; [right; exists x | left]; simpl; auto.
  - right. exists y. simpl; auto.
Qed.
End DictFacts.

Section Grouping.
Variable fs : FileSystem.

Lemma add_to_group_sound (seen : list Location)
    (groups : Dict.t (list Location)) (l : Location) :
  groups_sound seen groups ->
  groups_sound (seen ++ [l]) (add_to_group groups l).
Proof.
  intros Hs.
  assert (Hold : forall g members,
            In (g, members) groups ->
            (forall m, In m members ->
                       In m (seen ++ [l]) /\ in_group g m = true) /\
            len members <= len (filter (in_group g) (seen ++ [l]))).
  { intros g members Hin. destruct (Hs g members Hin) as [Hm Hl]. split.
    - intros m Hmm. destruct (Hm m Hmm). split; [|assumption].
      apply in_or_app. now left.
    - rewrite filter_app. unfold len in *. rewrite length_app. lia. }
  unfold add_to_group.
  destruct (failover_group l) as [g|] eqn:Hg; [|exact Hold].
  destruct (Str.truthy g) eqn:Ht; [|exact Hold].
  assert (Hl : in_group g l = true).
  { unfold in_group. now rewrite Hg, Ht, String.eqb_refl. }
  assert (Hf : len (filter (in_group g) (seen ++ [l])) =
               len (filter (in_group g) seen) + 1).
  { rewrite filter_app. unfold len. rewrite length_app. simpl.
    rewrite Hl. simpl. lia. }
  destruct (Dict.get g groups) as [members|] eqn:Hget;
    intros g' members' Hin; apply dict_in_set in Hin as [Heq|Hin];
    try (now apply Hold).
  - injection Heq as -> ->. apply dict_get_in in Hget.
    destruct (Hs g members Hget) as [Hm Hlen]. split.
    + intros m Hmm. apply in_app_or in Hmm as [Hmm|[<-|[]]].
      * destruct (Hm m Hmm). split; [apply in_or_app; now left | assumption].
      * split; [apply in_or_app; right; now left | assumption].
    + rewrite Hf. unfold len in *. rewrite length_app. simpl. lia.
  - injection Heq as -> ->. split.
    + intros m [<-|[]].
      split; [apply in_or_app; right; now left | assumption].
    + rewrite Hf. unfold len. simpl.
      pose proof (Nat2Z.is_nonneg (length (filter (in_group g) seen))). lia.
Qed.

Lemma fold_add_to_group_sound (locations : list Location) :
  forall seen groups,
    groups_sound seen groups ->
    groups_sound (seen ++ locations) (fold_left add_to_group locations groups).
Proof.
  induction locations as [|l rest IH]; intros seen groups H; simpl.
  - now rewrite app_nil_r.
  - replace (seen ++ l :: rest) with ((seen ++ [l]) ++ rest)
      by (rewrite <- app_assoc; reflexivity).
    apply IH. now apply add_to_group_sound.
Qed.

(** A failover group has more than one member, all of them configured
    locations carrying its tag, and no more than there are. *)
Lemma _group_failover_locations_sound (locations : list Location)
    (g : string) (members : list Location) :
  In (g, members) (_group_failover_locations locations) ->
  1 < len members /\
  (forall m, In m members -> In m locations /\ in_group g m = true) /\
  len members <= len (filter (in_group g) locations).
Proof.
  unfold _group_failover_locations. intros H.
  apply filter_In in H as [Hin Hlen]. simpl in Hlen.
  apply Z.ltb_lt in Hlen. split; [assumption|].
  apply (fold_add_to_group_sound locations [] []); [|assumption].
  intros g' ms [].
Qed.

Lemma fold_consider_in (all locations : list Location) :
  forall best,
    (forall b, fst best = Some b -> In b all) ->
    incl locations all ->
    forall b, fst (fold_left (consider fs) locations best) = Some b ->
              In b all.
Proof.
  induction locations as [|l rest IH]; intros best Hb Hincl b H;
    simpl in H; [now apply Hb|].
  apply (IH (consider fs best l)); [| |assumption].
  - intros b0. unfold consider.
    destruct (_check_location_activity fs l) as [a|]; [|apply Hb].
    destruct (newer a (snd best)); [|apply Hb].
    simpl. intros [= <-]. apply Hincl. now left.
  - intros x Hx. apply Hincl. now right.
Qed.

(** The selected location is one of the candidates. *)
Lemma _find_active_location_in (now : Z) (locations : list Location)
    (a : Location) :
  _find_active_location fs now locations = Some a -> In a locations.
Proof.
  unfold _find_active_location. intros H.
  assert (Hfind : find (_is_location_accessible fs) locations = Some a ->
                  In a locations)
    by (intros Hf; now apply find_some in Hf).
  destruct (best_candidate fs locations) as [[b|] [t|]] eqn:Hb; auto.
  destruct (days_old now t <=? 7); auto.
  injection H as <-.
  apply (fold_consider_in locations locations (None, None)).
  - intros b0; discriminate.
  - apply incl_refl.
  - unfold best_candidate in Hb. now rewrite Hb.
Qed.

(** The keys of the failover results are names of group members or
    placeholder names. *)
Lemma _scan_with_failover_keys (self : BackupMonitor) (now : Z)
    (groups : Dict.t (list Location)) :
  forall results k,
    In k (Dict.keys (fold_left (scan_group fs self now) groups results)) ->
    In k (Dict.keys results) \/
    exists g members,
      In (g, members) groups /\
      ((exists m, In m members /\ k = loc_name m) \/ k = placeholder_name g).
Proof.
  induction groups as [|[g members] rest IH]; intros results k H;
    simpl in H; [now left|].
  destruct (IH _ _ H) as [Hk|(g' & ms & Hin & Hor)].
  - unfold scan_group in Hk.
    destruct (_find_active_location fs now members) as [a|] eqn:Ha;
      apply dict_keys_set in Hk as [->|Hk]; try (now left);
      right; exists g, members; (split; [now left|]).
    + left. exists a. split; [|reflexivity].
      exact (_find_active_location_in _ _ _ Ha).
    + right. reflexivity.
  - right. exists g', ms. split; [now right | assumption].
Qed.
End Grouping.

(** C1, on the code.  Let a configured location carry a non-empty
    failover-group tag that no other location shares, under a name that
    no other location has and that is not the placeholder name of a
    group.  Then the result of [scan_all_locations] has no entry under
    that location's name: the location is dropped from the failover
    groups for being alone and from the standalone locations for being
    tagged. *)
Theorem lone_tagged_location_is_not_scanned (fs : FileSystem)
    (cfg : MonitoringConfig) (now : Z) (locations : list Location)
    (l : Location) (g : string) :
  failover_group l = Some g ->
  Str.truthy g = true ->
  filter (in_group g) locations = [l] ->
  (forall l', In l' locations -> loc_name l' = loc_name l -> l' = l) ->
  (forall g', loc_name l <> placeholder_name g') ->
  Dict.get (loc_name l)
    (scan_all_locations fs (_initialize_components cfg locations) now) = None.
Proof.
  intros Hg Ht Hlone Hname Hph. apply dict_get_none. intros Hk.
  assert (Htag : tagged l = true) by (unfold tagged; now rewrite Hg).
  assert (Hstandalone :
    ~ In (loc_name l)
         (Dict.keys
            (fold_left
               (fun results x =>
                  Dict.set (loc_name x)
                    (scan_or_error fs (_initialize_components cfg locations) x)
                    results)
               (filter (fun x => negb (tagged x)) locations) []))).
  { intros H. apply dict_keys_fold in H as [[]|(x & Hx & Hn)].
    apply filter_In in Hx as [Hx Hneg].
    rewrite (Hname x Hx (eq_sym Hn)), Htag in Hneg. discriminate. }
  unfold scan_all_locations in Hk. simpl in Hk.
  destruct (_group_failover_locations locations) as [|grp rest] eqn:Hgroups;
    [contradiction|].
  rewrite <- Hgroups in Hk. unfold Dict.update, _scan_with_failover in Hk.
  apply dict_keys_fold in Hk as [Hk|(kv & Hkv & Hkey)]; [contradiction|].
  apply (in_map fst) in Hkv. rewrite <- Hkey in Hkv.
  apply _scan_with_failover_keys in Hkv
    as [[]|(g' & members & Hin & [(m & Hm & Hn)|Hp])].
  - destruct (_group_failover_locations_sound _ _ _ Hin)
      as (Hlen & Hmem & Hle).
    destruct (Hmem m Hm) as [Hml Hmg].
    rewrite (Hname m Hml (eq_sym Hn)) in Hmg.
    unfold in_group in Hmg. rewrite Hg, Ht in Hmg. simpl in Hmg.
    apply String.eqb_eq in Hmg. subst g'.
    rewrite Hlone in Hle. unfold len in *. simpl in Hle. lia.
  - exact (Hph g' Hp).
Qed.

Lemma lone_tagged_location_is_not_scanned_witness :
  failover_group Sample.archive = Some "g" /\
  filter (in_group "g") [Sample.archive] = [Sample.archive] /\
  Dict.get "Archive"
    (scan_all_locations Sample.backup_fs Sample.lone_monitor Sample.now) =
    None /\
  scan_all_locations Sample.backup_fs Sample.lone_monitor Sample.now = [] /\
  scan_or_error Sample.backup_fs Sample.lone_monitor Sample.archive =
    [Sample.stats_a; Sample.stats_b; Sample.stats_tmpfile2].
Proof.
  split; [reflexivity|]. split; [reflexivity|]. split; [|split].
  - apply (lone_tagged_location_is_not_scanned Sample.backup_fs
             Sample.defaults Sample.now [Sample.archive] Sample.archive "g");
      try reflexivity.
    + intros l' [<-|[]] _. reflexivity.
    + intros g' H. discriminate H.
  - reflexivity.
  - vm_compute. reflexivity.
Defined.

(* ------------------------------------------------------------------ *)
(** ** The statements at sample inputs *)

Lemma checks_unconditional_unless_no_data_witness :
  let results := [("A", [Sample.stats_b; error_stats "/a/c" "denied"]);
                  ("B", [])] in
  NoDup (Dict.keys results) /\
  In ("A", [Sample.stats_b; error_stats "/a/c" "denied"]) results /\
  (forall k,
     check_holds (mkAnalyzer 7) Sample.now k
       [Sample.stats_b; error_stats "/a/c" "denied"] = true <->
     raised (mkAnalyzer 7) Sample.now results "A" k).
Proof.
  intros results.
  assert (Hnd : NoDup (Dict.keys results)).
  { repeat constructor; simpl; intuition discriminate. }
  assert (Hin : In ("A", [Sample.stats_b; error_stats "/a/c" "denied"])
                   results) by (left; reflexivity).
  split; [exact Hnd|]. split; [exact Hin|].
  apply (proj1 (checks_unconditional_unless_no_data (mkAnalyzer 7) Sample.now
                  results "A" _ Hnd Hin)).
  discriminate.
Defined.

Lemma fallback_selects_first_accessible_witness :
  _check_location_activity Sample.replicas_10_12 Sample.A =
    Some (Sample.now - timedelta_days 10) /\
  _check_location_activity Sample.replicas_10_12 Sample.B =
    Some (Sample.now - timedelta_days 12) /\
  _is_location_accessible Sample.replicas_10_12 Sample.A = true /\
  _find_active_location Sample.replicas_10_12 Sample.now
    [Sample.A; Sample.B] = Some Sample.A.
Proof.
  split; [reflexivity|]. split; [reflexivity|]. split; [reflexivity|].
  apply (proj2 fallback_selects_first_accessible); reflexivity.
Defined.

Lemma no_stats_at_or_below_max_depth_witness :
  os_path_isdir Sample.backup_fs "/backup" = true /\
  root_node Sample.backup_fs "/backup" = Some Sample.backup_tree /\
  valid_names Sample.backup_tree = true /\
  In ("/backup/a/b", Sample.dir "b" 4 [])
     (subtree_dirs "/backup" Sample.backup_tree) /\
  max_depth Sample.scanner_depth_2 <= depth_of "/backup" "/backup/a/b" /\
  ~ In "/backup/a/b"
       (map path (scan_directory Sample.backup_fs Sample.scanner_depth_2
                                 "/backup" [])).
Proof.
  assert (Hq : In ("/backup/a/b", Sample.dir "b" 4 [])
                  (subtree_dirs "/backup" Sample.backup_tree)).
  { right; right; left. reflexivity. }
  split; [reflexivity|]. split; [reflexivity|]. split; [reflexivity|].
  split; [exact Hq|]. split; [discriminate|].
  apply (no_stats_at_or_below_max_depth Sample.backup_fs
           Sample.scanner_depth_2 "/backup" [] Sample.backup_tree
           eq_refl eq_refl eq_refl
           "/backup/a/b" (Sample.dir "b" 4 [])
           "/backup/a/b" (Sample.dir "b" 4 []) Hq).
  - discriminate.
  - left. reflexivity.
Defined.

Lemma scan_directory_at_most_max_dirs_witness :
  0 < max_dirs (mkScanner 3 2 0 0) /\
  len (scan_directory Sample.backup_fs (mkScanner 3 2 0 0) "/backup" [])
  <= max_dirs (mkScanner 3 2 0 0).
Proof.
  split; [reflexivity|].
  apply (scan_directory_at_most_max_dirs Sample.backup_fs (mkScanner 3 2 0 0)
           "/backup" []).
  reflexivity.
Defined.

Lemma most_recent_entry_over_files_and_subdirectories_witness :
  _analyze_directory "/backup/a"
    (Sample.dir "a" 5 [Sample.file "x" 7 3; Sample.dir "b" 4 []]) [] =
    Ok Sample.stats_a /\
  first_latest (mkFileInfo "/backup/a/b" "b" 0 4 true)
    (recency_candidates "/backup/a" []
       [Sample.file "x" 7 3; Sample.dir "b" 4 []]).
Proof.
  split; [reflexivity|].
  apply (proj1 most_recent_entry_over_files_and_subdirectories "/backup/a"
           "a" (Some (mkStat 4096 (Datetime 5)))
           [Sample.file "x" 7 3; Sample.dir "b" 4 []] [] Sample.stats_a).
  reflexivity.
Defined.

Lemma exclusion_is_raw_prefix_witness :
  os_path_isdir Sample.backup_fs "/backup" = true /\
  root_node Sample.backup_fs "/backup" = Some Sample.backup_tree /\
  valid_names Sample.backup_tree = true /\
  In ("/backup/tmpfile2", Sample.dir "tmpfile2" 6 [])
     (subtree_dirs "/backup" Sample.backup_tree) /\
  _is_excluded "/backup/tmpfile2" ["/backup/tmp"] = true /\
  ~ In "/backup/tmpfile2"
       (map path (scan_directory Sample.backup_fs
                    (mkScanner 3 200 0 0) "/backup" ["/backup/tmp"])).
Proof.
  assert (Hq : In ("/backup/tmpfile2", Sample.dir "tmpfile2" 6 [])
                  (subtree_dirs "/backup" Sample.backup_tree)).
  { right; right; right; left. reflexivity. }
  split; [reflexivity|]. split; [reflexivity|]. split; [reflexivity|].
  split; [exact Hq|]. split; [reflexivity|].
  apply (proj1 (proj2 exclusion_is_raw_prefix) Sample.backup_fs
           (mkScanner 3 200 0 0) "/backup" ["/backup/tmp"]
           Sample.backup_tree eq_refl eq_refl eq_refl
           "/backup/tmpfile2" (Sample.dir "tmpfile2" 6 [])
           "/backup/tmpfile2" (Sample.dir "tmpfile2" 6 []) Hq).
  - reflexivity.
  - left. reflexivity.
Defined.

Lemma empty_location_raises_only_no_data_witness :
  NoDup (Dict.keys [("A", [Sample.stats_a]); ("B", [])]) /\
  In ("B", []) [("A", [Sample.stats_a]); ("B", [])] /\
  exists i,
    issues_of "B"
      (identify_issues (mkAnalyzer 7) Sample.now
         [("A", [Sample.stats_a]); ("B", [])]) = [i] /\
    type i = no_data /\ severity i = high /\ location i = "B".
Proof.
  assert (Hnd : NoDup (Dict.keys [("A", [Sample.stats_a]);
                                  ("B", @nil DirectoryStats)])).
  { repeat constructor; simpl; intuition discriminate. }
  split; [exact Hnd|]. split; [right; left; reflexivity|].
  apply (empty_location_raises_only_no_data (mkAnalyzer 7) Sample.now
           [("A", [Sample.stats_a]); ("B", [])] "B" Hnd).
  right; left; reflexivity.
Defined.

Lemma scan_directory_root_unavailable_witness :
  (os_path_exists Sample.backup_fs "/missing" = false \/
   os_path_isdir Sample.backup_fs "/missing" = false) /\
  exists msg,
    Str.truthy msg = true /\
    scan_directory Sample.backup_fs Sample.scanner_depth_2 "/missing" [] =
      [mkDirectoryStats "/missing" 0 0 0 None true (Some msg)].
Proof.
  split; [left; reflexivity|].
  apply (scan_directory_root_unavailable Sample.backup_fs
           Sample.scanner_depth_2 "/missing" []).
  left. reflexivity.
Defined.

(** With depth 2 only the first level below /backup is reported; with
    the pattern "/backup/tmp" the directory [tmpfile2] is left out. *)
Example scan_sample_depth_2 :
  map path (scan_directory Sample.backup_fs Sample.scanner_depth_2
                           "/backup" []) =
    ["/backup/a"; "/backup/tmpfile2"] /\
  map path (scan_directory Sample.backup_fs (mkScanner 3 200 0 0)
                           "/backup" ["/backup/tmp"]) =
    ["/backup/a"; "/backup/a/b"].
Proof. split; reflexivity. Qed.

(** Ten directories, two of them empty and one error-tagged: the health
    percentage is 70. *)
Example health_percentage_sample :
  let healthy := repeat Sample.stats_a 7 in
  let empty := repeat Sample.stats_b 2 in
  let a := analyze_results (mkAnalyzer 7) Sample.now
             [("A", healthy ++ empty ++ [error_stats "/a/e" "denied"])] in
  total_directories a = 10 /\ empty_directories a = 2 /\
  error_directories a = 1 /\ healthy_directories a = 7 /\
  (health_percentage a == 70)%Q.
Proof. vm_compute. repeat split; congruence. Qed.

(** Six empty directories out of ten raise [many_empty_dirs]; five out
    of ten do not. *)
Example many_empty_dirs_sample :
  check_holds (mkAnalyzer 7) Sample.now many_empty_dirs
    (repeat Sample.stats_b 6 ++ repeat Sample.stats_a 4) = true /\
  check_holds (mkAnalyzer 7) Sample.now many_empty_dirs
    (repeat Sample.stats_b 5 ++ repeat Sample.stats_a 5) = false.
Proof. split; reflexivity. Qed.

(** The replica with activity 2 days old is selected over the one with
    activity 10 days old. *)
Example fresh_replica_selected :
  let fs := Sample.fs_of
              [("/a", Sample.dir "a" 0
                        [Sample.file "dump" 10 (Sample.now - 2 * day)]);
               ("/b", Sample.dir "b" 0
                        [Sample.file "dump" 10 (Sample.now - 10 * day)])] in
  _find_active_location fs Sample.now [Sample.B; Sample.A] = Some Sample.A.
Proof. reflexivity. Qed.

(* ================================================================== *)
(** * Further properties of the scanner *)

Lemma collect_firstn (self : DirectoryScanner) (base_path : string)
    (visited : list (string * node)) :
  0 < max_dirs self ->
  forall directories,
    len directories < max_dirs self * 2 ->
    collect self base_path visited directories =
    firstn (Z.to_nat (max_dirs self * 2))
           (directories ++ below_root base_path visited).
Proof.
  intros Hm. unfold len.
  induction visited as [|[root n] rest IH]; intros directories Hlen; simpl.
  - rewrite app_nil_r, firstn_all2; [reflexivity | lia].
  - destruct (String.eqb root base_path) eqn:E; simpl.
    + destruct (max_dirs self * 2 <=? len directories) eqn:Hb;
        [apply Z.leb_le in Hb; unfold len in Hb; lia|].
      now apply IH.
    + destruct (max_dirs self * 2 <=? len (directories ++ [(root, n)]))
        eqn:Hb; unfold len in Hb; rewrite length_app in Hb; simpl in Hb.
      * apply Z.leb_le in Hb.
        replace (directories ++ (root, n) :: below_root base_path rest)
          with ((directories ++ [(root, n)]) ++ below_root base_path rest)
          by (rewrite <- app_assoc; reflexivity).
        rewrite firstn_app.
        replace (Z.to_nat (max_dirs self * 2) -
                 length (directories ++ [(root, n)]))%nat with 0%nat
          by (rewrite length_app; simpl; lia).
        rewrite firstn_all2 by (rewrite length_app; simpl; lia).
        simpl. now rewrite app_nil_r.
      * apply Z.leb_gt in Hb.
        rewrite IH by (rewrite length_app; simpl; lia).
        now rewrite <- app_assoc.
Qed.

Lemma scan_loop_all (self : DirectoryScanner) (excl : list string)
    (directories : list (string * node)) :
  forall results processed_count,
    processed_count + len directories <= max_dirs self ->
    map path (scan_loop self excl directories results processed_count) =
    map path results ++ map fst directories.
Proof.
  unfold len.
  induction directories as [|[d n] rest IH]; intros results pc Hle; simpl.
  - now rewrite app_nil_r.
  - simpl in Hle.
    destruct (max_dirs self <=? pc) eqn:Hb; [apply Z.leb_le in Hb; lia|].
    destruct (_analyze_directory d n excl) as [stats|e] eqn:Ha.
    + rewrite IH by lia. rewrite map_app, <- app_assoc. simpl.
      now rewrite (_analyze_directory_path _ _ _ _ Ha).
    + rewrite IH by lia. rewrite map_app, <- app_assoc. reflexivity.
Qed.

Lemma os_path_isdir_exists (fs : FileSystem) (p : string) :
  os_path_isdir fs p = true -> os_path_exists fs p = true.
Proof.
  unfold os_path_isdir, os_path_exists.
  destruct (fs_lookup fs p) as [n|]; [|discriminate].
  destruct (os_stat n); [reflexivity | discriminate].
Qed.

(** The directories handed to the analysis loop when the root is a
    directory. *)
Lemma _get_directories_to_scan_isdir (fs : FileSystem)
    (self : DirectoryScanner) (base_path : string) (excl : list string)
    (d : node) :
  os_path_isdir fs base_path = true ->
  root_node fs base_path = Some d ->
  _get_directories_to_scan fs self base_path excl =
  Ok (py_slice_to (max_dirs self)
        (collect self base_path (walk self base_path excl base_path d) [])).
Proof.
  intros Hdir Hroot. unfold _get_directories_to_scan.
  rewrite (os_path_isdir_exists _ _ Hdir), Hdir, Hroot. reflexivity.
Qed.

(** X1.  For a root that is a directory and [max_dirs > 0], the paths
    of the returned entries are the first [max_dirs] directories of the
    pruned top-down walk, the root left out, in walk order: one entry
    per directory, none twice, truncation cuts the tail. *)
Theorem scan_directory_reports_walk_prefix (fs : FileSystem)
    (self : DirectoryScanner) (base_path : string) (excl : list string)
    (d : node) :
  os_path_isdir fs base_path = true ->
  root_node fs base_path = Some d ->
  0 < max_dirs self ->
  map path (scan_directory fs self base_path excl) =
  firstn (Z.to_nat (max_dirs self))
         (map fst (below_root base_path
                     (walk self base_path excl base_path d))).
Proof.
  intros Hdir Hroot Hm. unfold scan_directory, _scan_local_directory.
  rewrite (_get_directories_to_scan_isdir _ _ _ _ _ Hdir Hroot). simpl.
  rewrite collect_firstn by (unfold len; simpl; lia). simpl.
  unfold py_slice_to.
  destruct (0 <=? max_dirs self) eqn:E; [|apply Z.leb_gt in E; lia].
  rewrite firstn_firstn.
  replace (Nat.min (Z.to_nat (max_dirs self))
                   (Z.to_nat (max_dirs self * 2)))
    with (Z.to_nat (max_dirs self)) by lia.
  rewrite scan_loop_all.
  - simpl. now rewrite firstn_map.
  - unfold len. rewrite length_firstn. lia.
Qed.

Lemma scan_directory_reports_walk_prefix_witness :
  os_path_isdir Sample.backup_fs "/backup" = true /\
  root_node Sample.backup_fs "/backup" = Some Sample.backup_tree /\
  0 < max_dirs (mkScanner 3 2 0 0) /\
  map path (scan_directory Sample.backup_fs (mkScanner 3 2 0 0)
                           "/backup" []) =
    ["/backup/a"; "/backup/a/b"].
Proof.
  split; [reflexivity|]. split; [reflexivity|]. split; [reflexivity|].
  rewrite (scan_directory_reports_walk_prefix Sample.backup_fs
             (mkScanner 3 2 0 0) "/backup" [] Sample.backup_tree
             eq_refl eq_refl eq_refl).
  reflexivity.
Defined.

Lemma collect_below_root (self : DirectoryScanner) (base_path : string)
    (visited : list (string * node)) :
  forall directories x,
    In x (collect self base_path visited directories) ->
    In x directories \/ In x (below_root base_path visited).
Proof.
  induction visited as [|[root n] rest IH]; intros directories x Hin;
    simpl in Hin; [now left|].
  unfold below_root; simpl.
  destruct (String.eqb root base_path) eqn:E; simpl.
  - destruct (max_dirs self * 2 <=? len directories); [now left|].
    exact (IH _ _ Hin).
  - destruct (max_dirs self * 2 <=? len (directories ++ [(root, n)])).
    + apply in_app_or in Hin as [H|[H|[]]]; [now left | right; now left].
    + destruct (IH _ _ Hin) as [H|H]; [|right; now right].
      apply in_app_or in H as [H|[H|[]]]; [now left | right; now left].
Qed.

(** X2.  The root of a scan is never among its own results: when the
    root is a directory, no returned entry has the root path, whatever
    the limits, the patterns and the tree. *)
Theorem scan_directory_never_reports_root (fs : FileSystem)
    (self : DirectoryScanner) (base_path : string) (excl : list string)
    (s : DirectoryStats) :
  os_path_isdir fs base_path = true ->
  In s (scan_directory fs self base_path excl) ->
  path s <> base_path.
Proof.
  intros Hdir Hin Heq.
  unfold scan_directory, _scan_local_directory, _get_directories_to_scan in Hin.
  rewrite (os_path_isdir_exists _ _ Hdir), Hdir in Hin. simpl in Hin.
  apply scan_loop_paths in Hin as [[]|Hin].
  apply in_map_iff in Hin as ([p m] & Hp & Hin). simpl in Hp.
  apply py_slice_to_incl in Hin.
  apply collect_below_root in Hin as [[]|Hin].
  destruct (root_node fs base_path) as [d|]; [|contradiction].
  apply filter_In in Hin as [_ Hne]. simpl in Hne.
  apply negb_true_iff, String.eqb_neq in Hne. congruence.
Qed.

Lemma scan_directory_never_reports_root_witness :
  os_path_isdir Sample.backup_fs "/backup" = true /\
  In Sample.stats_a
     (scan_directory Sample.backup_fs Sample.scanner_depth_2 "/backup" []) /\
  path Sample.stats_a <> "/backup".
Proof.
  assert (Hin : In Sample.stats_a
                  (scan_directory Sample.backup_fs Sample.scanner_depth_2
                                  "/backup" []))
    by (left; reflexivity).
  split; [reflexivity|]. split; [exact Hin|].
  exact (scan_directory_never_reports_root Sample.backup_fs
           Sample.scanner_depth_2 "/backup" [] Sample.stats_a eq_refl Hin).
Defined.

Lemma analyze_entries_subdirs (p : string) (excl : list string)
    (entries : list node) :
  forall s s',
    analyze_entries p excl s entries = Ok s' ->
    s_subdirectory_count s' =
    s_subdirectory_count s + len (statable_subdirs entries).
Proof.
  unfold len, statable_subdirs.
  induction entries as [|e rest IH]; intros s s' H; simpl in H.
  - injection H as <-. simpl. lia.
  - destruct (analyze_entry p excl s e) as [s1|x] eqn:He; simpl in H;
      [|discriminate].
    rewrite (IH _ _ H). clear IH H.
    unfold analyze_entry in He.
    destruct e as [nm [st|]|nm [st|] a er ch|nm t];
      cbn [filter length]; simpl in He.
    + destruct (_is_excluded (os_path_join p nm) excl).
      * injection He as <-. lia.
      * destruct (fromtimestamp (st_mtime st)) as [t|x].
        -- destruct (newer t (s_most_recent_time s)); injection He as <-;
             simpl; lia.
        -- destruct (caught_by_entry_handler x); [|discriminate].
           injection He as <-. simpl. lia.
    + injection He as <-. lia.
    + destruct (fromtimestamp (st_mtime st)) as [t|x].
      * destruct (newer t (s_most_recent_time s)); injection He as <-;
          cbn [s_subdirectory_count]; lia.
      * destruct (caught_by_entry_handler x); [|discriminate].
        injection He as <-. cbn [s_subdirectory_count]. lia.
    + injection He as <-. lia.
    + destruct (os_stat (Symlink nm t)); injection He as <-; lia.
Qed.






(** X4.  Exclusion patterns never lower [subdirectory_count]: for a
    directory that is listed, it is the number of immediate
    subdirectories that can be stat'ed, whatever the patterns, so an
    excluded subdirectory is counted by its parent although it is never
    reported itself. *)
Theorem subdirectory_count_ignores_exclusion (p nm : string)
    (st : option stat_result) (children : list node) (excl : list string)
    (stats : DirectoryStats) :
  _analyze_directory p (Dir nm st true None children) excl = Ok stats ->
  subdirectory_count stats = len (statable_subdirs children).
Proof.
  unfold _analyze_directory. simpl.
  destruct (analyze_entries p excl initial_state children) as [s|x] eqn:He;
    simpl; [|discriminate].
  intros [= <-]. simpl.
  now rewrite (analyze_entries_subdirs _ _ _ _ _ He).
Qed.

Lemma subdirectory_count_ignores_exclusion_witness :
  _analyze_directory "/backup" Sample.backup_tree ["/backup/tmp"] =
    Ok (mkDirectoryStats "/backup" 0 2 0
          (Some (mkFileInfo "/backup/tmpfile2" "tmpfile2" 0 6 true))
          true None) /\
  2 = len (statable_subdirs
             [Sample.dir "a" 5 [Sample.file "x" 7 3; Sample.dir "b" 4 []];
              Sample.dir "tmpfile2" 6 []]).
Proof.
  split; [reflexivity|].
  exact (subdirectory_count_ignores_exclusion "/backup" "backup"
           (Some (mkStat 4096 (Datetime 0)))
           [Sample.dir "a" 5 [Sample.file "x" 7 3; Sample.dir "b" 4 []];
            Sample.dir "tmpfile2" 6 []]
           ["/backup/tmp"]
           (mkDirectoryStats "/backup" 0 2 0
              (Some (mkFileInfo "/backup/tmpfile2" "tmpfile2" 0 6 true))
              true None)
           eq_refl).
Defined.

Lemma depth_of_self (base_path : string) : depth_of base_path base_path = 0.
Proof.
  unfold depth_of.
  rewrite <- (string_app_nil_r base_path) at 2.
  now rewrite slice_from_app.
Qed.

(** X5.  A root that is a directory yields an empty result, without
    any error entry, when [max_depth] is not positive, when a pattern is
    a prefix of the root path itself, or when the root cannot be
    listed. *)
Theorem scan_directory_silently_empty (fs : FileSystem)
    (self : DirectoryScanner) (base_path : string) (excl : list string)
    (d : node) :
  os_path_isdir fs base_path = true ->
  root_node fs base_path = Some d ->
  max_depth self <= 0 \/
  _is_excluded base_path excl = true \/
  (exists nm st a msg children, d = Dir nm st a (Some msg) children) ->
  scan_directory fs self base_path excl = [].
Proof.
  intros Hdir Hroot H. unfold scan_directory, _scan_local_directory.
  rewrite (_get_directories_to_scan_isdir _ _ _ _ _ Hdir Hroot). simpl.
  assert (Hw : walk self base_path excl base_path d = []).
  { destruct H as [Hd|[He|(nm & st & a & msg & ch & ->)]];
      [| |reflexivity];
      destruct d as [? ?|? ? ? [?|] ?|? ?]; simpl; try reflexivity;
      rewrite depth_of_self.
    - destruct (max_depth self <=? 0) eqn:E; [reflexivity|].
      apply Z.leb_gt in E. lia.
    - destruct (max_depth self <=? 0); [reflexivity | now rewrite He]. }
  rewrite Hw. simpl. unfold py_slice_to.
  destruct (0 <=? max_dirs self); rewrite firstn_nil; reflexivity.
Qed.

Lemma scan_directory_silently_empty_witness :
  let locked := Dir "vault" (Some (mkStat 4096 (Datetime 0))) true
                    (Some "[Errno 13] Permission denied: '/vault'")
                    [Sample.dir "a" 1 []] in
  let fs := Sample.fs_of [("/vault", locked)] in
  os_path_isdir fs "/vault" = true /\
  root_node fs "/vault" = Some locked /\
  scan_directory fs Sample.scanner_depth_2 "/vault" [] = [].
Proof.
  intros locked fs.
  split; [reflexivity|]. split; [reflexivity|].
  apply (scan_directory_silently_empty fs Sample.scanner_depth_2 "/vault" []
           locked eq_refl eq_refl).
  right; right. unfold locked. repeat eexists.
Defined.

(* ================================================================== *)
(** * Further properties of the analyzer *)

Lemma sum_Z_app (a b : list Z) : sum_Z (a ++ b) = sum_Z a + sum_Z b.
Proof. induction a as [|x a IH]; simpl; [reflexivity | rewrite IH; lia]. Qed.

Lemma sum_Z_cons (x : Z) (l : list Z) : sum_Z (x :: l) = x + sum_Z l.
Proof. reflexivity. Qed.

(** What the inner loop of [analyze_results] adds to each counter. *)
Lemma analyze_stats_fold_all (cutoff : Z) (name : string)
    (l : list DirectoryStats) :
  forall c,
    let c' := fold_left (analyze_stats cutoff name) l c in
    c_total_files c' =
      c_total_files c + sum_Z (map file_count (non_error_dirs l)) /\
    c_total_size c' =
      c_total_size c + sum_Z (map total_size (non_error_dirs l)) /\
    c_recent_files c' = c_recent_files c + len (filter (is_recent cutoff) l) /\
    c_recent_activity c' =
      c_recent_activity c ++
      flat_map (recent_record name) (filter (is_recent cutoff) l).
Proof.
  unfold len, non_error_dirs.
  induction l as [|s l IH]; intros c; cbn [fold_left].
  - cbn. rewrite app_nil_r. repeat split; lia.
  - specialize (IH (analyze_stats cutoff name c s)).
    destruct IH as (IHf & IHs & IHr & IHa). cbv zeta in IHf, IHs, IHr, IHa.
    cbv zeta. rewrite IHf, IHs, IHr, IHa. clear IHf IHs IHr IHa.
    unfold analyze_stats, is_recent, recent_record.
    cbn [filter].
    destruct (has_error s);
      cbn [negb andb map c_total_files c_total_size
           c_recent_files c_recent_activity]; rewrite ?sum_Z_cons;
      [split; [lia|]; split; [lia|]; split; [lia | reflexivity]|].
    destruct (most_recent_file s) as [f|] eqn:Hf.
    + destruct (cutoff <=? modified_time f);
        destruct (is_empty s);
        cbn [c_total_files c_total_size c_recent_files c_recent_activity
             length flat_map app];
        rewrite ?Hf, <- ?app_assoc; cbn [app];
        (split; [lia|]; split; [lia|]; split; [lia | reflexivity]).
    + destruct (is_empty s);
        cbn [c_total_files c_total_size c_recent_files c_recent_activity];
        (split; [lia|]; split; [lia|]; split; [lia | reflexivity]).
Qed.

Lemma analyze_locations_fold_all (cutoff : Z)
    (scan_results : Dict.t (list DirectoryStats)) :
  forall c,
    let c' :=
      fold_left
        (fun c kv => fold_left (analyze_stats cutoff (fst kv)) (snd kv) c)
        scan_results c in
    c_total_files c' =
      c_total_files c +
      sum_Z (map (fun kv => sum_Z (map file_count (non_error_dirs (snd kv))))
                 scan_results) /\
    c_total_size c' =
      c_total_size c +
      sum_Z (map (fun kv => sum_Z (map total_size (non_error_dirs (snd kv))))
                 scan_results) /\
    c_recent_files c' =
      c_recent_files c +
      sum_Z (map (fun kv => len (filter (is_recent cutoff) (snd kv)))
                 scan_results) /\
    c_recent_activity c' =
      c_recent_activity c ++ recent_records cutoff scan_results.
Proof.
  unfold recent_records.
  induction scan_results as [|[name l] rest IH]; intros c;
    cbn [fold_left map flat_map fst snd].
  - cbn. rewrite app_nil_r. repeat split; lia.
  - specialize (IH (fold_left (analyze_stats cutoff name) l c)).
    destruct IH as (IHf & IHs & IHr & IHa). cbv zeta in IHf, IHs, IHr, IHa.
    cbv zeta. rewrite IHf, IHs, IHr, IHa.
    destruct (analyze_stats_fold_all cutoff name l c) as (Hf & Hs & Hr & Ha).
    cbv zeta in Hf, Hs, Hr, Ha. rewrite Hf, Hs, Hr, Ha.
    rewrite <- app_assoc, !sum_Z_cons.
    split; [lia|]. split; [lia|]. split; [lia | reflexivity].
Qed.

(** What the loop of [get_location_summary] counts as recent. *)
Lemma summarize_stats_recent (cutoff : Z) (l : list DirectoryStats) :
  forall st,
    fst (fst (fold_left (summarize_stats cutoff) l st)) =
    fst (fst st) + len (filter (is_recent cutoff) l).
Proof.
  unfold len.
  induction l as [|s l IH]; intros [[r a] t]; simpl; [lia|].
  rewrite IH. unfold summarize_stats, is_recent.
  destruct (has_error s); cbn [negb andb fst length]; [lia|].
  destruct (most_recent_file s) as [f|]; cbn [fst length]; [|lia].
  destruct (cutoff <=? modified_time f);
    destruct (newer (modified_time f) t); cbn [fst length]; lia.
Qed.

Lemma get_location_summary_fields (self : FileAnalyzer) (now : Z)
    (l : list DirectoryStats) :
  let sm := get_location_summary self now l in
  sm_directories sm = len l /\
  sm_files sm = sum_Z (map file_count (non_error_dirs l)) /\
  sm_total_size sm = sum_Z (map total_size (non_error_dirs l)) /\
  sm_empty_directories sm = len (filter empty_without_error l) /\
  sm_error_directories sm = len (filter has_error l) /\
  sm_recent_files sm =
    len (filter (is_recent (now - timedelta_days (days_back self))) l).
Proof.
  destruct l as [|s l]; [repeat split|].
  unfold get_location_summary.
  set (cutoff := now - timedelta_days (days_back self)).
  pose proof (summarize_stats_recent cutoff (s :: l) (0, None, None)) as Hr.
  destruct (fold_left (summarize_stats cutoff) (s :: l) (0, None, None))
    as [[r a] t].
  cbn [fst] in Hr. cbv zeta. cbn [sm_directories sm_files sm_total_size
    sm_empty_directories sm_error_directories sm_recent_files].
  repeat split; try lia.
  f_equal. apply filter_ext. intros x.
  unfold empty_without_error. apply andb_comm.
Qed.

(** X6.  The totals of [analyze_results] are the sums, over the
    locations of the mapping, of the fields of [get_location_summary]:
    directories, files, size, empty, error and recent counts agree
    between the overall analysis and the per-location summaries. *)
Theorem analysis_totals_are_sums_of_summaries (self : FileAnalyzer)
    (now : Z) (scan_results : Dict.t (list DirectoryStats)) :
  let a := analyze_results self now scan_results in
  let total := fun field => sum_over_locations self now field scan_results in
  total_directories a = total sm_directories /\
  total_files a = total sm_files /\
  a_total_size a = total sm_total_size /\
  empty_directories a = total sm_empty_directories /\
  error_directories a = total sm_error_directories /\
  recent_files a = total sm_recent_files.
Proof.
  cbv zeta. unfold analyze_results, sum_over_locations.
  set (cutoff := now - timedelta_days (days_back self)).
  destruct (analyze_locations_fold cutoff scan_results
              (mkCounters 0 0 0 0 0 0 [])) as (Ht & He & Hm).
  destruct (analyze_locations_fold_all cutoff scan_results
              (mkCounters 0 0 0 0 0 0 [])) as (Hf & Hs & Hr & _).
  cbv zeta in Ht, He, Hm, Hf, Hs, Hr.
  set (c := fold_left _ scan_results _) in *.
  cbn [total_directories total_files a_total_size empty_directories
       error_directories recent_files].
  rewrite Ht, He, Hm, Hf, Hs, Hr.
  cbn [c_total_directories c_total_files c_total_size c_empty_directories
       c_error_directories c_recent_files].
  assert (Hflat : forall (P : DirectoryStats -> bool),
            len (filter P (all_stats scan_results)) =
            sum_Z (map (fun kv => len (filter P (snd kv))) scan_results)).
  { intros P. unfold all_stats, len. clear.
    induction scan_results as [|[k v] rest IH]; simpl; [reflexivity|].
    rewrite filter_app, length_app, Nat2Z.inj_add, IH. reflexivity. }
  assert (Hall : len (all_stats scan_results) =
                 sum_Z (map (fun kv => len (snd kv)) scan_results)).
  { unfold all_stats, len. clear.
    induction scan_results as [|[k v] rest IH]; simpl; [reflexivity|].
    rewrite length_app, Nat2Z.inj_add, IH. reflexivity. }
  rewrite Hall, !Hflat.
  repeat split; rewrite ?Z.add_0_l; f_equal; apply map_ext; intros kv;
    destruct (get_location_summary_fields self now (snd kv))
      as (H1 & H2 & H3 & H4 & H5 & H6); symmetry; assumption.
Qed.

Lemma insert_recent_perm (x : RecentActivity) (l : list RecentActivity) :
  Permutation (x :: l) (insert_recent x l).
Proof.
  induction l as [|y rest IH]; simpl; [apply Permutation_refl|].
  destruct (ra_modified x <? ra_modified y); [|apply Permutation_refl].
  apply perm_trans with (y :: x :: rest); [apply perm_swap|].
  now apply perm_skip.
Qed.

Lemma sort_recent_perm (l : list RecentActivity) :
  Permutation l (sort_recent l).
Proof.
  induction l as [|x l IH]; simpl; [apply perm_nil|].
  apply perm_trans with (x :: sort_recent l); [now apply perm_skip|].
  apply insert_recent_perm.
Qed.

Lemma insert_recent_sorted (x : RecentActivity) (l : list RecentActivity) :
  StronglySorted newer_first l ->
  StronglySorted newer_first (insert_recent x l).
Proof.
  induction 1 as [|y rest Hs IH Hall]; simpl.
  - repeat constructor.
  - destruct (ra_modified x <? ra_modified y) eqn:E.
    + apply Z.ltb_lt in E. constructor; [assumption|].
      apply Forall_forall. intros z Hz.
      apply (Permutation_in _ (Permutation_sym (insert_recent_perm x rest)))
        in Hz.
      destruct Hz as [<-|Hz]; [unfold newer_first; lia|].
      rewrite Forall_forall in Hall. now apply Hall.
    + apply Z.ltb_ge in E. constructor; [now constructor|].
      constructor; [exact E|].
      rewrite Forall_forall in Hall |- *. intros z Hz.
      specialize (Hall z Hz). unfold newer_first in *. lia.
Qed.

Lemma sort_recent_sorted (l : list RecentActivity) :
  StronglySorted newer_first (sort_recent l).
Proof.
  induction l as [|x l IH]; simpl; [constructor|].
  now apply insert_recent_sorted.
Qed.

Lemma insert_recent_stable (k : Z) (x : RecentActivity)
    (l : list RecentActivity) :
  modified_at k (insert_recent x l) = modified_at k (x :: l).
Proof.
  unfold modified_at.
  induction l as [|y rest IH]; [reflexivity|].
  cbn [insert_recent].
  destruct (ra_modified x <? ra_modified y) eqn:E; [|reflexivity].
  apply Z.ltb_lt in E. cbn [filter] in *. rewrite IH.
  destruct (ra_modified x =? k) eqn:Ex; [|reflexivity].
  apply Z.eqb_eq in Ex.
  destruct (ra_modified y =? k) eqn:Ey; [|reflexivity].
  apply Z.eqb_eq in Ey. lia.
Qed.

Lemma sort_recent_stable (k : Z) (l : list RecentActivity) :
  modified_at k (sort_recent l) = modified_at k l.
Proof.
  induction l as [|x l IH]; [reflexivity|].
  cbn [sort_recent fold_right]. rewrite insert_recent_stable.
  unfold modified_at in *. cbn [filter].
  fold (sort_recent l). now rewrite IH.
Qed.

Lemma recent_record_length (cutoff : Z) (name : string)
    (l : list DirectoryStats) :
  len (flat_map (recent_record name) (filter (is_recent cutoff) l)) =
  len (filter (is_recent cutoff) l).
Proof.
  unfold len. f_equal.
  induction l as [|s l IH]; [reflexivity|].
  cbn [filter]. destruct (is_recent cutoff s) eqn:E; [|exact IH].
  cbn [flat_map]. rewrite length_app, IH.
  unfold is_recent in E. unfold recent_record.
  destruct (most_recent_file s);
    [reflexivity | rewrite andb_false_r in E; discriminate].
Qed.

Lemma recent_records_at_or_after_cutoff (cutoff : Z)
    (scan_results : Dict.t (list DirectoryStats)) (x : RecentActivity) :
  In x (recent_records cutoff scan_results) -> cutoff <= ra_modified x.
Proof.
  unfold recent_records. intros H.
  apply in_flat_map in H as ([name l] & _ & H).
  apply in_flat_map in H as (s & Hs & H).
  apply filter_In in Hs as [_ Hr]. unfold is_recent in Hr.
  unfold recent_record in H.
  destruct (most_recent_file s) as [f|]; [|contradiction].
  destruct H as [<-|[]]. simpl.
  apply andb_true_iff in Hr as [_ Hr]. now apply Z.leb_le.
Qed.

(** X7.  The recent-activity list of [analyze_results] holds exactly
    the records of the entries with recent activity, one per entry, so
    [recent_files] is its length; it is sorted newest first; records
    with equal modification time keep the order of the mapping; and no
    record is older than the cutoff [now - days_back]. *)
Theorem recent_activity_sorted_newest_first (self : FileAnalyzer) (now : Z)
    (scan_results : Dict.t (list DirectoryStats)) :
  let a := analyze_results self now scan_results in
  let cutoff := now - timedelta_days (days_back self) in
  Permutation (recent_records cutoff scan_results) (recent_activity a) /\
  StronglySorted newer_first (recent_activity a) /\
  (forall k, modified_at k (recent_activity a) =
             modified_at k (recent_records cutoff scan_results)) /\
  len (recent_activity a) = recent_files a /\
  (forall x, In x (recent_activity a) -> cutoff <= ra_modified x).
Proof.
  cbv zeta. unfold analyze_results.
  set (cutoff := now - timedelta_days (days_back self)).
  destruct (analyze_locations_fold_all cutoff scan_results
              (mkCounters 0 0 0 0 0 0 [])) as (_ & _ & Hr & Ha).
  cbv zeta in Hr, Ha.
  set (c := fold_left _ scan_results _) in *.
  cbn [recent_activity recent_files]. cbn [c_recent_activity app] in Ha.
  cbn [c_recent_files] in Hr. rewrite Ha, Hr.
  split; [apply sort_recent_perm|].
  split; [apply sort_recent_sorted|].
  split; [intros k; apply sort_recent_stable|].
  split.
  - unfold len at 1.
    rewrite <- (Permutation_length (sort_recent_perm _)).
    unfold recent_records. clear.
    induction scan_results as [|[name l] rest IH]; [reflexivity|].
    cbn [flat_map map fst snd]. rewrite length_app, Nat2Z.inj_add, sum_Z_cons.
    pose proof (recent_record_length cutoff name l) as Hl.
    unfold len in Hl, IH |- *. rewrite Hl. lia.
  - intros x Hx.
    apply (Permutation_in _ (Permutation_sym (sort_recent_perm _))) in Hx.
    exact (recent_records_at_or_after_cutoff _ _ _ Hx).
Qed.

Section PickBy.
Context {A : Type} (key : A -> Z).

Lemma pick_by_some (l : list A) :
  forall c f,
    pick_by key (Some c) l = Some f ->
    (f = c /\ forall x, In x l -> key x <= key c) \/
    (key c < key f /\
     exists before after,
       l = before ++ f :: after /\
       (forall x, In x before -> key x < key f) /\
       (forall x, In x after -> key x <= key f)).
Proof.
  induction l as [|y rest IH]; intros c f H; simpl in H.
  - injection H as <-. left. split; [reflexivity | intros x []].
  - destruct (key c <? key y) eqn:E.
    + apply Z.ltb_lt in E.
      destruct (IH _ _ H) as [[-> Hall]|[Hlt (b & a & -> & Hb & Ha)]].
      * right. split; [assumption|]. exists [], rest. simpl.
        split; [reflexivity|]. split; [intros x []| exact Hall].
      * right. split; [lia|]. exists (y :: b), a.
        split; [reflexivity|]. split; [|exact Ha].
        intros x [<-|Hx]; [assumption | now apply Hb].
    + apply Z.ltb_ge in E.
      destruct (IH _ _ H) as [[-> Hall]|[Hlt (b & a & -> & Hb & Ha)]].
      * left. split; [reflexivity|]. intros x [<-|Hx]; [assumption|].
        now apply Hall.
      * right. split; [assumption|]. exists (y :: b), a.
        split; [reflexivity|]. split; [|exact Ha].
        intros x [<-|Hx]; [lia | now apply Hb].
Qed.

Lemma pick_by_none (l : list A) :
  match pick_by key None l with
  | None => l = []
  | Some f =>
      exists before after,
        l = before ++ f :: after /\
        (forall x, In x before -> key x < key f) /\
        (forall x, In x after -> key x <= key f)
  end.
Proof.
  destruct l as [|y rest]; simpl; [reflexivity|].
  destruct (pick_by key (Some y) rest) as [f|] eqn:H.
  - destruct (pick_by_some _ _ _ H) as [[-> Hall]|[Hlt (b & a & -> & Hb & Ha)]].
    + exists [], rest. split; [reflexivity|]. split; [intros x []|exact Hall].
    + exists (y :: b), a. split; [reflexivity|]. split; [|exact Ha].
      intros x [<-|Hx]; [assumption | now apply Hb].
  - exfalso. clear -H. revert y H.
    induction rest as [|z rest IH]; intros y H; simpl in H; [discriminate|].
    destruct (key y <? key z); eauto.
Qed.
End PickBy.

Lemma summarize_stats_pick (cutoff : Z) (l : list DirectoryStats) :
  forall r a t,
    t = option_map act_modified a ->
    snd (fst (fold_left (summarize_stats cutoff) l (r, a, t))) =
    pick_by act_modified a (activity_candidates l).
Proof.
  induction l as [|s l IH]; intros r a t Ht; [reflexivity|].
  cbn [fold_left activity_candidates flat_map].
  unfold summarize_stats at 2.
  destruct (has_error s); [now apply IH|].
  destruct (most_recent_file s) as [f|]; [|now apply IH].
  cbn [app pick_by act_modified]. rewrite <- Ht.
  destruct (newer (modified_time f) t); now apply IH.
Qed.

(** X8.  The most recent activity of a location summary is taken over
    the entries without error that have a most recent file: it is the
    first of them, in list order, with the latest modification time, and
    it is absent exactly when there is no such entry. *)
Theorem summary_most_recent_activity_is_first_latest (self : FileAnalyzer)
    (now : Z) (location_stats : list DirectoryStats) :
  match sm_most_recent_activity
          (get_location_summary self now location_stats) with
  | None => activity_candidates location_stats = []
  | Some a => first_latest_activity a (activity_candidates location_stats)
  end.
Proof.
  destruct location_stats as [|s l]; [reflexivity|].
  unfold get_location_summary.
  set (cutoff := now - timedelta_days (days_back self)).
  pose proof (summarize_stats_pick cutoff (s :: l) 0 None None eq_refl) as Hp.
  destruct (fold_left (summarize_stats cutoff) (s :: l) (0, None, None))
    as [[r a] t].
  cbn [fst snd] in Hp. cbv zeta. cbn [sm_most_recent_activity].
  rewrite Hp. apply (pick_by_none act_modified).
Qed.

Lemma half_exceeded (k n : Z) :
  0 < n ->
  (negb (Qle_bool (inject_Z k / inject_Z n) (1 # 2)) = true <-> n < 2 * k).
Proof.
  intros Hn. rewrite negb_true_iff.
  destruct (Qle_bool (inject_Z k / inject_Z n) (1 # 2)) eqn:E.
  - apply Qle_bool_iff in E. split; [discriminate|]. intros Hk. exfalso.
    destruct n as [|pn|pn]; try lia.
    unfold Qle, Qdiv, Qmult, Qinv, inject_Z in E; cbn [Qnum Qden] in E.
    rewrite ?Pos2Z.inj_mul in E. nia.
  - split; [intros _|reflexivity].
    assert (Hnle : ~ (inject_Z k / inject_Z n <= 1 # 2)%Q).
    { intros H. apply Qle_bool_iff in H. congruence. }
    destruct n as [|pn|pn]; try lia.
    unfold Qle, Qdiv, Qmult, Qinv, inject_Z in Hnle; cbn [Qnum Qden] in Hnle.
    rewrite ?Pos2Z.inj_mul in Hnle. nia.
Qed.

(** X9.  [identify_issues] reports [many_empty_dirs] for a location
    exactly when more than half of its entries without error are empty:
    twice the number of empty ones exceeds the number of entries without
    error.  Exactly half does not raise it, and a location with error
    entries only never raises it. *)
Theorem many_empty_dirs_iff_more_than_half (self : FileAnalyzer) (now : Z)
    (scan_results : Dict.t (list DirectoryStats)) (name : string)
    (location_stats : list DirectoryStats) :
  NoDup (Dict.keys scan_results) ->
  In (name, location_stats) scan_results ->
  (raised self now scan_results name many_empty_dirs <->
   len (non_error_dirs location_stats) <
   2 * len (filter is_empty (non_error_dirs location_stats))).
Proof.
  intros Hnd Hin. rewrite (raised_iff _ _ _ _ _ _ Hnd Hin).
  destruct location_stats as [|s l].
  - unfold location_issues. cbn [app].
    rewrite typed_in_cons, typed_in_nil. cbn. intuition (try discriminate; lia).
  - unfold location_issues.
    destruct (non_error_dirs (s :: l)) as [|d ds] eqn:Hne.
    + destruct (0 <? error_count (s :: l));
        destruct (negb (has_recent_activity
                          (now - timedelta_days (days_back self * 2))
                          (s :: l)));
        cbn [app]; rewrite ?typed_in_cons, typed_in_nil; cbn;
        intuition (try discriminate; lia).
    + pose proof (half_exceeded (len (filter is_empty (d :: ds)))
                    (len (d :: ds))) as Hh.
      assert (Hpos : 0 < len (d :: ds)) by (unfold len; simpl; lia).
      specialize (Hh Hpos). unfold empty_percentage.
      destruct (negb (Qle_bool
                        (inject_Z (len (filter is_empty (d :: ds))) /
                         inject_Z (len (d :: ds))) (1 # 2))) eqn:E;
        destruct (0 <? error_count (s :: l));
        destruct (negb (has_recent_activity
                          (now - timedelta_days (days_back self * 2))
                          (s :: l)));
        cbn [app]; rewrite ?typed_in_cons, typed_in_nil; cbn [type];
        intuition (try discriminate; try congruence).
Qed.

Lemma many_empty_dirs_iff_more_than_half_witness :
  let six := repeat Sample.stats_b 6 ++ repeat Sample.stats_a 4 in
  let five := repeat Sample.stats_b 5 ++ repeat Sample.stats_a 5 in
  let results := [("six", six); ("five", five)] in
  NoDup (Dict.keys results) /\
  In ("six", six) results /\ In ("five", five) results /\
  raised (mkAnalyzer 7) Sample.now results "six" many_empty_dirs /\
  ~ raised (mkAnalyzer 7) Sample.now results "five" many_empty_dirs.
Proof.
  intros six five results.
  assert (Hnd : NoDup (Dict.keys results)).
  { repeat constructor; simpl; intuition discriminate. }
  assert (H6 : In ("six", six) results) by (left; reflexivity).
  assert (H5 : In ("five", five) results) by (right; left; reflexivity).
  split; [exact Hnd|]. split; [exact H6|]. split; [exact H5|]. split.
  - apply (many_empty_dirs_iff_more_than_half (mkAnalyzer 7) Sample.now
             results "six" six Hnd H6).
    vm_compute. reflexivity.
  - intros H.
    apply (many_empty_dirs_iff_more_than_half (mkAnalyzer 7) Sample.now
             results "five" five Hnd H5) in H.
    vm_compute in H. discriminate H.
Defined.

(** X10.  Every issue [identify_issues] reports names a location of
    the mapping and carries the severity fixed for its type: high for
    [no_data], medium for [access_errors] and [stale_backup], low for
    [many_empty_dirs].  An [access_errors] issue carries the number of
    error-tagged entries of its location, which is positive.  A location
    gets at most three issues. *)
Theorem issues_name_locations_and_fix_severity (self : FileAnalyzer)
    (now : Z) (scan_results : Dict.t (list DirectoryStats)) :
  NoDup (Dict.keys scan_results) ->
  (forall i,
     In i (identify_issues self now scan_results) ->
     exists location_stats,
       In (location i, location_stats) scan_results /\
       severity i =
         match type i with
         | no_data => high
         | access_errors | stale_backup => medium
         | many_empty_dirs => low
         end /\
       (type i = access_errors ->
        count i = Some (len (filter has_error location_stats)) /\
        0 < len (filter has_error location_stats))) /\
  (forall name location_stats,
     In (name, location_stats) scan_results ->
     len (issues_of name (identify_issues self now scan_results)) <= 3).
Proof.
  intros Hnd. split.
  - intros i Hi. unfold identify_issues in Hi. rewrite issues_fold in Hi.
    simpl in Hi. apply in_flat_map in Hi as ([name l] & Hin & Hi).
    cbn [fst snd] in Hi.
    pose proof (location_issues_location _ _ _ _ _ Hi) as Hloc.
    exists l. rewrite Hloc. split; [assumption|].
    unfold location_issues in Hi. destruct l as [|s l].
    + destruct Hi as [<-|[]]. split; [reflexivity | discriminate].
    + unfold error_count in Hi.
      destruct (0 <? len (filter has_error (s :: l))) eqn:He;
        destruct (negb (has_recent_activity
                          (now - timedelta_days (days_back self * 2))
                          (s :: l)));
        destruct (non_error_dirs (s :: l)) as [|d ds];
        try destruct (negb (Qle_bool (empty_percentage (d :: ds)) (1 # 2)));
        cbn [app In] in Hi;
        repeat (destruct Hi as [<-|Hi];
                [cbn [type severity count];
                 split; [reflexivity|];
                 try (intros _; split; [reflexivity | now apply Z.ltb_lt]);
                 try discriminate|]);
        contradiction.
  - intros name l Hin. rewrite (issues_of_identify _ _ _ _ _ Hnd Hin).
    unfold location_issues, len. destruct l as [|s l]; [simpl; lia|].
    destruct (0 <? error_count (s :: l));
      destruct (negb (has_recent_activity
                        (now - timedelta_days (days_back self * 2)) (s :: l)));
      destruct (non_error_dirs (s :: l)) as [|d ds];
      try destruct (negb (Qle_bool (empty_percentage (d :: ds)) (1 # 2)));
      cbn [app length]; lia.
Qed.

Lemma issues_name_locations_and_fix_severity_witness :
  let results := [("A", [Sample.stats_b; error_stats "/a/c" "denied"])] in
  NoDup (Dict.keys results) /\
  map type (identify_issues (mkAnalyzer 7) Sample.now results) =
    [access_errors; stale_backup; many_empty_dirs] /\
  len (issues_of "A" (identify_issues (mkAnalyzer 7) Sample.now results))
  <= 3.
Proof.
  intros results.
  assert (Hnd : NoDup (Dict.keys results)).
  { repeat constructor; simpl; intuition discriminate. }
  split; [exact Hnd|]. split; [reflexivity|].
  apply (proj2 (issues_name_locations_and_fix_severity (mkAnalyzer 7)
                  Sample.now results Hnd) "A"
               [Sample.stats_b; error_stats "/a/c" "denied"]).
  left. reflexivity.
Defined.

(** X11.  Scanning a root that does not exist or is not a directory and
    analysing the result, alone under a location name, gives one
    directory, counted as error and not as empty, a health percentage of
    0 and no recent activity; the issues are exactly [access_errors],
    with count 1, followed by [stale_backup]. *)
Theorem unavailable_root_is_reported_as_error (fs : FileSystem)
    (sc : DirectoryScanner) (an : FileAnalyzer) (now : Z)
    (name base_path : string) (excl : list string) :
  os_path_exists fs base_path = false \/ os_path_isdir fs base_path = false ->
  let results := [(name, scan_directory fs sc base_path excl)] in
  let a := analyze_results an now results in
  total_directories a = 1 /\ error_directories a = 1 /\
  empty_directories a = 0 /\ healthy_directories a = 0 /\
  (health_percentage a == 0)%Q /\ recent_activity a = [] /\
  map (fun i => (type i, location i, count i))
      (identify_issues an now results) =
    [(access_errors, name, Some 1); (stale_backup, name, None)].
Proof.
  intros H.
  assert (Hscan : exists msg,
            Str.truthy msg = true /\
            scan_directory fs sc base_path excl = [error_stats base_path msg]).
  { unfold scan_directory, _scan_local_directory, _get_directories_to_scan.
    destruct (os_path_exists fs base_path) eqn:He; simpl.
    - destruct H as [H|H]; [discriminate|]. rewrite H; simpl.
      eexists; split; [|reflexivity]. reflexivity.
    - eexists; split; [|reflexivity]. reflexivity. }
  destruct Hscan as (msg & Hmsg & ->). cbv zeta.
  unfold analyze_results, identify_issues, location_issues, analyze_stats,
    error_count, has_recent_activity, non_error_dirs, has_error.
  cbn. rewrite Hmsg. cbn. repeat split.
Qed.

Lemma unavailable_root_is_reported_as_error_witness :
  (os_path_exists Sample.backup_fs "/missing" = false \/
   os_path_isdir Sample.backup_fs "/missing" = false) /\
  map (fun i => (type i, location i, count i))
      (identify_issues (mkAnalyzer 7) Sample.now
         [("Main", scan_directory Sample.backup_fs Sample.scanner_depth_2
                     "/missing" [])]) =
    [(access_errors, "Main", Some 1); (stale_backup, "Main", None)].
Proof.
  split; [left; reflexivity|].
  apply (unavailable_root_is_reported_as_error Sample.backup_fs
           Sample.scanner_depth_2 (mkAnalyzer 7) Sample.now "Main" "/missing"
           []).
  left. reflexivity.
Defined.

(* ================================================================== *)
(** * Further properties of the failover selection and the orchestration *)

Lemma consider_best_first (fs : FileSystem) (seen : list Location)
    (best : option Location * option Z) (l : Location) :
  best_first fs seen best -> best_first fs (seen ++ [l]) (consider fs best l).
Proof.
  unfold consider.
  intros [[-> Hnone]|(b & t & -> & (bf & af & Hsplit & Hpb & Hbf) & Hmax)];
    destruct (_check_location_activity fs l) as [a|] eqn:Hl; simpl.
  - right. exists l, a. split; [reflexivity|]. split.
    + exists seen, []. split; [reflexivity|]. split; [assumption|].
      intros x Hx. rewrite (Hnone x Hx). discriminate.
    + intros x t' Hx Hpx. apply in_app_or in Hx as [Hx|[<-|[]]].
      * rewrite (Hnone x Hx) in Hpx. discriminate.
      * rewrite Hl in Hpx. injection Hpx as <-. lia.
  - left. split; [reflexivity|].
    intros x Hx. apply in_app_or in Hx as [Hx|[<-|[]]]; auto.
  - destruct (t <? a) eqn:E.
    + apply Z.ltb_lt in E. right. exists l, a. split; [reflexivity|]. split.
      * exists seen, []. split; [reflexivity|]. split; [assumption|].
        intros x Hx Hpx. specialize (Hmax x a Hx Hpx). lia.
      * intros x t' Hx Hpx. apply in_app_or in Hx as [Hx|[<-|[]]].
        -- specialize (Hmax x t' Hx Hpx). lia.
        -- rewrite Hl in Hpx. injection Hpx as <-. lia.
    + apply Z.ltb_ge in E. right. exists b, t. split; [reflexivity|]. split.
      * exists bf, (af ++ [l]). split; [|split; assumption].
        rewrite Hsplit, <- app_assoc. reflexivity.
      * intros x t' Hx Hpx. apply in_app_or in Hx as [Hx|[<-|[]]].
        -- exact (Hmax x t' Hx Hpx).
        -- rewrite Hl in Hpx. injection Hpx as <-. lia.
  - right. exists b, t. split; [reflexivity|]. split.
    + exists bf, (af ++ [l]). split; [|split; assumption].
      rewrite Hsplit, <- app_assoc. reflexivity.
    + intros x t' Hx Hpx. apply in_app_or in Hx as [Hx|[<-|[]]].
      * exact (Hmax x t' Hx Hpx).
      * rewrite Hl in Hpx. discriminate.
Qed.

Lemma best_candidate_first (fs : FileSystem) (locations : list Location) :
  best_first fs locations (best_candidate fs locations).
Proof.
  unfold best_candidate.
  assert (H : forall ls seen best,
            best_first fs seen best ->
            best_first fs (seen ++ ls) (fold_left (consider fs) ls best)).
  { induction ls as [|l rest IH]; intros seen best Hb; simpl.
    - now rewrite app_nil_r.
    - replace (seen ++ l :: rest) with ((seen ++ [l]) ++ rest)
        by (rewrite <- app_assoc; reflexivity).
      apply IH. now apply consider_best_first. }
  apply (H locations [] (None, None)).
  left. split; [reflexivity | intros l []].
Qed.

(** X12.  When the latest probed activity of a failover group is at
    most 7 whole days old, the selector returns the first candidate in
    declared order that shows this latest activity, whether or not an
    earlier candidate is accessible. *)
Theorem fresh_activity_selects_first_latest (fs : FileSystem) (now : Z)
    (locations : list Location) (t : Z) :
  latest_probed_activity fs locations t ->
  days_old now t <= 7 ->
  exists b,
    _find_active_location fs now locations = Some b /\
    first_with_activity fs locations t b.
Proof.
  intros ((b0 & Hb0 & Hpb0) & Hmax) Hfresh. unfold _find_active_location.
  destruct (best_candidate_first fs locations)
    as [[_ Hnone]|(b & t' & -> & Hfirst & Hmax')].
  - rewrite (Hnone b0 Hb0) in Hpb0. discriminate.
  - assert (t' = t).
    { destruct Hfirst as (bf & af & Hsplit & Hpb & _).
      assert (Hb : In b locations)
        by (rewrite Hsplit; apply in_or_app; right; now left).
      pose proof (Hmax _ _ Hb Hpb). pose proof (Hmax' _ _ Hb0 Hpb0). lia. }
    subst t'.
    destruct (days_old now t <=? 7) eqn:E; [|apply Z.leb_gt in E; lia].
    exists b. split; [reflexivity | assumption].
Qed.

Lemma fresh_activity_selects_first_latest_witness :
  let fs := Sample.fs_of
              [("/a", Sample.dir "a" 0
                        [Sample.file "dump" 10 (Sample.now - 10 * day)]);
               ("/b", Sample.dir "b" 0
                        [Sample.file "dump" 10 (Sample.now - 2 * day)])] in
  latest_probed_activity fs [Sample.A; Sample.B] (Sample.now - 2 * day) /\
  days_old Sample.now (Sample.now - 2 * day) <= 7 /\
  _find_active_location fs Sample.now [Sample.A; Sample.B] = Some Sample.B.
Proof.
  intros fs.
  assert (Hl : latest_probed_activity fs [Sample.A; Sample.B]
                 (Sample.now - 2 * day)).
  { split.
    - exists Sample.B. split; [right; now left | reflexivity].
    - intros l t' [<-|[<-|[]]] Hp; vm_compute in Hp; injection Hp as <-;
        vm_compute; discriminate. }
  assert (Hd : days_old Sample.now (Sample.now - 2 * day) <= 7)
    by (vm_compute; discriminate).
  split; [exact Hl|]. split; [exact Hd|].
  destruct (fresh_activity_selects_first_latest fs Sample.now
              [Sample.A; Sample.B] _ Hl Hd) as (b & Hsel & _).
  reflexivity.
Defined.

Lemma _check_location_activity_exists (fs : FileSystem) (l : Location)
    (t : Z) :
  _check_location_activity fs l = Some t ->
  os_path_exists fs (loc_path l) = true.
Proof.
  unfold _check_location_activity.
  destruct (os_path_exists fs (loc_path l)); [reflexivity | discriminate].
Qed.

(** X13.  The location the selector returns is one of the candidates
    and its path exists.  The selector returns nothing only when no
    candidate exists as a directory, so the placeholder entry of a group
    appears only then. *)
Theorem selection_is_a_candidate_or_none_accessible (fs : FileSystem)
    (now : Z) (locations : list Location) :
  match _find_active_location fs now locations with
  | Some a => In a locations /\ os_path_exists fs (loc_path a) = true
  | None =>
      forall l, In l locations -> _is_location_accessible fs l = false
  end.
Proof.
  unfold _find_active_location.
  assert (Hfind :
    match find (_is_location_accessible fs) locations with
    | Some a => In a locations /\ os_path_exists fs (loc_path a) = true
    | None =>
        forall l, In l locations -> _is_location_accessible fs l = false
    end).
  { destruct (find (_is_location_accessible fs) locations) as [a|] eqn:Hf.
    - apply find_some in Hf as [Hin Hacc]. split; [assumption|].
      unfold _is_location_accessible in Hacc.
      now apply andb_true_iff in Hacc as [He _].
    - intros l Hl. exact (find_none _ _ Hf l Hl). }
  destruct (best_candidate_first fs locations)
    as [[-> _]|(b & t & -> & (bf & af & Hsplit & Hpb & _) & _)];
    [exact Hfind|].
  destruct (days_old now t <=? 7); [|exact Hfind].
  split.
  - rewrite Hsplit. apply in_or_app. right. now left.
  - exact (_check_location_activity_exists _ _ _ Hpb).
Qed.

Section DictMore.
Context {V : Type}.

Lemma dict_get_set (k k' : string) (v : V) (d : Dict.t V) :
  Dict.get k (Dict.set k' v d) =
  if String.eqb k k' then Some v else Dict.get k d.
Proof.
  induction d as [|[k0 v0] rest IH]; simpl; [reflexivity|].
  destruct (String.eqb k' k0) eqn:E; simpl.
  - apply String.eqb_eq in E. subst k0.
    destruct (String.eqb k k'); reflexivity.
  - rewrite IH. destruct (String.eqb k k0) eqn:E0; [|reflexivity].
    apply String.eqb_eq in E0. subst k0.
    destruct (String.eqb k k') eqn:E1; [|reflexivity].
    apply String.eqb_eq in E1. subst k'.
    rewrite String.eqb_refl in E. discriminate.
Qed.

Lemma dict_set_nodup (k : string) (v : V) (d : Dict.t V) :
  NoDup (Dict.keys d) -> NoDup (Dict.keys (Dict.set k v d)).
Proof.
  induction d as [|[k0 v0] rest IH]; simpl; intros H.
  - constructor; [intros [] | constructor].
  - inversion H as [|? ? Hk Hrest]; subst.
    destruct (String.eqb k k0) eqn:E; simpl.
    + apply String.eqb_eq in E. subst k0. now constructor.
    + constructor; [|now apply IH].
      intros Hin. apply dict_keys_set in Hin as [->|Hin]; [|contradiction].
      rewrite String.eqb_refl in E. discriminate.
Qed.

Lemma dict_get_filter (P : string * V -> bool) (k : string) (d : Dict.t V) :
  NoDup (Dict.keys d) ->
  Dict.get k (filter P d) =
  match Dict.get k d with
  | Some v => if P (k, v) then Some v else None
  | None => None
  end.
Proof.
  induction d as [|[k0 v0] rest IH]; simpl; intros H; [reflexivity|].
  inversion H as [|? ? Hk Hrest]; subst.
  destruct (String.eqb k k0) eqn:E.
  - apply String.eqb_eq in E. subst k0.
    destruct (P (k, v0)); simpl; [now rewrite String.eqb_refl|].
    apply dict_get_none. intros Hin. apply Hk.
    unfold Dict.keys in *. apply in_map_iff in Hin as (x & Hx & Hin).
    apply filter_In in Hin as [Hin _]. apply in_map_iff. eauto.
  - destruct (P (k0, v0)); simpl; [rewrite E|]; now apply IH.
Qed.

Lemma dict_filter_nodup (P : string * V -> bool) (d : Dict.t V) :
  NoDup (Dict.keys d) -> NoDup (Dict.keys (filter P d)).
Proof.
  induction d as [|[k0 v0] rest IH]; simpl; intros H; [constructor|].
  inversion H as [|? ? Hk Hrest]; subst.
  destruct (P (k0, v0)); simpl; [|now apply IH].
  constructor; [|now apply IH].
  intros Hin. apply Hk. unfold Dict.keys in *.
  apply in_map_iff in Hin as (x & Hx & Hin).
  apply filter_In in Hin as [Hin _]. apply in_map_iff. eauto.
Qed.

(** A loop of assignments leaves the other keys alone. *)
Lemma dict_get_fold_other {X : Type} (kf : X -> string) (vf : X -> V)
    (k : string) (xs : list X) :
  (forall x, In x xs -> kf x <> k) ->
  forall d,
    Dict.get k (fold_left (fun acc x => Dict.set (kf x) (vf x) acc) xs d) =
    Dict.get k d.
Proof.
  induction xs as [|x xs IH]; intros Hne d; simpl; [reflexivity|].
  rewrite IH by (intros y Hy; apply Hne; now right).
  rewrite dict_get_set.
  destruct (String.eqb k (kf x)) eqn:E; [|reflexivity].
  apply String.eqb_eq in E. exfalso. apply (Hne x); [now left | now symmetry].
Qed.

Lemma dict_set_length (k : string) (v : V) (d : Dict.t V) :
  (length (Dict.set k v d) <= S (length d))%nat.
Proof.
  induction d as [|[k0 v0] rest IH]; simpl; [lia|].
  destruct (String.eqb k k0); simpl; lia.
Qed.
End DictMore.

Lemma in_group_tag (g : string) (l : Location) :
  in_group g l = true <->
  failover_group l = Some g /\ Str.truthy g = true.
Proof.
  unfold in_group. destruct (failover_group l) as [g'|].
  - rewrite andb_true_iff, String.eqb_eq. split.
    + intros [Ht ->]. auto.
    + intros [[= ->] Ht]. auto.
  - split; [discriminate | intros [H _]; discriminate].
Qed.

Lemma add_to_group_exact (seen : list Location)
    (groups : Dict.t (list Location)) (l : Location) :
  groups_exact seen groups ->
  groups_exact (seen ++ [l]) (add_to_group groups l).
Proof.
  intros Hex g. rewrite filter_app. cbn [filter].
  unfold add_to_group.
  destruct (failover_group l) as [g0|] eqn:Hg.
  - destruct (Str.truthy g0) eqn:Ht.
    + assert (Hin : forall g', in_group g' l = String.eqb g0 g').
      { intros g'. unfold in_group. now rewrite Hg, Ht. }
      rewrite Hin.
      pose proof (Hex g0) as H0.
      destruct (Dict.get g0 groups) as [members|] eqn:Hget;
        rewrite dict_get_set, (String.eqb_sym g g0);
        destruct (String.eqb g0 g) eqn:E.
      * apply String.eqb_eq in E. subst g.
        destruct (filter (in_group g0) seen) as [|m ms]; [discriminate|].
        injection H0 as ->. reflexivity.
      * rewrite app_nil_r. apply Hex.
      * apply String.eqb_eq in E. subst g.
        destruct (filter (in_group g0) seen) as [|m ms]; [|discriminate].
        reflexivity.
      * rewrite app_nil_r. apply Hex.
    + assert (Hin : in_group g l = false)
        by (unfold in_group; now rewrite Hg, Ht).
      rewrite Hin, app_nil_r. apply Hex.
  - assert (Hin : in_group g l = false) by (unfold in_group; now rewrite Hg).
    rewrite Hin, app_nil_r. apply Hex.
Qed.

Lemma add_to_group_nodup (groups : Dict.t (list Location)) (l : Location) :
  NoDup (Dict.keys groups) -> NoDup (Dict.keys (add_to_group groups l)).
Proof.
  intros H. unfold add_to_group.
  destruct (failover_group l) as [g|]; [|assumption].
  destruct (Str.truthy g); [|assumption].
  destruct (Dict.get g groups); now apply dict_set_nodup.
Qed.

Lemma fold_add_to_group_exact (locations : list Location) :
  forall seen groups,
    groups_exact seen groups -> NoDup (Dict.keys groups) ->
    groups_exact (seen ++ locations)
                 (fold_left add_to_group locations groups) /\
    NoDup (Dict.keys (fold_left add_to_group locations groups)).
Proof.
  induction locations as [|l rest IH]; intros seen groups He Hn; simpl.
  - rewrite app_nil_r. auto.
  - replace (seen ++ l :: rest) with ((seen ++ [l]) ++ rest)
      by (rewrite <- app_assoc; reflexivity).
    apply IH; [now apply add_to_group_exact | now apply add_to_group_nodup].
Qed.

(** X14.  [_group_failover_locations] maps a tag to the configured
    locations that carry it, in declared order, when at least two do,
    and has no entry for any other tag; no tag appears twice among its
    keys. *)
Theorem failover_groups_are_the_shared_tags (locations : list Location) :
  (forall g,
     Dict.get g (_group_failover_locations locations) =
     group_members g locations) /\
  NoDup (Dict.keys (_group_failover_locations locations)).
Proof.
  destruct (fold_add_to_group_exact locations [] [])
    as [Hex Hnd]; [intros g; reflexivity | constructor|].
  simpl in Hex. unfold _group_failover_locations. split.
  - intros g. rewrite (dict_get_filter _ _ _ Hnd), (Hex g).
    unfold group_members. cbn [snd].
    destruct (filter (in_group g) locations) as [|m ms]; reflexivity.
  - now apply dict_filter_nodup.
Qed.



(** X16.  Under the name of an untagged location, the result of
    [scan_all_locations] holds the scan of the last untagged location
    configured with that name, run with that location's own depth limit
    when it has one and the configured one otherwise; an earlier
    location of the same name is overwritten.  This holds when no tagged
    location has the name and the name is no placeholder name. *)
Theorem untagged_location_is_scanned_last_wins (fs : FileSystem)
    (self : BackupMonitor) (now : Z) (before after : list Location)
    (l : Location) :
  locations_config self = before ++ l :: after ->
  tagged l = false ->
  (forall x, In x after -> tagged x = false -> loc_name x <> loc_name l) ->
  (forall x, In x (locations_config self) -> tagged x = true ->
             loc_name x <> loc_name l) ->
  (forall g, loc_name l <> placeholder_name g) ->
  Dict.get (loc_name l) (scan_all_locations fs self now) =
  Some (scan_directory fs (scanner_for self l) (loc_path l)
                       (exclude_patterns l)).
Proof.
  intros Hsplit Hl Hafter Htagged Hph. unfold scan_all_locations.
  assert (Hstandalone :
    Dict.get (loc_name l)
      (fold_left
         (fun results x =>
            Dict.set (loc_name x) (scan_or_error fs self x) results)
         (filter (fun x => negb (tagged x)) (locations_config self)) []) =
    Some (scan_directory fs (scanner_for self l) (loc_path l)
                         (exclude_patterns l))).
  { rewrite Hsplit, filter_app. cbn [filter]. rewrite Hl. cbn [negb].
    rewrite fold_left_app. cbn [fold_left].
    rewrite dict_get_fold_other.
    - rewrite dict_get_set, String.eqb_refl. reflexivity.
    - intros x Hx. apply filter_In in Hx as [Hx Hneg].
      apply negb_true_iff in Hneg. now apply Hafter. }
  destruct (_group_failover_locations (locations_config self))
    as [|grp rest] eqn:Hgroups; [exact Hstandalone|].
  rewrite <- Hgroups. unfold Dict.update.
  rewrite dict_get_fold_other; [exact Hstandalone|].
  intros kv Hkv Hkey. apply (in_map fst) in Hkv. rewrite Hkey in Hkv.
  unfold _scan_with_failover in Hkv.
  apply _scan_with_failover_keys in Hkv
    as [[]|(g & members & Hin & [(m & Hm & Hn)|Hp])].
  - destruct (_group_failover_locations_sound _ _ _ Hin) as (_ & Hmem & _).
    destruct (Hmem m Hm) as [Hml Hmg].
    apply (Htagged m Hml); [|now symmetry].
    apply in_group_tag in Hmg as [Hg Ht]. unfold tagged. now rewrite Hg.
  - exact (Hph g Hp).
Qed.

Lemma untagged_location_is_scanned_last_wins_witness :
  let first := Sample.loc "Main" "/missing" None in
  let last := mkLocation "Main" "/backup" [] (Some 2) None in
  let self := _initialize_components Sample.defaults [first; last] in
  locations_config self = [first] ++ last :: [] /\
  tagged last = false /\
  Dict.get "Main" (scan_all_locations Sample.backup_fs self Sample.now) =
    Some [Sample.stats_a; Sample.stats_tmpfile2] /\
  len (scan_all_locations Sample.backup_fs self Sample.now) = 1.
Proof.
  intros first last self.
  split; [reflexivity|]. split; [reflexivity|]. split; [|reflexivity].
  refine (eq_trans
            (untagged_location_is_scanned_last_wins Sample.backup_fs self
               Sample.now [first] [] last eq_refl eq_refl _ _ _) _).
  - intros x [].
  - intros x [<-|[<-|[]]] Ht; discriminate Ht.
  - intros g H. discriminate H.
  - reflexivity.
Defined.

Lemma scan_group_set (fs : FileSystem) (self : BackupMonitor) (now : Z)
    (results : Dict.t (list DirectoryStats))
    (group : string * list Location) :
  scan_group fs self now results group =
  Dict.set (group_key fs now group) (group_value fs self now group) results.
Proof.
  destruct group as [g members]. unfold scan_group, group_key, group_value.
  cbn [fst snd]. destruct (_find_active_location fs now members); reflexivity.
Qed.

Lemma _scan_with_failover_fold (fs : FileSystem) (self : BackupMonitor)
    (now : Z) (groups : Dict.t (list Location)) :
  forall results,
    fold_left (scan_group fs self now) groups results =
    fold_left
      (fun acc grp =>
         Dict.set (group_key fs now grp) (group_value fs self now grp) acc)
      groups results.
Proof.
  induction groups as [|grp rest IH]; intros results; simpl; [reflexivity|].
  now rewrite scan_group_set, IH.
Qed.

Section DictLast.
Context {V X : Type} (kf : X -> string) (vf : X -> V).


End DictLast.



Lemma group_members_in (g : string) (locations members : list Location) :
  group_members g locations = Some members ->
  In (g, members) (_group_failover_locations locations) /\
  forall m, In m members -> In m locations /\ in_group g m = true.
Proof.
  intros H. split.
  - apply dict_get_in. unfold _group_failover_locations.
    destruct (fold_add_to_group_exact locations [] [])
      as [Hex Hnd]; [intros g0; reflexivity | constructor|].
    simpl in Hex. rewrite (dict_get_filter _ _ _ Hnd), (Hex g).
    unfold group_members in H. cbn [snd].
    destruct (filter (in_group g) locations) as [|m ms]; [discriminate|].
    exact H.
  - unfold group_members in H.
    destruct (1 <? len (filter (in_group g) locations)); [|discriminate].
    injection H as <-. intros m Hm. now apply filter_In in Hm.
Qed.

Lemma groups_nodup (locations : list Location) :
  NoDup (Dict.keys (_group_failover_locations locations)).
Proof.
  unfold _group_failover_locations. apply dict_filter_nodup.
  destruct (fold_add_to_group_exact locations [] [])
    as [_ Hnd]; [intros g0; reflexivity | constructor | assumption].
Qed.

Lemma nodup_keys_split {V : Type} (d : Dict.t V) (k : string) (v : V) :
  NoDup (Dict.keys d) -> In (k, v) d ->
  exists pre post,
    d = pre ++ (k, v) :: post /\
    (forall kv, In kv post -> fst kv <> k) /\
    (forall kv, In kv pre -> fst kv <> k).
Proof.
  intros Hnd Hin. apply in_split in Hin as (pre & post & ->).
  exists pre, post. split; [reflexivity|].
  unfold Dict.keys in Hnd. rewrite map_app in Hnd. cbn [map fst] in Hnd.
  apply NoDup_remove_2 in Hnd.
  split; intros kv Hkv Heq; apply Hnd; apply in_or_app;
    [right | left]; rewrite <- Heq; now apply in_map.
Qed.





(** The keys of the failover results are names of selected locations
    or placeholder names of groups without one. *)
Lemma _scan_with_failover_keys_active (fs : FileSystem)
    (self : BackupMonitor) (now : Z) (groups : Dict.t (list Location))
    (k : string) :
  In k (Dict.keys (_scan_with_failover fs self now groups)) ->
  exists grp, In grp groups /\ k = group_key fs now grp.
Proof.
  unfold _scan_with_failover. rewrite _scan_with_failover_fold. intros H.
  apply dict_keys_fold in H as [[]|H]. exact H.
Qed.

(** X18.  Of the locations of a failover group only the selected one is
    scanned: a member that the selector does not pick, under a name no
    other location has and that is no placeholder name, has no entry in
    the result of [scan_all_locations]. *)
Theorem unselected_replica_is_not_scanned (fs : FileSystem)
    (self : BackupMonitor) (now : Z) (g : string)
    (members : list Location) (m : Location) :
  group_members g (locations_config self) = Some members ->
  In m members ->
  _find_active_location fs now members <> Some m ->
  (forall x, In x (locations_config self) ->
             loc_name x = loc_name m -> x = m) ->
  (forall g', loc_name m <> placeholder_name g') ->
  Dict.get (loc_name m) (scan_all_locations fs self now) = None.
Proof.
  intros Hg Hm Hsel Huniq Hph. apply dict_get_none. intros Hk.
  destruct (group_members_in _ _ _ Hg) as [Hing Hmem].
  destruct (Hmem m Hm) as [Hml Hmg].
  assert (Htag : tagged m = true).
  { apply in_group_tag in Hmg as [Hgm Ht]. unfold tagged. now rewrite Hgm. }
  unfold scan_all_locations in Hk.
  assert (Hstandalone :
    ~ In (loc_name m)
         (Dict.keys
            (fold_left
               (fun results x =>
                  Dict.set (loc_name x) (scan_or_error fs self x) results)
               (filter (fun x => negb (tagged x)) (locations_config self))
               []))).
  { intros H. apply dict_keys_fold in H as [[]|(x & Hx & Hn)].
    apply filter_In in Hx as [Hx Hneg].
    rewrite (Huniq x Hx (eq_sym Hn)), Htag in Hneg. discriminate. }
  destruct (_group_failover_locations (locations_config self))
    as [|grp rest] eqn:Hgroups; [contradiction|].
  rewrite <- Hgroups in *. unfold Dict.update in Hk.
  apply dict_keys_fold in Hk as [Hk|(kv & Hkv & Hkey)]; [contradiction|].
  apply (in_map fst) in Hkv. rewrite <- Hkey in Hkv.
  apply _scan_with_failover_keys_active in Hkv as ([g' ms'] & Hin & Hkg).
  unfold group_key in Hkg. cbn [fst snd] in Hkg.
  destruct (_find_active_location fs now ms') as [a'|] eqn:Ha';
    [|exact (Hph g' Hkg)].
  destruct (_group_failover_locations_sound _ _ _ Hin) as (_ & Hmem' & _).
  destruct (Hmem' a' (_find_active_location_in _ _ _ _ Ha')) as [Hl' Hg'].
  pose proof (Huniq a' Hl' (eq_sym Hkg)) as ->.
  apply in_group_tag in Hg' as [Hg' _].
  apply in_group_tag in Hmg as [Hgm _].
  assert (g' = g) by congruence. subst g'.
  assert (ms' = members).
  { pose proof (groups_nodup (locations_config self)) as Hnd.
    destruct (nodup_keys_split _ _ _ Hnd Hing)
      as (pre & post & Hsplit & Hpost & Hpre).
    rewrite Hsplit in Hin. apply in_app_or in Hin as [Hin|[Hin|Hin]].
    - exfalso. exact (Hpre _ Hin eq_refl).
    - now injection Hin.
    - exfalso. exact (Hpost _ Hin eq_refl). }
  subst ms'. contradiction.
Qed.

Lemma unselected_replica_is_not_scanned_witness :
  let replica := Sample.loc "Replica" "/backup" (Some "g") in
  let self := _initialize_components Sample.defaults [Sample.A; replica] in
  group_members "g" (locations_config self) = Some [Sample.A; replica] /\
  In Sample.A [Sample.A; replica] /\
  _find_active_location Sample.backup_fs Sample.now [Sample.A; replica]
    <> Some Sample.A /\
  Dict.get "A" (scan_all_locations Sample.backup_fs self Sample.now) = None.
Proof.
  intros replica self.
  assert (Hsel : _find_active_location Sample.backup_fs Sample.now
                   [Sample.A; replica] <> Some Sample.A)
    by (intros H; discriminate H).
  split; [reflexivity|]. split; [left; reflexivity|]. split; [exact Hsel|].
  apply (unselected_replica_is_not_scanned Sample.backup_fs self Sample.now
           "g" [Sample.A; replica] Sample.A eq_refl (or_introl eq_refl) Hsel).
  - intros x [<-|[<-|[]]] Hn; [reflexivity | discriminate Hn].
  - intros g' Hn. discriminate Hn.
Defined.

(* ================================================================== *)
(** * Properties of the formatters *)

(** X19.  [format_file_size] prints a whole number followed by B, KB,
    MB or GB, where the number is the size divided by the unit and
    rounded down, never up; for sizes from 0 to just below 1024 GB the
    number printed is between 0 and 1023; a negative size is printed as
    it is, in bytes. *)
Theorem format_file_size_rounds_down (size_bytes : Z) :
  exists q unit bytes,
    format_file_size size_bytes = (str_int q ++ unit)%string /\
    In (unit, bytes) [("B", 1); ("KB", 1024); ("MB", 1024 * 1024);
                      ("GB", 1024 * 1024 * 1024)] /\
    q * bytes <= size_bytes < (q + 1) * bytes /\
    (0 <= size_bytes < 1024 * 1024 * 1024 * 1024 -> 0 <= q < 1024) /\
    (size_bytes < 0 -> q = size_bytes /\ unit = "B").
Proof.
  unfold format_file_size.
  destruct (size_bytes <? 1024) eqn:E1.
  - apply Z.ltb_lt in E1. exists size_bytes, "B", 1.
    split; [reflexivity|]. split; [simpl; auto|]. repeat split; lia.
  - apply Z.ltb_ge in E1.
    destruct (size_bytes <? 1024 * 1024) eqn:E2.
    + apply Z.ltb_lt in E2. exists (size_bytes / 1024), "KB", 1024.
      split; [reflexivity|]. split; [simpl; auto|].
      pose proof (Z.div_mod size_bytes 1024 ltac:(lia)).
      pose proof (Z.mod_pos_bound size_bytes 1024 ltac:(lia)).
      repeat split; try lia.
    + apply Z.ltb_ge in E2.
      destruct (size_bytes <? 1024 * 1024 * 1024) eqn:E3.
      * apply Z.ltb_lt in E3.
        exists (size_bytes / (1024 * 1024)), "MB", (1024 * 1024).
        split; [reflexivity|]. split; [simpl; auto|].
        pose proof (Z.div_mod size_bytes (1024 * 1024) ltac:(lia)).
        pose proof (Z.mod_pos_bound size_bytes (1024 * 1024) ltac:(lia)).
        repeat split; try lia.
      * apply Z.ltb_ge in E3.
        exists (size_bytes / (1024 * 1024 * 1024)), "GB",
               (1024 * 1024 * 1024).
        split; [reflexivity|]. split; [simpl; auto 6|].
        pose proof (Z.div_mod size_bytes (1024 * 1024 * 1024) ltac:(lia)).
        pose proof (Z.mod_pos_bound size_bytes (1024 * 1024 * 1024)
                      ltac:(lia)).
        repeat split; try lia.
Qed.

Example format_file_size_samples :
  format_file_size 1023 = "1023B" /\
  format_file_size 1024 = "1KB" /\
  format_file_size (1024 * 1024 - 1) = "1023KB" /\
  format_file_size (5 * 1024 * 1024 * 1024 + 7) = "5GB" /\
  format_file_size (2048 * 1024 * 1024 * 1024) = "2048GB" /\
  format_file_size (-5) = "-5B".
Proof. repeat split; reflexivity. Qed.





Lemma lstrip_sep_no_sep (s : string) :
  Str.startswith s "/" = false -> lstrip_sep s = s.
Proof.
  unfold Str.startswith. destruct s as [|c s]; [reflexivity|].
  cbn [String.prefix lstrip_sep].
  destruct (ascii_dec "/"%char c) as [<-|Hne].
  - destruct s; discriminate.
  - intros _. destruct (Ascii.eqb c "/"%char) eqn:E; [|reflexivity].
    apply Ascii.eqb_eq in E. congruence.
Qed.

Lemma lstrip_sep_not_startswith (s : string) :
  Str.startswith (lstrip_sep s) "/" = false.
Proof.
  unfold Str.startswith. induction s as [|c s IH]; [reflexivity|].
  cbn [lstrip_sep]. destruct (Ascii.eqb c "/"%char) eqn:E; [exact IH|].
  cbn [String.prefix].
  destruct (ascii_dec "/"%char c) as [<-|Hne]; [|reflexivity].
  rewrite Ascii.eqb_refl in E. discriminate.
Qed.

Lemma has_sep_startswith (s : string) :
  Str.has_sep s = false -> Str.startswith s "/" = false.
Proof.
  unfold Str.startswith. destruct s as [|c s]; [reflexivity|].
  cbn [Str.has_sep String.prefix]. intros H.
  apply orb_false_iff in H as [Hc _].
  destruct (ascii_dec "/"%char c) as [<-|Hne]; [discriminate | reflexivity].
Qed.

Lemma startswith_self_app (a b : string) : Str.startswith (a ++ b) a = true.
Proof. unfold Str.startswith. apply prefix_app_iff. now exists b. Qed.

(** X21.  [format_path_relative] undoes [os.path.join]: the path of an
    entry joined to a base, made relative to that base, is the entry's
    name, for a non-empty name without separator.  The base itself is
    shown as "."; and whenever the path starts with the base, the result
    does not start with a separator. *)
Theorem format_path_relative_undoes_join :
  (forall base_path name,
     Str.has_sep name = false -> Str.truthy name = true ->
     format_path_relative (os_path_join base_path name) base_path = name) /\
  (forall base_path, format_path_relative base_path base_path = ".") /\
  (forall full_path base_path,
     Str.startswith full_path base_path = true ->
     Str.startswith (format_path_relative full_path base_path) "/" = false).
Proof.
  split; [|split].
  - intros base_path name Hsep Hne. unfold format_path_relative.
    pose proof (has_sep_startswith _ Hsep) as Hs.
    unfold os_path_join. rewrite Hs.
    destruct (negb (Str.truthy base_path) || Str.endswith_sep base_path).
    + rewrite startswith_self_app, slice_from_app.
      rewrite (lstrip_sep_no_sep _ Hs). now rewrite Hne.
    + rewrite startswith_self_app, slice_from_app.
      cbn [lstrip_sep append]. rewrite Ascii.eqb_refl.
      rewrite (lstrip_sep_no_sep _ Hs). now rewrite Hne.
  - intros base_path. unfold format_path_relative.
    rewrite <- (string_app_nil_r base_path) at 1.
    rewrite startswith_self_app.
    rewrite <- (string_app_nil_r base_path) at 2.
    rewrite slice_from_app. reflexivity.
  - intros full_path base_path H. unfold format_path_relative. rewrite H.
    destruct (Str.truthy
                (lstrip_sep
                   (Str.slice_from (String.length base_path) full_path)));
      [apply lstrip_sep_not_startswith | reflexivity].
Qed.

Lemma format_path_relative_undoes_join_witness :
  Str.has_sep "ldap" = false /\ Str.truthy "ldap" = true /\
  format_path_relative (os_path_join "/backup" "ldap") "/backup" = "ldap" /\
  format_path_relative "/backup2/ldap" "/backup" = "2/ldap".
Proof.
  split; [reflexivity|]. split; [reflexivity|]. split; [|reflexivity].
  apply (proj1 format_path_relative_undoes_join "/backup" "ldap");
    reflexivity.
Defined.

(** X22.  The two activity classes of the HTML report see a
    modification time as old exactly when it lies more than 7 whole days
    back, which is when it fails the freshness gate of the failover
    selector; they differ only for a time exactly one whole day back;
    and a modification time in the future is classed recent by both. *)
Theorem activity_classes_agree_with_freshness_gate (now modified_time : Z) :
  (_get_activity_css_class now modified_time = "activity-old" <->
   7 < days_old now modified_time) /\
  (_get_activity_css_class_for_html now modified_time = "activity-old" <->
   7 < days_old now modified_time) /\
  (_get_activity_css_class now modified_time <>
   _get_activity_css_class_for_html now modified_time <->
   days_old now modified_time = 1) /\
  (now < modified_time ->
   _get_activity_css_class now modified_time = "activity-recent" /\
   _get_activity_css_class_for_html now modified_time = "activity-recent").
Proof.
  unfold _get_activity_css_class, _get_activity_css_class_for_html.
  assert (Hneg : now < modified_time -> days_old now modified_time < 0).
  { intros H. unfold days_old. apply Z.div_lt_upper_bound; [reflexivity|].
    lia. }
  destruct (days_old now modified_time =? 0) eqn:E0;
    destruct (days_old now modified_time =? 1) eqn:E1;
    destruct (days_old now modified_time <=? 7) eqn:E7;
    rewrite ?Z.eqb_eq, ?Z.eqb_neq in *;
    rewrite ?Z.leb_le, ?Z.leb_gt in *;
    repeat split; intros; try discriminate; try congruence; try lia;
    try (specialize (Hneg ltac:(assumption)); lia).
Qed.

(** X23.  The plain activity indicator of the text report sorts a
    modification time into the same classes as the HTML report: it is
    "* TODAY" exactly for class today, "* YEST" exactly for class
    yesterday, starts with "+ " exactly for class recent, which includes
    times in the future, and starts with "- " or "o " exactly for class
    old; a missing time is shown as "- UNK". *)
Theorem plain_indicator_matches_html_class (now modified_time : Z) :
  let ind := get_activity_indicator now (Some modified_time) false in
  let cls := _get_activity_css_class_for_html now modified_time in
  (ind = "* TODAY" <-> cls = "activity-today") /\
  (ind = "* YEST" <-> cls = "activity-yesterday") /\
  (Str.startswith ind "+ " = true <-> cls = "activity-recent") /\
  (Str.startswith ind "- " = true \/ Str.startswith ind "o " = true <->
   cls = "activity-old") /\
  get_activity_indicator now None false = "- UNK".
Proof.
  cbv zeta. unfold get_activity_indicator, _get_activity_css_class_for_html.
  destruct (days_old now modified_time =? 0);
    [repeat split; intros; try discriminate; try reflexivity;
     match goal with H : _ \/ _ |- _ => destruct H; discriminate end|].
  destruct (days_old now modified_time =? 1);
    [repeat split; intros; try discriminate; try reflexivity;
     match goal with H : _ \/ _ |- _ => destruct H; discriminate end|].
  destruct (days_old now modified_time <=? 7).
  - repeat split; intros; try discriminate; try reflexivity;
      try apply (startswith_self_app "+ ");
      match goal with H : _ \/ _ |- _ => destruct H; discriminate end.
  - destruct (days_old now modified_time <=? 30);
      repeat split; intros; try discriminate; try reflexivity;
      first [left; apply (startswith_self_app "- ")
            |right; apply (startswith_self_app "o ")].
Qed.

(* ================================================================== *)
(** * Grouping the entries of a location for the report *)

Lemma add_to_top_level_exact (seen : list DirectoryStats)
    (groups : Dict.t (list DirectoryStats)) (s : DirectoryStats) :
  top_levels_exact seen groups ->
  top_levels_exact (seen ++ [s]) (add_to_top_level groups s).
Proof.
  intros Hex k. rewrite filter_app. cbn [filter].
  unfold add_to_top_level, named at 2.
  destruct (has_error s); cbn [negb andb];
    [rewrite app_nil_r; apply Hex|].
  pose proof (Hex (top_level_of (path s))) as H0.
  destruct (Dict.get (top_level_of (path s)) groups) as [members|] eqn:Hget;
    rewrite dict_get_set, (String.eqb_sym k);
    destruct (String.eqb (top_level_of (path s)) k) eqn:E.
  - apply String.eqb_eq in E. subst k.
    destruct (filter (named (top_level_of (path s))) seen) as [|m ms];
      [discriminate|].
    injection H0 as ->. reflexivity.
  - rewrite app_nil_r. apply Hex.
  - apply String.eqb_eq in E. subst k.
    destruct (filter (named (top_level_of (path s))) seen) as [|m ms];
      [|discriminate].
    reflexivity.
  - rewrite app_nil_r. apply Hex.
Qed.

Lemma add_to_top_level_nodup (groups : Dict.t (list DirectoryStats))
    (s : DirectoryStats) :
  NoDup (Dict.keys groups) -> NoDup (Dict.keys (add_to_top_level groups s)).
Proof.
  intros H. unfold add_to_top_level.
  destruct (has_error s); [assumption|].
  destruct (Dict.get (top_level_of (path s)) groups);
    now apply dict_set_nodup.
Qed.

Lemma fold_add_to_top_level (l : list DirectoryStats) :
  forall seen groups,
    top_levels_exact seen groups -> NoDup (Dict.keys groups) ->
    top_levels_exact (seen ++ l) (fold_left add_to_top_level l groups) /\
    NoDup (Dict.keys (fold_left add_to_top_level l groups)).
Proof.
  induction l as [|s rest IH]; intros seen groups He Hn; simpl.
  - rewrite app_nil_r. auto.
  - replace (seen ++ s :: rest) with ((seen ++ [s]) ++ rest)
      by (rewrite <- app_assoc; reflexivity).
    apply IH;
      [now apply add_to_top_level_exact | now apply add_to_top_level_nodup].
Qed.

Lemma split_sep_parts (s : string) :
  split_sep s <> [] /\
  forall part, In part (split_sep s) -> Str.has_sep part = false.
Proof.
  induction s as [|c s [IHn IH]]; simpl.
  - split; [discriminate | intros part [<-|[]]; reflexivity].
  - destruct (Ascii.eqb c "/"%char) eqn:E.
    + split; [discriminate|]. intros part [<-|H]; [reflexivity | now apply IH].
    + destruct (split_sep s) as [|p ps]; [contradiction|].
      split; [discriminate|].
      intros part [<-|H]; [|apply IH; now right].
      simpl. rewrite E. apply IH. now left.
Qed.

Lemma top_level_of_valid (p : string) :
  Str.truthy (top_level_of p) = true /\ Str.has_sep (top_level_of p) = false.
Proof.
  unfold top_level_of.
  set (parts := filter Str.truthy (split_sep (rstrip_sep p))).
  assert (Hparts : forall x, In x parts ->
                   Str.truthy x = true /\ Str.has_sep x = false).
  { intros x Hx. apply filter_In in Hx as [Hx Ht]. split; [assumption|].
    exact (proj2 (split_sep_parts (rstrip_sep p)) x Hx). }
  destruct (2 <=? len parts) eqn:E2.
  - apply Hparts. destruct parts as [|x xs]; [discriminate E2|].
    clear. revert x. induction xs as [|y ys IH]; intros x; [now left|].
    right. exact (IH y).
  - destruct (len parts =? 1) eqn:E1; [|split; reflexivity].
    apply Hparts. destruct parts as [|x xs]; [discriminate E1 | now left].
Qed.

Lemma split_sep_app (a b : string) :
  split_sep (a ++ String "/"%char b) = split_sep a ++ split_sep b.
Proof.
  induction a as [|c a IH]; simpl; [reflexivity|].
  destruct (Ascii.eqb c "/"%char); [now rewrite IH|].
  rewrite IH. destruct (split_sep a) as [|p ps] eqn:E; [|reflexivity].
  exfalso. exact (proj1 (split_sep_parts a) E).
Qed.

Lemma split_sep_name (name : string) :
  Str.has_sep name = false -> split_sep name = [name].
Proof.
  induction name as [|c s IH]; simpl; [reflexivity|].
  intros H. apply orb_false_iff in H as [Hc Hs]. rewrite Hc, (IH Hs).
  reflexivity.
Qed.

Lemma rstrip_sep_name (a name : string) :
  Str.has_sep name = false -> Str.truthy name = true ->
  rstrip_sep (a ++ name) = (a ++ name)%string /\
  rstrip_sep (a ++ name) <> EmptyString.
Proof.
  intros Hs Ht.
  assert (Hname : rstrip_sep name = name /\ rstrip_sep name <> EmptyString).
  { clear a. induction name as [|c s IH]; [discriminate Ht|].
    cbn [Str.has_sep] in Hs. apply orb_false_iff in Hs as [Hc Hs].
    cbn [rstrip_sep]. destruct s as [|c' s'].
    - simpl. rewrite Hc. split; [reflexivity | discriminate].
    - destruct (IH Hs eq_refl) as [IH1 IH2]. rewrite IH1.
      split; [reflexivity | discriminate]. }
  induction a as [|c a [IH1 IH2]]; [exact Hname|].
  cbn [append rstrip_sep]. rewrite IH1.
  destruct (a ++ name)%string eqn:E; [contradiction|].
  split; [reflexivity | discriminate].
Qed.

Lemma top_level_of_ending (a name : string) :
  Str.has_sep name = false -> Str.truthy name = true ->
  top_level_of (a ++ String "/"%char name) = name /\
  top_level_of name = name.
Proof.
  intros Hs Ht. unfold top_level_of. split.
  - replace (a ++ String "/"%char name)%string
      with ((a ++ "/") ++ name)%string
      by (rewrite string_app_assoc; reflexivity).
    rewrite (proj1 (rstrip_sep_name (a ++ "/") name Hs Ht)).
    rewrite string_app_assoc. cbn [append].
    rewrite split_sep_app, (split_sep_name _ Hs).
    rewrite filter_app. cbn [filter]. rewrite Ht.
    destruct (filter Str.truthy (split_sep a)) as [|x xs]; [reflexivity|].
    assert (E : (2 <=? len ((x :: xs) ++ [name])) = true).
    { apply Z.leb_le. unfold len. rewrite length_app. cbn [length]. lia. }
    rewrite E. apply last_last.
  - pose proof (proj1 (rstrip_sep_name "" name Hs Ht)) as Hr.
    cbn [append] in Hr. rewrite Hr.
    rewrite (split_sep_name _ Hs). cbn [filter]. rewrite Ht. reflexivity.
Qed.

Lemma endswith_sep_split (a : string) :
  Str.endswith_sep a = true -> exists a', a = (a' ++ "/")%string.
Proof.
  induction a as [|c a IH]; [discriminate|].
  cbn [Str.endswith_sep]. destruct a as [|c' a'].
  - intros H. apply Ascii.eqb_eq in H. subst c. now exists ""%string.
  - intros H. destruct (IH H) as [x Hx]. exists (String c x).
    cbn [append]. now rewrite <- Hx.
Qed.

(** X24.  [_group_by_top_level] groups the entries without error by
    the last non-empty part of their path: under each name it holds
    exactly the entries whose path ends in that name, in their order,
    error entries are in no group, and no name appears twice.  A group
    name is never empty and holds no separator; the name of a directory
    found by a scan, joined to its parent, is the name of its group, so
    directories of the same name under different parents share a
    group. *)
Theorem entries_are_grouped_by_last_path_part :
  (forall location_stats k,
     Dict.get k (_group_by_top_level location_stats) =
     match filter (named k) location_stats with
     | [] => None
     | members => Some members
     end) /\
  (forall location_stats,
     NoDup (Dict.keys (_group_by_top_level location_stats))) /\
  (forall p,
     Str.truthy (top_level_of p) = true /\
     Str.has_sep (top_level_of p) = false) /\
  (forall parent name,
     Str.has_sep name = false -> Str.truthy name = true ->
     top_level_of (os_path_join parent name) = name).
Proof.
  split; [|split; [|split]].
  - intros l k.
    destruct (fold_add_to_top_level l [] [])
      as [Hex _]; [intros g; reflexivity | constructor|].
    exact (Hex k).
  - intros l.
    destruct (fold_add_to_top_level l [] [])
      as [_ Hnd]; [intros g; reflexivity | constructor | assumption].
  - exact top_level_of_valid.
  - intros parent name Hs Ht. unfold os_path_join.
    rewrite (has_sep_startswith _ Hs).
    destruct (Str.truthy parent) eqn:Hp; cbn [negb orb].
    + destruct (Str.endswith_sep parent) eqn:He.
      * destruct (endswith_sep_split _ He) as [a' ->].
        rewrite string_app_assoc. cbn [append].
        exact (proj1 (top_level_of_ending a' name Hs Ht)).
      * exact (proj1 (top_level_of_ending parent name Hs Ht)).
    + destruct parent; [|discriminate Hp]. cbn [append].
      exact (proj2 (top_level_of_ending "" name Hs Ht)).
Qed.

Lemma entries_are_grouped_by_last_path_part_witness :
  let s1 := mkDirectoryStats "/backup/db/daily" 3 0 10 None false None in
  let s2 := mkDirectoryStats "/backup/ldap/daily/" 1 0 5 None false None in
  let s3 := error_stats "/backup/mail" "denied" in
  Str.has_sep "daily" = false /\ Str.truthy "daily" = true /\
  top_level_of (os_path_join "/backup/db" "daily") = "daily" /\
  _group_by_top_level [s1; s3; s2] = [("daily", [s1; s2])] /\
  top_level_of "/" = "(root)".
Proof.
  intros s1 s2 s3.
  split; [reflexivity|]. split; [reflexivity|]. split; [|split; reflexivity].
  apply (proj2 (proj2 (proj2 entries_are_grouped_by_last_path_part))
           "/backup/db" "daily"); reflexivity.
Defined.

(* ================================================================== *)
(** * Properties of the configuration code *)

Lemma validate_location_passes (i : Z) (location : yaml) :
  validate_location i location = Passes <-> valid_location location.
Proof.
  unfold validate_location, valid_location. split.
  - destruct location as [| | | | |items|entries]; try discriminate.
    cbn [filter].
    destruct (Dict.get "name" entries) as [nm|] eqn:Hn;
      destruct (Dict.get "path" entries) as [p|] eqn:Hp; try discriminate.
    destruct (yaml_truthy p) eqn:Ht; cbn [negb]; [|discriminate].
    intros H. exists entries. split; [reflexivity|].
    split; [rewrite Hn; discriminate|].
    split; [exists p; auto|].
    destruct (Dict.get "type" entries) as [t|]; [|now left].
    right. f_equal.
    destruct t as [| | | |s| |]; try discriminate.
    destruct s as [|[[] [] [] [] [] [] [] []] s]; try discriminate.
    repeat (destruct s as [|[[] [] [] [] [] [] [] []] s]; try discriminate).
    reflexivity.
  - intros (entries & -> & Hn & (p & Hp & Ht) & Htype).
    cbn [filter].
    destruct (Dict.get "name" entries) as [nm|]; [|contradiction].
    rewrite Hp, Ht. cbn [negb].
    destruct Htype as [-> | ->]; reflexivity.
Qed.

Lemma validate_location_index (i : Z) (location : yaml) (e : config_error) :
  validate_location i location = Raises e -> error_index e = Some i.
Proof.
  unfold validate_location.
  destruct location as [| | | | |items|entries];
    try (intros [= <-]; reflexivity).
  cbn [filter].
  destruct (Dict.get "name" entries) as [nm|];
    destruct (Dict.get "path" entries) as [p|];
    try (intros [= <-]; reflexivity).
  destruct (negb (yaml_truthy p)); [intros [= <-]; reflexivity|].
  destruct (Dict.get "type" entries) as [t|]; [|discriminate].
  destruct t as [| | | |s| |]; try (intros [= <-]; reflexivity).
  destruct s as [|[[] [] [] [] [] [] [] []] s];
    try (intros [= <-]; reflexivity).
  repeat (destruct s as [|[[] [] [] [] [] [] [] []] s];
          try (intros [= <-]; reflexivity); try discriminate).
Qed.

Lemma validate_from_passes (items : list yaml) :
  forall i,
    validate_from i items = Passes <->
    forall item, In item items -> valid_location item.
Proof.
  induction items as [|x rest IH]; intros i; simpl.
  - split; [intros _ item [] | reflexivity].
  - destruct (validate_location i x) eqn:Hx.
    + rewrite IH. apply validate_location_passes in Hx. split.
      * intros H item [<-|Hi]; auto.
      * intros H item Hi. apply H. now right.
    + split; [discriminate|]. intros H.
      assert (Hv : validate_location i x = Passes)
        by (apply validate_location_passes, H; now left).
      congruence.
Qed.

Lemma validate_from_raises (items : list yaml) :
  forall i e,
    validate_from i items = Raises e ->
    exists before bad after,
      items = before ++ bad :: after /\
      error_index e = Some (i + len before) /\
      (forall item, In item before -> valid_location item) /\
      ~ valid_location bad.
Proof.
  unfold len.
  induction items as [|x rest IH]; intros i e H; simpl in H; [discriminate|].
  destruct (validate_location i x) eqn:Hx.
  - destruct (IH _ _ H) as (b & bad & a & -> & Hi & Hb & Hbad).
    exists (x :: b), bad, a. split; [reflexivity|].
    split; [rewrite Hi; f_equal; simpl length; lia|].
    split; [|assumption].
    intros item [<-|Hin]; [now apply validate_location_passes in Hx|].
    now apply Hb.
  - injection H as <-. exists [], x, rest. split; [reflexivity|].
    split; [rewrite (validate_location_index _ _ _ Hx); f_equal; simpl; lia|].
    split; [intros item []|].
    intros Hv. apply validate_location_passes with (i := i) in Hv. congruence.
Qed.

(** X25.  [_validate_backup_locations] accepts exactly a non-empty
    list in which every location is a mapping with a 'name', a 'path'
    that is not empty and either no 'type' or the type 'local'; whether
    names repeat is not checked.  When it rejects a list for one of its
    locations, the error names the position of the first location that
    is not acceptable. *)
Theorem validator_accepts_local_locations_only (locations : yaml) :
  (_validate_backup_locations locations = Passes <->
   exists items,
     locations = YList items /\ items <> [] /\
     forall item, In item items -> valid_location item) /\
  (forall items e i,
     locations = YList items ->
     _validate_backup_locations locations = Raises e ->
     error_index e = Some i ->
     exists before bad after,
       items = before ++ bad :: after /\ i = len before /\
       (forall item, In item before -> valid_location item) /\
       ~ valid_location bad).
Proof.
  split.
  - unfold _validate_backup_locations. split.
    + destruct (yaml_truthy locations) eqn:Ht; cbn [negb]; [|discriminate].
      destruct locations as [| | | |s|items|entries]; try discriminate.
      * cbn [yaml_iter]. destruct s as [|c s]; [discriminate Ht|].
        discriminate.
      * cbn [yaml_iter]. intros H. exists items. split; [reflexivity|].
        split; [destruct items; [discriminate Ht | discriminate]|].
        now apply (validate_from_passes items 0).
      * cbn [yaml_iter]. destruct entries as [|kv entries];
          [discriminate Ht | discriminate].
    + intros (items & -> & Hne & Hall).
      destruct items as [|x rest]; [contradiction|]. cbn [yaml_truthy negb].
      cbn [yaml_iter]. now apply validate_from_passes.
  - intros items e i -> H Hi. unfold _validate_backup_locations in H.
    destruct items as [|x rest];
      [cbn in H; injection H as <-; discriminate Hi|].
    cbn [yaml_truthy negb yaml_iter] in H.
    destruct (validate_from_raises _ _ _ H)
      as (b & bad & a & Hsplit & Hidx & Hb & Hbad).
    exists b, bad, a. split; [assumption|].
    split; [rewrite Hidx in Hi; injection Hi as <-; lia|].
    split; assumption.
Qed.

Lemma validator_accepts_local_locations_only_witness :
  let main := YDict [("name", YStr "Main"); ("path", YStr "/backup")] in
  let remote := YDict [("name", YStr "Far"); ("path", YStr "/far");
                       ("type", YStr "ssh")] in
  _validate_backup_locations (YList [main; main]) = Passes /\
  _validate_backup_locations (YList [main; remote; YNull]) =
    Raises (InvalidType 1 (YStr "ssh")) /\
  _validate_backup_locations (YList []) = Raises NoLocations /\
  _validate_backup_locations (YInt 3) = Raises NotIterable.
Proof.
  intros main remote.
  split; [|repeat split].
  apply (proj1 (validator_accepts_local_locations_only (YList [main; main]))).
  exists [main; main]. split; [reflexivity|]. split; [discriminate|].
  intros item [<-|[<-|[]]]; exists [("name", YStr "Main");
                                     ("path", YStr "/backup")];
    (split; [reflexivity|]); (split; [discriminate|]);
    (split; [exists (YStr "/backup"); split; reflexivity | left; reflexivity]).
Defined.


(* ------------------------------------------------------------------ *)
(** ** Defaults *)
















(* ------------------------------------------------------------------ *)
(** ** Report retention *)

Lemma cleanup_keeps (cutoff_time : Q) (entries : list report_entry) :
  forall e, In e entries -> expired cutoff_time e = false ->
            In e (fst (cleanup cutoff_time entries)).
Proof.
  unfold expired.
  induction entries as [|x rest IH]; intros e Hin He; [destruct Hin|].
  cbn [cleanup].
  destruct (is_report x) eqn:Hx.
  - destruct (re_mtime x) as [m|] eqn:Hm; [|exact Hin].
    destruct (cleanup cutoff_time rest) as [rest' raised] eqn:Hc.
    cbn [fst] in IH.
    destruct Hin as [<-|Hin].
    + rewrite Hx, Hm in He. cbn [andb] in He. rewrite He. now left.
    + destruct (negb (Qle_bool cutoff_time m));
        [destruct (unlink_fails x)|]; cbn [fst];
        try right; now apply IH.
  - destruct (cleanup cutoff_time rest) as [rest' raised] eqn:Hc.
    cbn [fst] in *. destruct Hin as [<-|Hin]; [now left|].
    right. now apply IH.
Qed.

Lemma cleanup_only_removes (cutoff_time : Q) (entries : list report_entry) :
  forall e, In e (fst (cleanup cutoff_time entries)) -> In e entries.
Proof.
  induction entries as [|x rest IH]; intros e; cbn [cleanup];
    [intros []|].
  destruct (is_report x).
  - destruct (re_mtime x) as [m|]; [|auto].
    destruct (cleanup cutoff_time rest) as [rest' raised].
    cbn [fst] in IH.
    destruct (negb (Qle_bool cutoff_time m));
      [destruct (unlink_fails x)|]; cbn [fst];
      try (intros [<-|H]; [now left | right; now apply IH]).
    intros H. right. now apply IH.
  - destruct (cleanup cutoff_time rest) as [rest' raised].
    cbn [fst] in *. intros [<-|H]; [now left | right; now apply IH].
Qed.

Lemma cleanup_statable (cutoff_time : Q) (entries : list report_entry) :
  reports_statable entries ->
  cleanup cutoff_time entries =
  (filter (fun e => negb (expired cutoff_time e && negb (unlink_fails e)))
          entries, false).
Proof.
  unfold reports_statable, expired.
  induction entries as [|x rest IH]; intros H; [reflexivity|].
  cbn [cleanup filter].
  rewrite IH by (intros e He; apply H; now right).
  destruct (is_report x) eqn:Hx; cbn [andb negb]; [|reflexivity].
  destruct (re_mtime x) as [m|] eqn:Hm.
  - destruct (negb (Qle_bool cutoff_time m)); cbn [andb negb];
      [|reflexivity].
    now destruct (unlink_fails x).
  - exfalso. apply (H x); [now left | assumption | assumption].
Qed.

(** X27.  [_cleanup_old_reports] only ever removes entries of the
    report directory, and never one whose name does not start with
    'backup_report_' or whose modification time is not before
    [time.time() - retention_days * 86400], whether or not it ends in
    an exception.  When every report can be stat'ed it ends normally
    and removes exactly the reports older than that cutoff whose
    deletion does not fail. *)
Theorem cleanup_removes_only_expired_reports
    (report_dir : list report_entry) (time_now : Q) (retention_days : Z) :
  let cutoff_time :=
    (time_now - inject_Z (retention_days * 86400))%Q in
  (forall e, In e (fst (_cleanup_old_reports report_dir time_now
                          retention_days)) -> In e report_dir) /\
  (forall e, In e report_dir ->
             expired cutoff_time e = false ->
             In e (fst (_cleanup_old_reports report_dir time_now
                          retention_days))) /\
  (reports_statable report_dir ->
   _cleanup_old_reports report_dir time_now retention_days =
   (filter (fun e => negb (expired cutoff_time e && negb (unlink_fails e)))
           report_dir, false)).
Proof.
  intros cutoff_time. unfold _cleanup_old_reports.
  replace (retention_days * 24 * 60 * 60) with (retention_days * 86400)
    by lia.
  fold cutoff_time.
  split; [|split].
  - apply cleanup_only_removes.
  - apply cleanup_keeps.
  - apply cleanup_statable.
Qed.

Lemma cleanup_removes_only_expired_reports_witness :
  let old := mkEntry "backup_report_20240101.html" (Some (1000 # 1)) false in
  let locked := mkEntry "backup_report_20240102.html" (Some (2000 # 1)) true in
  let fresh := mkEntry "backup_report_20240301.html" (Some (5000000 # 1)) false in
  let notes := mkEntry "notes.txt" (Some (1000 # 1)) false in
  _cleanup_old_reports [old; notes; locked; fresh] (5000000 # 1) 30 =
  ([notes; locked; fresh], false).
Proof.
  intros old locked fresh notes.
  refine (eq_trans
            (proj2 (proj2 (cleanup_removes_only_expired_reports
                             [old; notes; locked; fresh] (5000000 # 1) 30)) _) _).
  - intros e [<-|[<-|[<-|[<-|[]]]]] _; discriminate.
  - reflexivity.
Defined.
